(** * LAN-TrafficTracker: the bandwidth monitor of the Go back end

    A shallow embedding of [DeviceStats], [NetworkStats] and
    [BandwidthMonitor] with the operations [UpdateStats],
    [GetNetworkStats], [handleGetDevice], the periodic producer of [main]
    and [broadcastStats].

    Go pointers are locations of an explicit object store, so that the
    sharing between the device map and the records it points to, and the
    absence of sharing between a snapshot and the map, are visible.
    [uint64] values are integers of [Z] with the wrap-around written out.
    Each operation is a function on the state of the monitor; what Go
    leaves open (the order in which [range] visits a map, the clock, the
    sorting function of the library) is an argument.

    The later parts add the subscription handlers, the choice of the
    device and the capture loop of [main], and the message handler of the
    dashboard. *)

From stdpp Require Import gmap strings list fin_maps sorting.
From Stdlib Require Import ZArith Lia.

Local Open Scope Z_scope.


(** ** Machine integers and time *)

Definition u64_modulus : Z := 2 ^ 64.

(** [uint64] addition. *)
Definition add64 (a b : Z) : Z := (a + b) mod u64_modulus.

Definition is_u64 (a : Z) : Prop := 0 <= a < u64_modulus.

(** A [time.Time], as nanoseconds; [time_zero] is the zero value of the type. *)
Definition time_zero : Z := 0.

(** A Go pointer. *)
Abbreviation loc := positive.

(** ** The data model *)

Record DeviceStats := mkDeviceStats {
  MAC : string;
  IP : string;
  BytesSent : Z;
  BytesRecv : Z;
  PacketsSent : Z;
  PacketsRecv : Z;
  LastSeen : Z;
  Hostname : string
}.

Record NetworkStats := mkNetworkStats {
  Devices : list loc;
  TotalSent : Z;
  TotalRecv : Z;
  TotalPackets : Z;
  ActiveDevices : nat;
  MonitorDuration : Z;
  Timestamp : Z
}.

(** A buffered channel of [*NetworkStats]: content oldest first, and the
    capacity it was made with. *)
Record Chan := mkChan {
  chan_buf : list loc;
  chan_cap : nat
}.

(** The monitor together with the objects its pointers refer to:
    [objs] holds the [DeviceStats] objects, [snaps] the [NetworkStats]
    objects. The fields [clients] and [clientsMu] belong to the fan-out
    and are kept in [Subscribers] below; [mutex] is held for the whole of
    [UpdateStats] and of [GetNetworkStats], which are therefore functions
    of the state. *)
Record BandwidthMonitor := mkBandwidthMonitor {
  objs : gmap loc DeviceStats;
  snaps : gmap loc NetworkStats;
  devices : gmap string loc;
  localIP : string;
  startTime : Z;
  broadcast : Chan
}.

Definition set_objs (o : gmap loc DeviceStats) (bm : BandwidthMonitor) :=
  mkBandwidthMonitor o (snaps bm) (devices bm) (localIP bm) (startTime bm)
                     (broadcast bm).

Definition set_devices (d : gmap string loc) (bm : BandwidthMonitor) :=
  mkBandwidthMonitor (objs bm) (snaps bm) d (localIP bm) (startTime bm)
                     (broadcast bm).

Definition set_snaps (s : gmap loc NetworkStats) (bm : BandwidthMonitor) :=
  mkBandwidthMonitor (objs bm) s (devices bm) (localIP bm) (startTime bm)
                     (broadcast bm).

Definition set_broadcast (c : Chan) (bm : BandwidthMonitor) :=
  mkBandwidthMonitor (objs bm) (snaps bm) (devices bm) (localIP bm)
                     (startTime bm) c.

(** [NewBandwidthMonitor localIP], at the time [now]. *)
Definition NewBandwidthMonitor (ip : string) (now : Z) : BandwidthMonitor :=
  {| objs := ∅; snaps := ∅; devices := ∅; localIP := ip; startTime := now;
     broadcast := {| chan_buf := []; chan_cap := 256 |} |}.

(** ** Field assignments through a pointer *)

Definition set_IP (v : string) (d : DeviceStats) : DeviceStats :=
  mkDeviceStats (MAC d) v (BytesSent d) (BytesRecv d) (PacketsSent d)
                (PacketsRecv d) (LastSeen d) (Hostname d).

Definition set_BytesSent (v : Z) (d : DeviceStats) : DeviceStats :=
  mkDeviceStats (MAC d) (IP d) v (BytesRecv d) (PacketsSent d)
                (PacketsRecv d) (LastSeen d) (Hostname d).

Definition set_BytesRecv (v : Z) (d : DeviceStats) : DeviceStats :=
  mkDeviceStats (MAC d) (IP d) (BytesSent d) v (PacketsSent d)
                (PacketsRecv d) (LastSeen d) (Hostname d).

Definition set_PacketsSent (v : Z) (d : DeviceStats) : DeviceStats :=
  mkDeviceStats (MAC d) (IP d) (BytesSent d) (BytesRecv d) v
                (PacketsRecv d) (LastSeen d) (Hostname d).

Definition set_PacketsRecv (v : Z) (d : DeviceStats) : DeviceStats :=
  mkDeviceStats (MAC d) (IP d) (BytesSent d) (BytesRecv d) (PacketsSent d)
                v (LastSeen d) (Hostname d).

Definition set_LastSeen (v : Z) (d : DeviceStats) : DeviceStats :=
  mkDeviceStats (MAC d) (IP d) (BytesSent d) (BytesRecv d) (PacketsSent d)
                (PacketsRecv d) v (Hostname d).

(** [&DeviceStats{MAC: mac, IP: ip}]: the other fields have their zero value. *)
Definition new_DeviceStats (mac ip : string) : DeviceStats :=
  mkDeviceStats mac ip 0 0 0 0 time_zero "".

(** [bm.devices[key] = &DeviceStats{MAC: key, IP: ip}]: the object is
    allocated at a location the store does not use yet. *)
Definition create_device (key ip : string) (bm : BandwidthMonitor)
  : BandwidthMonitor :=
  let l := fresh (dom (objs bm)) in
  set_devices (<[key := l]> (devices bm))
              (set_objs (<[l := new_DeviceStats key ip]> (objs bm)) bm).

(** [bm.devices[key].f = ...]: a map lookup, then a write through the
    pointer found. The map always holds the key at the places this is used
    (see [with_device_present]). *)
Definition with_device (key : string) (f : DeviceStats → DeviceStats)
    (bm : BandwidthMonitor) : BandwidthMonitor :=
  match devices bm !! key with
  | Some l => set_objs (alter f l (objs bm)) bm
  | None => bm
  end.

(** The record [bm.devices[key]] points to, read through the pointer. *)
Definition device (bm : BandwidthMonitor) (key : string) : option DeviceStats :=
  devices bm !! key ≫= λ l, objs bm !! l.

(** ** UpdateStats *)

Definition broadcast_MAC : string := "ff:ff:ff:ff:ff:ff".

(** The guard of both halves of [UpdateStats]. *)
Definition attributable (mac : string) : bool :=
  bool_decide (mac ≠ "") && bool_decide (mac ≠ broadcast_MAC).

(** The block under the comment "Update source device". *)
Definition update_source (srcMAC srcIP : string) (packetSize now : Z)
    (bm : BandwidthMonitor) : BandwidthMonitor :=
  if attributable srcMAC then
    let key := srcMAC in
    let bm1 := match devices bm !! key with
               | Some _ => bm
               | None => create_device key srcIP bm
               end in
    let bm2 := with_device key
                 (λ d, set_BytesSent (add64 (BytesSent d) packetSize) d) bm1 in
    let bm3 := with_device key
                 (λ d, set_PacketsSent (add64 (PacketsSent d) 1) d) bm2 in
    let bm4 := with_device key (set_LastSeen now) bm3 in
    if bool_decide (srcIP ≠ "") &&
       bool_decide ((IP <$> device bm4 key) = Some "")
    then with_device key (set_IP srcIP) bm4
    else bm4
  else bm.

(** The block under the comment "Update destination device". *)
Definition update_destination (dstMAC dstIP : string) (packetSize now : Z)
    (bm : BandwidthMonitor) : BandwidthMonitor :=
  if attributable dstMAC then
    let key := dstMAC in
    let bm1 := match devices bm !! key with
               | Some _ => bm
               | None => create_device key dstIP bm
               end in
    let bm2 := with_device key
                 (λ d, set_BytesRecv (add64 (BytesRecv d) packetSize) d) bm1 in
    let bm3 := with_device key
                 (λ d, set_PacketsRecv (add64 (PacketsRecv d) 1) d) bm2 in
    let bm4 := with_device key (set_LastSeen now) bm3 in
    if bool_decide (dstIP ≠ "") &&
       bool_decide ((IP <$> device bm4 key) = Some "")
    then with_device key (set_IP dstIP) bm4
    else bm4
  else bm.

(** [now] is the value [time.Now()] returns inside the call. *)
Definition UpdateStats (srcMAC dstMAC srcIP dstIP : string)
    (packetSize now : Z) (bm : BandwidthMonitor) : BandwidthMonitor :=
  update_destination dstMAC dstIP packetSize now
    (update_source srcMAC srcIP packetSize now bm).

(** One call of [UpdateStats] with its arguments and its clock reading. *)
Record Call := mkCall {
  srcMAC : string;
  dstMAC : string;
  srcIP : string;
  dstIP : string;
  packetSize : Z;
  call_time : Z
}.

Definition attribute (c : Call) (bm : BandwidthMonitor) : BandwidthMonitor :=
  UpdateStats (srcMAC c) (dstMAC c) (srcIP c) (dstIP c) (packetSize c)
              (call_time c) bm.

(** A sequence of calls, first call first. *)
Definition run (calls : list Call) (bm : BandwidthMonitor) : BandwidthMonitor :=
  fold_left (λ s c, attribute c s) calls bm.

Definition empty_monitor : BandwidthMonitor := NewBandwidthMonitor "" 0.

(** ** GetNetworkStats *)

(** The state of the loop [for _, dev := range bm.devices]: the object
    store, the slice [devices] built so far and the three totals. *)
Record Totals := mkTotals {
  loop_objs : gmap loc DeviceStats;
  loop_devices : list loc;
  totalSent : Z;
  totalRecv : Z;
  totalPackets : Z
}.

(** One iteration, for the map value [dev]: [devCopy := *dev] is a new
    object, whose address is appended to the slice. A value of the map
    always refers to an object (see [wf]), so that the second branch is
    never taken for it. *)
Definition range_body (st : Totals) (dev : loc) : Totals :=
  match loop_objs st !! dev with
  | Some d =>
      let devCopy := fresh (dom (loop_objs st)) in
      {| loop_objs := <[devCopy := d]> (loop_objs st);
         loop_devices := loop_devices st ++ [devCopy];
         totalSent := add64 (totalSent st) (BytesSent d);
         totalRecv := add64 (totalRecv st) (BytesRecv d);
         totalPackets :=
           add64 (totalPackets st) (add64 (PacketsSent d) (PacketsRecv d)) |}
  | None => st
  end.

(** The loop [for _, dev := range bm.devices], from the store [o]; the keys
    are not used. *)
Definition snapshot_loop (order : list (string * loc)) (o : gmap loc DeviceStats)
  : Totals :=
  fold_left (λ st kv, range_body st kv.2) order (mkTotals o [] 0 0 0).

(** The less function given to [sort.Slice], on the elements it compares:
    [totalI > totalJ], both sums in [uint64]. *)
Definition bandwidth (o : gmap loc DeviceStats) (l : loc) : Z :=
  match o !! l with
  | Some d => add64 (BytesSent d) (BytesRecv d)
  | None => 0
  end.

Definition less_bandwidth (o : gmap loc DeviceStats) (i j : loc) : bool :=
  bandwidth o j <? bandwidth o i.

(** Go iterates over a map in an order it does not specify: an order is any
    arrangement of the entries of the map. *)
Definition range_order (m : gmap string loc) (order : list (string * loc)) : Prop :=
  order ≡ₚ map_to_list m.

(** [sort_Slice] stands for [sort.Slice] of the Go library, [order] is the
    order in which [range] visits the map, [since] and [now] are the two
    clock readings. The result is the new store and the pointer returned.
    [MonitorDuration] is kept as the duration in nanoseconds. *)
Definition GetNetworkStats
    (sort_Slice : (loc → loc → bool) → list loc → list loc)
    (order : list (string * loc)) (since now : Z) (bm : BandwidthMonitor)
  : BandwidthMonitor * loc :=
  let st := snapshot_loop order (objs bm) in
  let devs := sort_Slice (less_bandwidth (loop_objs st)) (loop_devices st) in
  let stats := {| Devices := devs;
                  TotalSent := totalSent st;
                  TotalRecv := totalRecv st;
                  TotalPackets := totalPackets st;
                  ActiveDevices := length devs;
                  MonitorDuration := since - startTime bm;
                  Timestamp := now |} in
  let p := fresh (dom (snaps bm)) in
  (set_snaps (<[p := stats]> (snaps bm)) (set_objs (loop_objs st) bm), p).

(** The entries of a snapshot, read through its pointers. *)
Definition snapshot_devices (bm : BandwidthMonitor) (stats : NetworkStats)
  : list (option DeviceStats) :=
  (λ l, objs bm !! l) <$> Devices stats.

(** The entries of the snapshot at [p], read through its pointers. *)
Definition snapshot_entries (bm : BandwidthMonitor) (p : loc)
  : option (list (option DeviceStats)) :=
  snapshot_devices bm <$> snaps bm !! p.

(** ** The contract of [sort.Slice] *)

Definition strict_weak_order {A} (less : A → A → bool) : Prop :=
  (∀ a, less a a = false) ∧
  (∀ a b c, less a b = true → less b c = true → less a c = true) ∧
  (∀ a b c, less a b = false → less b c = false → less a c = false).

(** What the documentation of [sort.Slice] promises: the result is a
    rearrangement of the slice, and for a less function that is a strict
    weak order no element is less than one placed before it. Nothing is
    promised about the order of equal elements. *)
Definition sort_Slice_spec
    (sort_Slice : (loc → loc → bool) → list loc → list loc) : Prop :=
  ∀ less l,
    sort_Slice less l ≡ₚ l ∧
    (strict_weak_order less →
     ∀ i j a b, (i < j)%nat →
       sort_Slice less l !! i = Some a → sort_Slice less l !! j = Some b →
       less b a = false).

(** A sorting function that meets [sort_Slice_spec], to run examples with. *)
Definition merge_sort_Slice (less : loc → loc → bool) (l : list loc) : list loc :=
  @merge_sort loc (λ a b, less b a = false)
              (λ a b, decide (less b a = false)) l.

(** ** handleGetDevice *)

Inductive Response :=
  | NotFound            (* http.Error(w, "Device not found", 404) *)
  | EncodedDevice (body : option DeviceStats).
                        (* the JSON of the record; [None] is JSON null *)

(** Lines 214-216: the map lookup made while the read lock is held. *)
Definition handleGetDevice_lookup (bm : BandwidthMonitor) (mac : string)
  : option loc :=
  devices bm !! mac.

(** Lines 218-224, after the lock is released: the answer is written from
    the pointer, read in the monitor as it is then. *)
Definition handleGetDevice_respond (bm : BandwidthMonitor) (found : option loc)
  : Response :=
  match found with
  | None => NotFound
  | Some device => EncodedDevice (objs bm !! device)
  end.

Definition handleGetDevice (bm : BandwidthMonitor) (mac : string) : Response :=
  handleGetDevice_respond bm (handleGetDevice_lookup bm mac).

(** The monitor inside a call of [UpdateStats] for an attributable source,
    after the statement [bm.devices[key].BytesSent += packetSize] (line 91)
    and before [bm.devices[key].PacketsSent++] (line 92). The call holds
    the write lock there, which does not stop a reader that holds no lock,
    as [handleGetDevice] is when it encodes. *)
Definition source_bytes_added (c : Call) (bm : BandwidthMonitor)
  : BandwidthMonitor :=
  let key := srcMAC c in
  let bm1 := match devices bm !! key with
             | Some _ => bm
             | None => create_device key (srcIP c) bm
             end in
  with_device key
    (λ d, set_BytesSent (add64 (BytesSent d) (packetSize c)) d) bm1.

(** ** The periodic producer of [main] *)

(** [select { case ch <- x: default: }]: the send is taken when the buffer
    has room, the default otherwise. The boolean tells which. *)
Definition try_send (x : loc) (ch : Chan) : Chan * bool :=
  if decide (length (chan_buf ch) < chan_cap ch)%nat
  then ({| chan_buf := chan_buf ch ++ [x]; chan_cap := chan_cap ch |}, true)
  else (ch, false).

(** The body of [for range ticker.C]. *)
Definition ticker_tick
    (sort_Slice : (loc → loc → bool) → list loc → list loc)
    (order : list (string * loc)) (since now : Z) (bm : BandwidthMonitor)
  : BandwidthMonitor * bool :=
  let '(bm1, stats) := GetNetworkStats sort_Slice order since now bm in
  let '(ch, accepted) := try_send stats (broadcast bm1) in
  (set_broadcast ch bm1, accepted).

(** ** Operations in any order *)

Inductive Op :=
  | OpUpdateStats (c : Call)
  | OpGetNetworkStats (order : list (string * loc)) (since now : Z)
  | OpTick (order : list (string * loc)) (since now : Z).

Definition exec_op (sort_Slice : (loc → loc → bool) → list loc → list loc)
    (bm : BandwidthMonitor) (op : Op) : BandwidthMonitor :=
  match op with
  | OpUpdateStats c => attribute c bm
  | OpGetNetworkStats order since now =>
      (GetNetworkStats sort_Slice order since now bm).1
  | OpTick order since now => (ticker_tick sort_Slice order since now bm).1
  end.

Definition exec (sort_Slice : (loc → loc → bool) → list loc → list loc)
    (ops : list Op) (bm : BandwidthMonitor) : BandwidthMonitor :=
  fold_left (exec_op sort_Slice) ops bm.

(** ** The subscribers and [broadcastStats] *)

(** A [*websocket.Conn] as the broadcaster sees it: whether it was closed,
    whether the peer is gone (so that writes fail), and the snapshots
    written to it so far, oldest first. *)
Record Conn := mkConn {
  conn_closed : bool;
  conn_broken : bool;
  conn_written : list loc
}.

Abbreviation goroutine := nat.

(** A [sync.RWMutex]: the goroutines that hold it for reading (one entry
    per hold) and the goroutine that holds it for writing. An operation
    that would have to wait returns [None]: [RLock] waits while the mutex
    is held for writing, [Lock] while it is held at all. *)
Record RWMutex := mkRWMutex {
  readers : list goroutine;
  writer : option goroutine
}.

Definition RLock (g : goroutine) (m : RWMutex) : option RWMutex :=
  match writer m with
  | None => Some (mkRWMutex (g :: readers m) None)
  | Some _ => None
  end.

Fixpoint remove_hold (g : goroutine) (l : list goroutine) : list goroutine :=
  match l with
  | [] => []
  | x :: l' => if decide (x = g) then l' else x :: remove_hold g l'
  end.

Definition RUnlock (g : goroutine) (m : RWMutex) : RWMutex :=
  mkRWMutex (remove_hold g (readers m)) (writer m).

Definition Lock (g : goroutine) (m : RWMutex) : option RWMutex :=
  match readers m, writer m with
  | [], None => Some (mkRWMutex [] (Some g))
  | _, _ => None
  end.

Definition Unlock (m : RWMutex) : RWMutex := mkRWMutex (readers m) None.

(** What goroutines other than [g] can do to the mutex. *)
Inductive other_step (g : goroutine) : RWMutex → RWMutex → Prop :=
  | other_RLock g' m m' :
      g' ≠ g → RLock g' m = Some m' → other_step g m m'
  | other_RUnlock g' m :
      g' ≠ g → g' ∈ readers m → other_step g m (RUnlock g' m)
  | other_Lock g' m m' :
      g' ≠ g → Lock g' m = Some m' → other_step g m m'
  | other_Unlock g' m :
      g' ≠ g → writer m = Some g' → other_step g m (Unlock m).

(** [bm.clients], the connections its keys point to, and [bm.clientsMu]. *)
Record Subscribers := mkSubscribers {
  clients : gmap loc bool;
  conns : gmap loc Conn;
  clientsMu : RWMutex
}.

Definition set_clientsMu (m : RWMutex) (s : Subscribers) : Subscribers :=
  mkSubscribers (clients s) (conns s) m.

(** [client.WriteJSON(stats)]; the boolean is [err == nil]. *)
Definition WriteJSON (client stats : loc) (s : Subscribers) : Subscribers * bool :=
  match conns s !! client with
  | Some c =>
      if conn_closed c || conn_broken c then (s, false)
      else (mkSubscribers (clients s)
              (<[client := mkConn false false (conn_written c ++ [stats])]>
                 (conns s))
              (clientsMu s), true)
  | None => (s, false)
  end.

(** [client.Close()]. *)
Definition Close (client : loc) (s : Subscribers) : Subscribers :=
  mkSubscribers (clients s)
    (alter (λ c, mkConn true (conn_broken c) (conn_written c)) client (conns s))
    (clientsMu s).

(** How a run of the broadcaster ends: it completes, or it is parked in
    [clientsMu.RLock()] or in [clientsMu.Lock()], waiting for the mutex,
    with the state as it is then. *)
Inductive Outcome :=
  | Finished (s : Subscribers)
  | ParkedRLock (s : Subscribers)
  | ParkedLock (s : Subscribers).

(** The loop [for client := range bm.clients], run by the goroutine [g] for
    the clients in the order [order]. *)
Fixpoint range_clients (g : goroutine) (stats : loc) (order : list loc)
    (s : Subscribers) : Outcome :=
  match order with
  | [] => Finished s
  | client :: rest =>
      let '(s1, ok) := WriteJSON client stats s in
      if ok then range_clients g stats rest s1
      else
        let s2 := Close client s1 in
        match Lock g (clientsMu s2) with
        | None => ParkedLock s2
        | Some mu =>
            let s3 := mkSubscribers (delete client (clients s2)) (conns s2)
                                    (Unlock mu) in
            range_clients g stats rest s3
        end
  end.

(** The body of [for stats := range bm.broadcast], for one snapshot. *)
Definition broadcast_snapshot (g : goroutine) (stats : loc) (order : list loc)
    (s : Subscribers) : Outcome :=
  match RLock g (clientsMu s) with
  | None => ParkedRLock s
  | Some mu =>
      match range_clients g stats order (set_clientsMu mu s) with
      | Finished s' => Finished (set_clientsMu (RUnlock g (clientsMu s')) s')
      | parked => parked
      end
  end.

(** [broadcastStats], for the snapshots received from the channel, each
    with the order in which its round visits the clients. *)
Fixpoint broadcastStats (g : goroutine) (received : list (loc * list loc))
    (s : Subscribers) : Outcome :=
  match received with
  | [] => Finished s
  | (stats, order) :: rest =>
      match broadcast_snapshot g stats order s with
      | Finished s' => broadcastStats g rest s'
      | parked => parked
      end
  end.

Definition outcome_state (o : Outcome) : Subscribers :=
  match o with Finished s | ParkedRLock s | ParkedLock s => s end.

(** * The vocabulary of the statements *)

(** ** The object store *)

(** Every pointer of the device map refers to an object, and no two keys
    share an object. Go guarantees the first by construction (a pointer
    obtained from [&DeviceStats{...}] is never dangling); the second holds
    because every entry is created with an object of its own. *)
Definition wf (bm : BandwidthMonitor) : Prop :=
  (∀ k l, devices bm !! k = Some l → is_Some (objs bm !! l)) ∧
  (∀ k1 k2 l, devices bm !! k1 = Some l → devices bm !! k2 = Some l → k1 = k2).

(** [l] is an object of the store that no entry of the device map points
    to: an entry of a snapshot, for instance. *)
Definition unshared (bm : BandwidthMonitor) (l : loc) : Prop :=
  is_Some (objs bm !! l) ∧ ∀ k, devices bm !! k ≠ Some l.

(** [bm'] differs from [bm] only in the object store, and there only in
    the object the key [key] points to. *)
Definition writes_only (key : string) (bm bm' : BandwidthMonitor) : Prop :=
  devices bm' = devices bm ∧ snaps bm' = snaps bm ∧
  broadcast bm' = broadcast bm ∧
  ∀ l, objs bm' !! l = objs bm !! l ∨ devices bm !! key = Some l.

(** No [DeviceStats] object of the store has a host name. *)
Definition no_hostname (bm : BandwidthMonitor) : Prop :=
  ∀ l d, objs bm !! l = Some d → Hostname d = "".

(** ** The two halves of [UpdateStats], record by record *)

(** The first statement of each half: the entry is created when the key
    is new. *)
Definition ensure_device (key ip : string) (bm : BandwidthMonitor)
  : BandwidthMonitor :=
  match devices bm !! key with
  | Some _ => bm
  | None => create_device key ip bm
  end.

(** The statements that follow it; [f] and [g] are the two counter
    updates. *)
Definition block_tail (key ip : string) (now : Z)
    (f g : DeviceStats → DeviceStats) (bm1 : BandwidthMonitor)
  : BandwidthMonitor :=
  let bm2 := with_device key f bm1 in
  let bm3 := with_device key g bm2 in
  let bm4 := with_device key (set_LastSeen now) bm3 in
  if bool_decide (ip ≠ "") &&
     bool_decide ((IP <$> device bm4 key) = Some "")
  then with_device key (set_IP ip) bm4
  else bm4.

(** The shape both halves share after the guard. *)
Definition block (key ip : string) (now : Z) (f g : DeviceStats → DeviceStats)
    (bm : BandwidthMonitor) : BandwidthMonitor :=
  block_tail key ip now f g (ensure_device key ip bm).

(** The last statement of each half: [if ip != "" && d.IP == "" { d.IP = ip }]. *)
Definition set_IP_if_empty (ip : string) (d : DeviceStats) : DeviceStats :=
  if bool_decide (ip ≠ "") && bool_decide (IP d = "") then set_IP ip d else d.

(** The record the source half leaves for its key, from the record [o] the
    key had before ([None]: no entry). *)
Definition source_effect (mac ip : string) (n now : Z)
    (o : option DeviceStats) : DeviceStats :=
  let d := default (new_DeviceStats mac ip) o in
  set_IP_if_empty ip
    (set_LastSeen now
       (set_PacketsSent (add64 (PacketsSent d) 1)
          (set_BytesSent (add64 (BytesSent d) n) d))).

Definition destination_effect (mac ip : string) (n now : Z)
    (o : option DeviceStats) : DeviceStats :=
  let d := default (new_DeviceStats mac ip) o in
  set_IP_if_empty ip
    (set_LastSeen now
       (set_PacketsRecv (add64 (PacketsRecv d) 1)
          (set_BytesRecv (add64 (BytesRecv d) n) d))).

(** What a call does to the record of the identity [m]: the source half,
    then the destination half, each only when [m] is its key. *)
Definition device_step (c : Call) (m : string) (o : option DeviceStats)
  : option DeviceStats :=
  let o1 := if attributable (srcMAC c) && bool_decide (m = srcMAC c)
            then Some (source_effect (srcMAC c) (srcIP c) (packetSize c)
                                     (call_time c) o)
            else o in
  if attributable (dstMAC c) && bool_decide (m = dstMAC c)
  then Some (destination_effect (dstMAC c) (dstIP c) (packetSize c)
                                (call_time c) o1)
  else o1.

(** ** Sums over the calls of a sequence *)

Definition sum_Z (l : list Z) : Z := foldr Z.add 0 l.

(** The frame sizes of the calls whose source identity is [m], in order. *)
Definition sent_sizes (m : string) (calls : list Call) : list Z :=
  packetSize <$> filter (λ c, srcMAC c = m) calls.

(** The frame sizes of the calls whose destination identity is [m]. *)
Definition recv_sizes (m : string) (calls : list Call) : list Z :=
  packetSize <$> filter (λ c, dstMAC c = m) calls.

(** [m] is the source or the destination identity of some call. *)
Definition involved (m : string) (calls : list Call) : Prop :=
  Exists (λ c, srcMAC c = m ∨ dstMAC c = m) calls.

(** The counters of a record agree with the calls of a sequence. *)
Record counted (m : string) (calls : list Call) (d : DeviceStats) : Prop := {
  counted_BytesSent : BytesSent d = sum_Z (sent_sizes m calls) mod u64_modulus;
  counted_PacketsSent :
    PacketsSent d = Z.of_nat (length (sent_sizes m calls)) mod u64_modulus;
  counted_BytesRecv : BytesRecv d = sum_Z (recv_sizes m calls) mod u64_modulus;
  counted_PacketsRecv :
    PacketsRecv d = Z.of_nat (length (recv_sizes m calls)) mod u64_modulus
}.

(** What the registry holds for [m] after the calls [calls]: nothing, when
    [m] is empty, the broadcast address or in no call; otherwise a record
    whose counters agree with the calls. *)
Definition registry_entry (m : string) (calls : list Call)
    (o : option DeviceStats) : Prop :=
  match o with
  | None => ¬ (attributable m = true ∧ involved m calls)
  | Some d => attributable m = true ∧ involved m calls ∧ counted m calls d ∧
              MAC d = m ∧ Hostname d = ""
  end.

(** ** Addresses supplied for an identity *)

(** The network-layer addresses the calls supply for [m], in the order the
    code meets them: within one call the source address before the
    destination address. *)
Definition supplied_addresses (m : string) (calls : list Call) : list string :=
  calls ≫= λ c,
    (if decide (srcMAC c = m) then [srcIP c] else []) ++
    (if decide (dstMAC c = m) then [dstIP c] else []).

Fixpoint first_nonempty (l : list string) : string :=
  match l with
  | [] => ""
  | x :: l' => if decide (x = "") then first_nonempty l' else x
  end.

(** ** Sums and order over the entries of a snapshot *)

(** The field [f] of the object at [l]. *)
Definition entry_field (f : DeviceStats → Z) (o : gmap loc DeviceStats)
    (l : loc) : Z :=
  from_option f 0 (o !! l).

Definition sum_field (f : DeviceStats → Z) (o : gmap loc DeviceStats)
    (ls : list loc) : Z :=
  sum_Z (entry_field f o <$> ls).

(** What holds of the loop of [GetNetworkStats] after every iteration, [o0]
    being the store at its start: the objects of [o0] are as they were, the
    slice holds distinct new objects, and the totals are the sums over the
    slice. *)
Record loop_inv (o0 : gmap loc DeviceStats) (st : Totals) : Prop := {
  loop_old : o0 ⊆ loop_objs st;
  loop_NoDup : NoDup (loop_devices st);
  loop_new : ∀ l, l ∈ loop_devices st →
                  o0 !! l = None ∧ is_Some (loop_objs st !! l);
  loop_dom : ∀ l, is_Some (loop_objs st !! l) →
                  is_Some (o0 !! l) ∨ l ∈ loop_devices st;
  loop_copies : ∀ l x, loop_objs st !! l = Some x → ∃ l0, o0 !! l0 = Some x;
  loop_totalSent :
    totalSent st =
      sum_field BytesSent (loop_objs st) (loop_devices st) mod u64_modulus;
  loop_totalRecv :
    totalRecv st =
      sum_field BytesRecv (loop_objs st) (loop_devices st) mod u64_modulus;
  loop_totalPackets :
    totalPackets st =
      sum_field (λ d, PacketsSent d + PacketsRecv d)
                (loop_objs st) (loop_devices st) mod u64_modulus
}.

(** The devices of [stats] are in non-increasing order of the sum
    [BytesSent + BytesRecv], taken in the integers. *)
Definition sorted_by_sum (bm : BandwidthMonitor) (stats : NetworkStats) : Prop :=
  ∀ i j a b da db, (i < j)%nat →
    Devices stats !! i = Some a → Devices stats !! j = Some b →
    objs bm !! a = Some da → objs bm !! b = Some db →
    BytesSent db + BytesRecv db <= BytesSent da + BytesRecv da.

(** ** Delivery to the subscribers *)

(** The snapshot [stats] was written to the connection [client]. *)
Definition delivered (s : Subscribers) (client stats : loc) : Prop :=
  ∃ c, conns s !! client = Some c ∧ stats ∈ conn_written c.

(** What a run of the fan-out loop is like while the goroutine [g] holds
    the read lock: no client is ever removed, and when a write fails the
    goroutine is parked with the clients after the failing one not served. *)
Definition fanout_result (g : goroutine) (stats : loc) (order : list loc)
    (s : Subscribers) (o : Outcome) : Prop :=
  match o with
  | Finished s' =>
      clients s' = clients s ∧ clientsMu s' = clientsMu s ∧
      Forall (λ c, delivered s' c stats) order
  | ParkedLock s' =>
      clients s' = clients s ∧ clientsMu s' = clientsMu s ∧
      ∃ pre c post, order = pre ++ c :: post ∧
        Forall (λ x, delivered s' x stats) pre ∧
        (conn_closed <$> conns s' !! c) ≠ Some false ∧
        ∀ x, x ∉ pre → x ≠ c → conns s' !! x = conns s !! x
  | ParkedRLock _ => False
  end.

(** ** Example runs *)

Definition mac_A : string := "aa:aa:aa:aa:aa:aa".
Definition mac_B : string := "bb:bb:bb:bb:bb:bb".

(** Scenario A of the specification: three frames, the last one sent to the
    broadcast address. *)
Definition scenario_A : list Call :=
  [ mkCall mac_A mac_B "10.0.0.1" "10.0.0.2" 64 1;
    mkCall mac_B mac_A "10.0.0.2" "10.0.0.1" 1500 2;
    mkCall mac_A broadcast_MAC "10.0.0.1" "10.0.0.255" 128 3 ].

(** Two frames whose sizes add up to [2 ^ 64]. *)
Definition overflow_calls : list Call :=
  [ mkCall mac_A "" "" "" (2 ^ 63) 1;
    mkCall mac_A "" "" "" (2 ^ 63) 2 ].

(** A device first seen without an address, then with one, then with
    another one. *)
Definition address_calls : list Call :=
  [ mkCall mac_A mac_B "" "" 60 1;
    mkCall mac_B mac_A "10.0.0.2" "10.0.0.1" 70 2;
    mkCall mac_A mac_B "10.0.0.9" "10.0.0.2" 80 3 ].

(** Two devices that sent [2 ^ 63] bytes each. *)
Definition overflow_total_calls : list Call :=
  [ mkCall mac_A "" "" "" (2 ^ 63) 1;
    mkCall mac_B "" "" "" (2 ^ 63) 2 ].

(** A device that sent and received [2 ^ 63] bytes, and one that sent one
    byte. *)
Definition overflow_order_calls : list Call :=
  [ mkCall mac_A mac_A "" "" (2 ^ 63) 1;
    mkCall mac_B "" "" "" 1 2 ].

(** A snapshot of the monitor [bm], the map visited in the order of
    [map_to_list] and the slice sorted by [sort_Slice]. *)
Definition snapshot_of (sort_Slice : (loc → loc → bool) → list loc → list loc)
    (bm : BandwidthMonitor) : BandwidthMonitor * loc :=
  GetNetworkStats sort_Slice (map_to_list (devices bm)) 10 10 bm.

(** Two frames, a snapshot, then the third frame of scenario A and a
    second snapshot. *)
Definition before_snapshot : list Op := OpUpdateStats <$> take 2 scenario_A.

Definition after_snapshot : list Op :=
  (OpUpdateStats <$> drop 2 scenario_A) ++
  [OpGetNetworkStats [(mac_B, 2%positive); (mac_A, 1%positive)] 20 20].

(** Three subscribers; the connection of the second one is broken. *)
Definition three_subscribers : Subscribers :=
  {| clients := {[ 1%positive := true; 2%positive := true; 3%positive := true ]};
     conns := {[ 1%positive := mkConn false false [];
                 2%positive := mkConn false true [];
                 3%positive := mkConn false false [] ]};
     clientsMu := mkRWMutex [] None |}.

(** * Further operations and their vocabulary *)

(** ** The registry across all operations *)

(** The calls of [UpdateStats] among the operations, in order. *)
Definition calls_of (ops : list Op) : list Call :=
  ops ≫= λ op, match op with OpUpdateStats c => [c] | _ => [] end.

(** The clock reading of the last call that names [m], as source or as
    destination. *)
Definition last_call_time (m : string) (calls : list Call) : option Z :=
  last (call_time <$> filter (λ c, srcMAC c = m ∨ dstMAC c = m) calls).

(** The four counters of a record. *)
Definition counters (d : DeviceStats) : Z * Z * Z * Z :=
  (BytesSent d, BytesRecv d, PacketsSent d, PacketsRecv d).

(** ** The channel between the producer and the broadcaster *)

(** The channel of a monitor is as [NewBandwidthMonitor] made it, holds at
    most as many snapshots as it has room for, and every pointer in it
    refers to a snapshot of its own. *)
Definition chan_ok (bm : BandwidthMonitor) : Prop :=
  chan_cap (broadcast bm) = 256%nat ∧
  (length (chan_buf (broadcast bm)) <= 256)%nat ∧
  NoDup (chan_buf (broadcast bm)) ∧
  Forall (λ p, is_Some (snaps bm !! p)) (chan_buf (broadcast bm)).

(** ** handleWebSocket *)

(** Lines 161-163: [Lock], [bm.clients[conn] = true], [Unlock]. *)
Definition register (g : goroutine) (conn : loc) (s : Subscribers) : Outcome :=
  match Lock g (clientsMu s) with
  | None => ParkedLock s
  | Some mu =>
      Finished (mkSubscribers (<[conn := true]> (clients s)) (conns s)
                              (Unlock mu))
  end.

(** Lines 176-178: [Lock], [delete(bm.clients, conn)], [Unlock]. *)
Definition unregister (g : goroutine) (conn : loc) (s : Subscribers) : Outcome :=
  match Lock g (clientsMu s) with
  | None => ParkedLock s
  | Some mu =>
      Finished (mkSubscribers (delete conn (clients s)) (conns s) (Unlock mu))
  end.

(** The monitor and its subscribers together. *)
Record Server := mkServer {
  monitor : BandwidthMonitor;
  subscribers : Subscribers
}.

(** How far a handler gets: it runs to the point described, or it is
    parked on [clientsMu] with the server as it is then. *)
Inductive Progress :=
  | Ran (srv : Server)
  | Parked (srv : Server).

(** [upgrader.Upgrade]: a new connection object; [broken] tells whether its
    peer is already gone. *)
Definition Upgrade (broken : bool) (s : Subscribers) : loc * Subscribers :=
  let conn := fresh (dom (conns s)) in
  (conn, mkSubscribers (clients s)
           (<[conn := mkConn false broken []]> (conns s)) (clientsMu s)).

(** [handleWebSocket] up to its read loop (lines 153-171), run by the
    goroutine [g]: the upgrade ([None]: it failed, and the handler returns),
    the registration, and the initial snapshot, whose write error is only
    logged. The result names the connection. *)
Definition handleWebSocket_open (g : goroutine) (upgraded : option bool)
    (sort_Slice : (loc → loc → bool) → list loc → list loc)
    (order : list (string * loc)) (since now : Z) (srv : Server)
  : option loc * Progress :=
  match upgraded with
  | None => (None, Ran srv)
  | Some broken =>
      let '(conn, s0) := Upgrade broken (subscribers srv) in
      match register g conn s0 with
      | Finished s1 =>
          let '(bm1, stats) :=
            GetNetworkStats sort_Slice order since now (monitor srv) in
          let '(s2, _) := WriteJSON conn stats s1 in
          (Some conn, Ran (mkServer bm1 s2))
      | _ => (Some conn, Parked (mkServer (monitor srv) s0))
      end
  end.

(** The end of [handleWebSocket] (lines 175-182 and the deferred
    [conn.Close()]), once [ReadMessage] has returned an error. *)
Definition handleWebSocket_close (g : goroutine) (conn : loc) (srv : Server)
  : Progress :=
  match unregister g conn (subscribers srv) with
  | Finished s1 => Ran (mkServer (monitor srv) (Close conn s1))
  | _ => Parked srv
  end.

(** The mutex is held by nobody. *)
Definition unlocked (m : RWMutex) : Prop := readers m = [] ∧ writer m = None.

(** A connection that is open and whose peer is there. *)
Definition healthy (s : Subscribers) (c : loc) : Prop :=
  ∃ x, conns s !! c = Some x ∧ conn_closed x = false ∧ conn_broken x = false.

(** The order of a round of the broadcaster: the keys of [bm.clients] in
    some arrangement. *)
Definition clients_order (s : Subscribers) (order : list loc) : Prop :=
  order ≡ₚ (map_to_list (clients s)).*1.

(** Two subscribers with working connections. *)
Definition two_subscribers : Subscribers :=
  {| clients := <[1%positive := true]> (<[2%positive := true]> ∅);
     conns := <[1%positive := mkConn false false []]>
                (<[2%positive := mkConn false false []]> ∅);
     clientsMu := mkRWMutex [] None |}.

(** ** main: the interfaces and the choice of the device *)

(** A [pcap.InterfaceAddress], of which only [IP] is used; a [net.IP] is a
    slice of bytes. *)
Record InterfaceAddress := mkInterfaceAddress {
  addr_IP : list Z
}.

(** A [pcap.Interface]. *)
Record Interface := mkInterface {
  Name : string;
  Description : string;
  Addresses : list InterfaceAddress
}.

(** The inner loop of [getLocalIP]: the first address with an IPv4 form.
    [To4] and [IP_String] stand for the methods [To4] and [String] of
    [net.IP]; [To4] returns [None] for Go's [nil]. *)
Fixpoint first_IPv4 (To4 : list Z → option (list Z)) (IP_String : list Z → string)
    (addrs : list InterfaceAddress) : option string :=
  match addrs with
  | [] => None
  | addr :: rest =>
      match To4 (addr_IP addr) with
      | Some ipv4 => Some (IP_String ipv4)
      | None => first_IPv4 To4 IP_String rest
      end
  end.

Fixpoint getLocalIP (To4 : list Z → option (list Z)) (IP_String : list Z → string)
    (deviceName : string) (devices : list Interface) : string :=
  match devices with
  | [] => ""
  | dev :: rest =>
      if bool_decide (Name dev = deviceName) then
        match first_IPv4 To4 IP_String (Addresses dev) with
        | Some s => s
        | None => getLocalIP To4 IP_String deviceName rest
        end
      else getLocalIP To4 IP_String deviceName rest
  end.

(** The loop of [main] that looks for a device when none is given: the
    values of [deviceName] and [localIP] when it ends. *)
Fixpoint first_usable (IP_String : list Z → string) (devices : list Interface)
  : string * string :=
  match devices with
  | [] => ("", "")
  | dev :: rest =>
      if bool_decide (Name dev ≠ "lo") &&
         bool_decide (0 < length (Addresses dev))%nat
      then (Name dev,
            match Addresses dev with
            | addr :: _ => IP_String (addr_IP addr)
            | [] => ""
            end)
      else first_usable IP_String rest
  end.

(** Lines 279-307 of [main]: the device to monitor and the local address,
    from the value of the flag [-device] and the interfaces found. [None]
    is [log.Fatal("No devices found")]. *)
Definition select_device (To4 : list Z → option (list Z))
    (IP_String : list Z → string) (device_flag : string)
    (devices : list Interface) : option (string * string) :=
  match devices with
  | [] => None
  | dev0 :: _ =>
      let '(deviceName, localIP) :=
        if bool_decide (device_flag ≠ "") then (device_flag, "")
        else
          let '(name, ip) := first_usable IP_String devices in
          (if bool_decide (name = "") then Name dev0 else name, ip) in
      Some (deviceName,
            if bool_decide (localIP = "")
            then getLocalIP To4 IP_String deviceName devices
            else localIP)
  end.

(** The IPv4 forms, as strings, of the addresses of the interfaces named
    [deviceName], in the order of the list. *)
Definition IPv4_addresses (To4 : list Z → option (list Z))
    (IP_String : list Z → string) (deviceName : string)
    (devices : list Interface) : list string :=
  devices ≫= λ dev,
    if bool_decide (Name dev = deviceName)
    then omap (λ addr, IP_String <$> To4 (addr_IP addr)) (Addresses dev)
    else [].

(** An interface the loop of [main] passes over. *)
Definition unusable (dev : Interface) : Prop :=
  Name dev = "lo" ∨ Addresses dev = [].

(** ** main: the capture loop *)

(** What the loop reads of a packet: the two addresses of its Ethernet
    layer and of its IPv4 layer, as the [String] methods print them, when
    the packet has the layer, and the length of its data. *)
Record Packet := mkPacket {
  ethernet : option (string * string);
  ipv4 : option (string * string);
  data_len : nat
}.

(** The call of [UpdateStats] the loop makes for a packet (lines 337-352). *)
Definition packet_call (p : Packet) (now : Z) : Call :=
  mkCall (from_option fst "" (ethernet p)) (from_option snd "" (ethernet p))
         (from_option fst "" (ipv4 p)) (from_option snd "" (ipv4 p))
         (Z.of_nat (data_len p)) now.

(** The loop [for packet := range packets], each packet with the clock
    reading of its call. *)
Definition capture (packets : list (Packet * Z)) (bm : BandwidthMonitor)
  : BandwidthMonitor :=
  fold_left (λ s pn, attribute (packet_call pn.1 pn.2) s) packets bm.

(** Example interfaces: the loopback, one without address, one with an
    IPv6 and an IPv4 address. *)
Definition example_To4 (ip : list Z) : option (list Z) :=
  if decide (length ip = 4%nat) then Some ip else None.

Definition example_IP_String (ip : list Z) : string :=
  match ip with
  | [10; 0; 0; 7] => "10.0.0.7"
  | [127; 0; 0; 1] => "127.0.0.1"
  | _ => "fe80::1"
  end.

Definition example_interfaces : list Interface :=
  [ mkInterface "lo" "" [mkInterfaceAddress [127; 0; 0; 1]];
    mkInterface "eth0" "" [];
    mkInterface "wlan0" ""
      [ mkInterfaceAddress [254; 128; 0; 0; 0; 0; 0; 0; 0; 0; 0; 0; 0; 0; 0; 1];
        mkInterfaceAddress [10; 0; 0; 7] ] ].

(** * The dashboard: the handler of the WebSocket messages *)

(** The numbers the handler computes with are the byte counters of a
    message and their differences. They are modelled as integers, which is
    what they are in JavaScript as long as the counters are safe integers:
    such a counter is parsed exactly and two of them subtract exactly. *)
Definition safe_integer (n : Z) : Prop := 0 ≤ n ≤ 2 ^ 53 - 1.

(** The fields of a [DeviceStats] of the message the handler reads. *)
Record DeviceStatsJSON := mkDeviceStatsJSON {
  mac : string;
  ip : string;
  bytesSent : Z;
  bytesRecv : Z
}.

(** A value of [deviceRates] and a value of [previousStatsRef.current]. *)
Record Rates := mkRates { upload : Z; download : Z }.
Record Previous := mkPrevious { sent : Z; recv : Z }.

Record ChartDataPoint := mkChartDataPoint {
  timestamp : string;
  point_devices : gmap string Rates
}.

(** The state of the component the handler reads and writes; [stats] holds
    the list [devices] of the last message. *)
Record Dashboard := mkDashboard {
  stats : option (list DeviceStatsJSON);
  chartHistory : list ChartDataPoint;
  previousStatsRef : gmap string Previous
}.

Definition MAX_HISTORY_POINTS : nat := 50.

(** [l.slice(-n)] for a positive [n]. *)
Definition slice_last {A} (n : nat) (l : list A) : list A :=
  drop (length l - n) l.

(** The counters of a device of a message, the values kept for a key and
    the rates of an entry are safe integers. *)
Definition safe_counters (device : DeviceStatsJSON) : Prop :=
  safe_integer (bytesSent device) ∧ safe_integer (bytesRecv device).

Definition safe_previous (prev : Previous) : Prop :=
  safe_integer (sent prev) ∧ safe_integer (recv prev).

Definition safe_rates (r : Rates) : Prop :=
  safe_integer (upload r) ∧ safe_integer (download r).

(** The entry of [deviceRates] for a device, from what [previousStatsRef]
    holds for its key. The two subtractions are those of JavaScript when
    the counters are safe integers, which the statements about rates
    assume. *)
Definition device_rates (prev : option Previous) (device : DeviceStatsJSON)
  : Rates :=
  match prev with
  | Some prev =>
      let uploadRate := bytesSent device - sent prev in
      let downloadRate := bytesRecv device - recv prev in
      mkRates (Z.max 0 uploadRate) (Z.max 0 downloadRate)
  | None => mkRates 0 0
  end.

(** The body of [data.devices.forEach], on [previousStatsRef.current] and
    [deviceRates]. *)
Definition forEach_device
    (st : gmap string Previous * gmap string Rates)
    (device : DeviceStatsJSON) : gmap string Previous * gmap string Rates :=
  let key := mac device in
  let prev := st.1 !! key in
  let deviceRates := <[key := device_rates prev device]> st.2 in
  (<[key := mkPrevious (bytesSent device) (bytesRecv device)]> st.1,
   deviceRates).

(** [previousStatsRef.current] after the loop of a message, and the point
    the message adds to the history. *)
Definition message_point (data : list DeviceStatsJSON) (time : string)
    (prevs : gmap string Previous) : gmap string Previous * ChartDataPoint :=
  let st := fold_left forEach_device data (prevs, ∅) in
  (st.1, mkChartDataPoint time st.2).

(** [websocket.onmessage], for a message with the devices [data] that
    arrives at the time [time] prints as. *)
Definition onmessage (data : list DeviceStatsJSON) (time : string)
    (d : Dashboard) : Dashboard :=
  let r := message_point data time (previousStatsRef d) in
  let newHistory := chartHistory d ++ [r.2] in
  mkDashboard (Some data) (slice_last MAX_HISTORY_POINTS newHistory) r.1.

(** The component when it is mounted. *)
Definition new_Dashboard : Dashboard := mkDashboard None [] ∅.

(** The messages of a session, first message first. *)
Definition receive (msgs : list (list DeviceStatsJSON * string))
    (d : Dashboard) : Dashboard :=
  fold_left (λ d msg, onmessage msg.1 msg.2 d) msgs d.

(** The points the messages produce, whether the history keeps them or
    not. *)
Fixpoint points (msgs : list (list DeviceStatsJSON * string))
    (prevs : gmap string Previous) : list ChartDataPoint :=
  match msgs with
  | [] => []
  | msg :: rest =>
      let r := message_point msg.1 msg.2 prevs in
      r.2 :: points rest r.1
  end.

(** The upload rate a point shows for a device, 0 when the point has no
    entry for it, as the chart reads it. *)
Definition upload_in (m : string) (pt : ChartDataPoint) : Z :=
  from_option upload 0 (point_devices pt !! m).

(** The values of [bytesSent] the messages carry for a device, in order. *)
Definition sent_values (m : string)
    (msgs : list (list DeviceStatsJSON * string)) : list Z :=
  msgs ≫= λ msg, bytesSent <$> filter (λ device, mac device = m) msg.1.

Definition example_messages : list (list DeviceStatsJSON * string) :=
  [ ([mkDeviceStatsJSON "aa" "" 100 0; mkDeviceStatsJSON "bb" "" 7 7], "10:00:00");
    ([mkDeviceStatsJSON "aa" "" 250 0], "10:00:02");
    ([mkDeviceStatsJSON "bb" "" 9 7; mkDeviceStatsJSON "aa" "" 400 10], "10:00:04") ].

(** * The store invariant and the effect of [UpdateStats] *)

Lemma wf_new ip now : wf (NewBandwidthMonitor ip now).
Proof. split; intros *; simpl; by rewrite lookup_empty. Qed.

Lemma fresh_objs_None (bm : BandwidthMonitor) :
  objs bm !! fresh (dom (objs bm)) = None.
Proof. apply not_elem_of_dom, is_fresh. Qed.

Lemma fresh_objs_None_map (o : gmap loc DeviceStats) :
  o !! fresh (dom o) = None.
Proof. apply not_elem_of_dom, is_fresh. Qed.

Lemma fresh_not_device bm k :
  wf bm → devices bm !! k ≠ Some (fresh (dom (objs bm))).
Proof.
  intros [Hobj _] Hk. apply Hobj in Hk as [d Hd].
  by rewrite fresh_objs_None in Hd.
Qed.

Lemma wf_create_device key ip bm :
  wf bm → wf (create_device key ip bm).
Proof.
  intros Hwf. pose proof (λ k, fresh_not_device bm k Hwf) as Hfr.
  destruct Hwf as [Hobj Hinj]. split; simpl.
  - intros k l. rewrite lookup_insert. case_decide; intros Hk.
    + simplify_eq. rewrite lookup_insert_eq. eauto.
    + rewrite lookup_insert_is_Some.
      destruct (decide (fresh (dom (objs bm)) = l)); eauto.
  - intros k1 k2 l. rewrite !lookup_insert.
    repeat case_decide; intros H1 H2; simplify_eq; try done;
      try (exfalso; eapply Hfr; eassumption).
    eauto.
Qed.

Lemma device_create_device key ip bm k :
  wf bm →
  device (create_device key ip bm) k =
    if decide (k = key) then Some (new_DeviceStats key ip) else device bm k.
Proof.
  intros Hwf. unfold device; simpl. case_decide as Hk.
  - subst. rewrite lookup_insert_eq. simpl. by rewrite lookup_insert_eq.
  - rewrite lookup_insert_ne by done.
    destruct (devices bm !! k) as [l|] eqn:Hl; simpl; [|done].
    rewrite lookup_insert_ne; [done|].
    intros <-. by eapply fresh_not_device.
Qed.

Lemma wf_with_device key f bm : wf bm → wf (with_device key f bm).
Proof.
  intros [Hobj Hinj]. unfold with_device.
  destruct (devices bm !! key) as [l|] eqn:Hl; [|done].
  split; simpl; [|done].
  intros k l' Hk. rewrite lookup_alter. destruct (Hobj _ _ Hk) as [d Hd].
  case_decide; subst; rewrite ?Hd; eauto.
Qed.

Lemma device_with_device key f bm k :
  wf bm →
  device (with_device key f bm) k =
    if decide (k = key) then f <$> device bm key else device bm k.
Proof.
  intros [Hobj Hinj]. unfold with_device, device.
  destruct (devices bm !! key) as [l|] eqn:Hl; simpl.
  - case_decide as Hk.
    + subst. rewrite Hl. simpl. by rewrite lookup_alter_eq.
    + destruct (devices bm !! k) as [l'|] eqn:Hl'; simpl; [|done].
      rewrite lookup_alter_ne; [done|]. intros ->. eauto.
  - case_decide as Hk; [|done]. subst. by rewrite Hl.
Qed.

(** The write [bm.devices[key].f = ...] never meets a missing entry where
    [UpdateStats] performs it: the entry was looked up or created just
    before. *)
Lemma with_device_present key ip bm :
  wf bm →
  is_Some (device (match devices bm !! key with
                   | Some _ => bm
                   | None => create_device key ip bm
                   end) key).
Proof.
  intros Hwf. destruct (devices bm !! key) as [l|] eqn:Hl.
  - unfold device. rewrite Hl. simpl. destruct Hwf as [Hobj _]. eauto.
  - rewrite device_create_device by done. rewrite decide_True by done. eauto.
Qed.

Lemma wf_block key ip now f g bm : wf bm → wf (block key ip now f g bm).
Proof.
  intros Hwf. unfold block, block_tail, ensure_device.
  assert (wf (match devices bm !! key with
              | Some _ => bm
              | None => create_device key ip bm
              end)) as Hwf1.
  { destruct (devices bm !! key); auto using wf_create_device. }
  destruct (_ && _); auto using wf_with_device.
Qed.

Lemma device_block key ip now f g bm k :
  wf bm →
  device (block key ip now f g bm) k =
    if decide (k = key)
    then Some (set_IP_if_empty ip
                 (set_LastSeen now
                    (g (f (default (new_DeviceStats key ip) (device bm key))))))
    else device bm k.
Proof.
  intros Hwf. unfold block, block_tail, ensure_device.
  set (bm1 := match devices bm !! key with
              | Some _ => bm
              | None => create_device key ip bm
              end).
  assert (wf bm1) as Hwf1.
  { subst bm1. destruct (devices bm !! key); auto using wf_create_device. }
  assert (∀ k', device bm1 k' =
            if decide (k' = key)
            then Some (default (new_DeviceStats key ip) (device bm key))
            else device bm k') as Hd1.
  { intros k'. subst bm1. destruct (devices bm !! key) as [l|] eqn:Hl.
    - case_decide; [|done]. subst.
      destruct Hwf as [Hobj _]. destruct (Hobj _ _ Hl) as [d Hd].
      unfold device. rewrite Hl. simpl. by rewrite Hd.
    - rewrite device_create_device by done.
      case_decide; [|done]. unfold device. by rewrite Hl. }
  set (bm4 := with_device key (set_LastSeen now)
                (with_device key g (with_device key f bm1))).
  assert (wf bm4) as Hwf4 by (subst bm4; auto using wf_with_device).
  assert (∀ k', device bm4 k' =
            if decide (k' = key)
            then Some (set_LastSeen now
                    (g (f (default (new_DeviceStats key ip) (device bm key)))))
            else device bm k') as Hd4.
  { intros k'. subst bm4.
    rewrite !device_with_device by auto using wf_with_device.
    rewrite !Hd1. repeat case_decide; try done. }
  unfold set_IP_if_empty.
  rewrite (Hd4 key), decide_True by done. simpl.
  destruct (bool_decide (ip ≠ "")); simpl; [|apply Hd4].
  destruct (decide (IP (g (f (default (new_DeviceStats key ip)
                                      (device bm key)))) = ""))
    as [Hip|Hip].
  - rewrite !bool_decide_eq_true_2 by (by rewrite ?Hip).
    rewrite device_with_device by done. rewrite !Hd4.
    case_decide; [|done]. by rewrite decide_True.
  - rewrite !bool_decide_eq_false_2 by congruence. apply Hd4.
Qed.

Lemma update_source_block m ip n now bm :
  update_source m ip n now bm =
    if attributable m
    then block m ip now (λ d, set_BytesSent (add64 (BytesSent d) n) d)
               (λ d, set_PacketsSent (add64 (PacketsSent d) 1) d) bm
    else bm.
Proof. reflexivity. Qed.

Lemma update_destination_block m ip n now bm :
  update_destination m ip n now bm =
    if attributable m
    then block m ip now (λ d, set_BytesRecv (add64 (BytesRecv d) n) d)
               (λ d, set_PacketsRecv (add64 (PacketsRecv d) 1) d) bm
    else bm.
Proof. reflexivity. Qed.

Lemma wf_update_source m ip n now bm :
  wf bm → wf (update_source m ip n now bm).
Proof.
  intros. rewrite update_source_block. destruct (attributable m); [|done].
  by apply wf_block.
Qed.

Lemma wf_update_destination m ip n now bm :
  wf bm → wf (update_destination m ip n now bm).
Proof.
  intros. rewrite update_destination_block. destruct (attributable m); [|done].
  by apply wf_block.
Qed.

Lemma device_update_source m ip n now bm k :
  wf bm →
  device (update_source m ip n now bm) k =
    if attributable m && bool_decide (k = m)
    then Some (source_effect m ip n now (device bm m))
    else device bm k.
Proof.
  intros Hwf. rewrite update_source_block.
  destruct (attributable m); simpl; [|done].
  rewrite device_block by done. unfold source_effect.
  case_decide;
    [rewrite bool_decide_eq_true_2 by done|rewrite bool_decide_eq_false_2 by done];
    done.
Qed.

Lemma device_update_destination m ip n now bm k :
  wf bm →
  device (update_destination m ip n now bm) k =
    if attributable m && bool_decide (k = m)
    then Some (destination_effect m ip n now (device bm m))
    else device bm k.
Proof.
  intros Hwf. rewrite update_destination_block.
  destruct (attributable m); simpl; [|done].
  rewrite device_block by done. unfold destination_effect.
  case_decide;
    [rewrite bool_decide_eq_true_2 by done|rewrite bool_decide_eq_false_2 by done];
    done.
Qed.

Lemma wf_attribute c bm : wf bm → wf (attribute c bm).
Proof.
  intros. unfold attribute, UpdateStats.
  auto using wf_update_source, wf_update_destination.
Qed.

Lemma wf_run calls bm : wf bm → wf (run calls bm).
Proof.
  revert bm. induction calls as [|c calls IH]; intros bm Hwf; [done|].
  apply IH. by apply wf_attribute.
Qed.

Create HintDb monitor.
#[global] Hint Resolve wf_new wf_create_device wf_with_device wf_block
  wf_update_source wf_update_destination wf_attribute wf_run : monitor.

Lemma device_attribute c bm m :
  wf bm → device (attribute c bm) m = device_step c m (device bm m).
Proof.
  intros Hwf. unfold attribute, UpdateStats, device_step.
  rewrite device_update_destination by auto with monitor.
  rewrite !device_update_source by done.
  destruct (attributable (dstMAC c)), (attributable (srcMAC c)); simpl;
    repeat case_bool_decide; subst; congruence.
Qed.

Lemma run_snoc calls c bm : run (calls ++ [c]) bm = attribute c (run calls bm).
Proof. unfold run. by rewrite fold_left_app. Qed.

Lemma device_run_snoc calls c bm m :
  wf bm →
  device (run (calls ++ [c]) bm) m = device_step c m (device (run calls bm) m).
Proof. intros. rewrite run_snoc. apply device_attribute. auto with monitor. Qed.

Lemma device_new ip t0 m : device (NewBandwidthMonitor ip t0) m = None.
Proof. unfold device. simpl. by rewrite lookup_empty. Qed.

Lemma sum_Z_snoc l x : sum_Z (l ++ [x]) = sum_Z l + x.
Proof. unfold sum_Z. induction l as [|y l IH]; simpl; lia. Qed.

Lemma sent_sizes_snoc m calls c :
  sent_sizes m (calls ++ [c]) =
    sent_sizes m calls ++ (if decide (srcMAC c = m) then [packetSize c] else []).
Proof.
  unfold sent_sizes. rewrite filter_app, fmap_app. f_equal.
  rewrite filter_cons, filter_nil. by case_decide.
Qed.

Lemma recv_sizes_snoc m calls c :
  recv_sizes m (calls ++ [c]) =
    recv_sizes m calls ++ (if decide (dstMAC c = m) then [packetSize c] else []).
Proof.
  unfold recv_sizes. rewrite filter_app, fmap_app. f_equal.
  rewrite filter_cons, filter_nil. by case_decide.
Qed.

Lemma sent_sizes_not_involved m calls : ¬ involved m calls → sent_sizes m calls = [].
Proof.
  unfold involved, sent_sizes. rewrite <-Forall_Exists_neg.
  induction 1 as [|c calls Hc _ IH]; [done|].
  rewrite filter_cons. case_decide; [tauto|done].
Qed.

Lemma recv_sizes_not_involved m calls : ¬ involved m calls → recv_sizes m calls = [].
Proof.
  unfold involved, recv_sizes. rewrite <-Forall_Exists_neg.
  induction 1 as [|c calls Hc _ IH]; [done|].
  rewrite filter_cons. case_decide; [tauto|done].
Qed.

Lemma add64_mod a b : add64 (a mod u64_modulus) b = (a + b) mod u64_modulus.
Proof. unfold add64. by rewrite Zplus_mod_idemp_l. Qed.

Lemma add64_0_l b : add64 0 b = b mod u64_modulus.
Proof. reflexivity. Qed.

Lemma counted_new m ip calls :
  ¬ involved m calls → counted m calls (new_DeviceStats m ip).
Proof.
  intros Hn. split; simpl;
    rewrite ?sent_sizes_not_involved, ?recv_sizes_not_involved by done; done.
Qed.

Lemma set_IP_if_empty_counters ip d :
  BytesSent (set_IP_if_empty ip d) = BytesSent d ∧
  PacketsSent (set_IP_if_empty ip d) = PacketsSent d ∧
  BytesRecv (set_IP_if_empty ip d) = BytesRecv d ∧
  PacketsRecv (set_IP_if_empty ip d) = PacketsRecv d ∧
  MAC (set_IP_if_empty ip d) = MAC d ∧
  Hostname (set_IP_if_empty ip d) = Hostname d ∧
  LastSeen (set_IP_if_empty ip d) = LastSeen d.
Proof. unfold set_IP_if_empty. by destruct (_ && _). Qed.

(** A call whose source is [m] adds its size and one packet on the sent
    side and leaves the received side alone. *)
Lemma source_effect_counters m ip n now d :
  let d' := source_effect m ip n now (Some d) in
  BytesSent d' = add64 (BytesSent d) n ∧
  PacketsSent d' = add64 (PacketsSent d) 1 ∧
  BytesRecv d' = BytesRecv d ∧ PacketsRecv d' = PacketsRecv d.
Proof.
  unfold source_effect. simpl.
  destruct (set_IP_if_empty_counters ip
    (set_LastSeen now (set_PacketsSent (add64 (PacketsSent d) 1)
       (set_BytesSent (add64 (BytesSent d) n) d)))) as (-> & -> & -> & -> & _).
  done.
Qed.

Lemma destination_effect_counters m ip n now d :
  let d' := destination_effect m ip n now (Some d) in
  BytesRecv d' = add64 (BytesRecv d) n ∧
  PacketsRecv d' = add64 (PacketsRecv d) 1 ∧
  BytesSent d' = BytesSent d ∧ PacketsSent d' = PacketsSent d.
Proof.
  unfold destination_effect. simpl.
  destruct (set_IP_if_empty_counters ip
    (set_LastSeen now (set_PacketsRecv (add64 (PacketsRecv d) 1)
       (set_BytesRecv (add64 (BytesRecv d) n) d)))) as (-> & -> & -> & -> & _).
  done.
Qed.

Lemma effect_None_source m ip n now :
  source_effect m ip n now None = source_effect m ip n now (Some (new_DeviceStats m ip)).
Proof. reflexivity. Qed.

Lemma effect_None_destination m ip n now :
  destination_effect m ip n now None =
    destination_effect m ip n now (Some (new_DeviceStats m ip)).
Proof. reflexivity. Qed.

(** The four cases of a call for the identity [m]: it is the source, the
    destination, both or neither; the guards of the two halves are
    rewritten accordingly. *)
Ltac split_on_identity c m :=
  let Hs := fresh "Hs" in
  let Hd := fresh "Hd" in
  destruct (decide (srcMAC c = m)) as [Hs|Hs],
           (decide (dstMAC c = m)) as [Hd|Hd];
  rewrite ?(bool_decide_eq_true_2 _ Hs), ?(bool_decide_eq_true_2 _ Hd),
    ?(bool_decide_eq_false_2 _ Hs), ?(bool_decide_eq_false_2 _ Hd).

Lemma length_snoc_mod (l : list Z) x :
  add64 (Z.of_nat (length l) mod u64_modulus) 1 =
  Z.of_nat (length (l ++ [x])) mod u64_modulus.
Proof.
  rewrite add64_mod, length_app. simpl. f_equal. lia.
Qed.

Lemma sum_snoc_mod (l : list Z) x :
  add64 (sum_Z l mod u64_modulus) x = sum_Z (l ++ [x]) mod u64_modulus.
Proof. by rewrite add64_mod, sum_Z_snoc. Qed.

Lemma counted_source m c calls ip now d :
  counted m calls d → srcMAC c = m → dstMAC c ≠ m →
  counted m (calls ++ [c]) (source_effect m ip (packetSize c) now (Some d)).
Proof.
  intros [Hbs Hps Hbr Hpr] Hs Hd.
  destruct (source_effect_counters m ip (packetSize c) now d)
    as (Ebs & Eps & Ebr & Epr).
  split; rewrite ?sent_sizes_snoc, ?recv_sizes_snoc;
    rewrite ?decide_True, ?decide_False, ?app_nil_r by done.
  - by rewrite Ebs, Hbs, sum_snoc_mod.
  - by rewrite Eps, Hps, (length_snoc_mod _ (packetSize c)).
  - by rewrite Ebr.
  - by rewrite Epr.
Qed.

Lemma counted_destination m c calls ip now d :
  counted m calls d → srcMAC c ≠ m → dstMAC c = m →
  counted m (calls ++ [c]) (destination_effect m ip (packetSize c) now (Some d)).
Proof.
  intros [Hbs Hps Hbr Hpr] Hs Hd.
  destruct (destination_effect_counters m ip (packetSize c) now d)
    as (Ebr & Epr & Ebs & Eps).
  split; rewrite ?sent_sizes_snoc, ?recv_sizes_snoc;
    rewrite ?decide_True, ?decide_False, ?app_nil_r by done.
  - by rewrite Ebs.
  - by rewrite Eps.
  - by rewrite Ebr, Hbr, sum_snoc_mod.
  - by rewrite Epr, Hpr, (length_snoc_mod _ (packetSize c)).
Qed.

Lemma counted_both m c calls ip ip' now d :
  counted m calls d → srcMAC c = m → dstMAC c = m →
  counted m (calls ++ [c])
    (destination_effect m ip' (packetSize c) now
       (Some (source_effect m ip (packetSize c) now (Some d)))).
Proof.
  intros [Hbs Hps Hbr Hpr] Hs Hd.
  destruct (source_effect_counters m ip (packetSize c) now d)
    as (Ebs & Eps & Ebr & Epr).
  destruct (destination_effect_counters m ip' (packetSize c) now
              (source_effect m ip (packetSize c) now (Some d)))
    as (Ebr' & Epr' & Ebs' & Eps').
  split; rewrite ?sent_sizes_snoc, ?recv_sizes_snoc;
    rewrite ?decide_True, ?decide_False, ?app_nil_r by done.
  - by rewrite Ebs', Ebs, Hbs, sum_snoc_mod.
  - by rewrite Eps', Eps, Hps, (length_snoc_mod _ (packetSize c)).
  - by rewrite Ebr', Ebr, Hbr, sum_snoc_mod.
  - by rewrite Epr', Epr, Hpr, (length_snoc_mod _ (packetSize c)).
Qed.

Lemma counted_neither m c calls d :
  counted m calls d → srcMAC c ≠ m → dstMAC c ≠ m → counted m (calls ++ [c]) d.
Proof.
  intros [Hbs Hps Hbr Hpr] Hs Hd.
  split; rewrite ?sent_sizes_snoc, ?recv_sizes_snoc;
    rewrite ?decide_False, ?app_nil_r by done; done.
Qed.

Lemma involved_snoc m calls c :
  involved m (calls ++ [c]) ↔ involved m calls ∨ srcMAC c = m ∨ dstMAC c = m.
Proof.
  unfold involved. rewrite Exists_app, Exists_cons, Exists_nil. tauto.
Qed.

Lemma source_effect_MAC mac ip n now o :
  MAC (source_effect mac ip n now o) = MAC (default (new_DeviceStats mac ip) o) ∧
  Hostname (source_effect mac ip n now o) =
    Hostname (default (new_DeviceStats mac ip) o).
Proof.
  unfold source_effect.
  match goal with |- context [set_IP_if_empty ?i ?d] =>
    destruct (set_IP_if_empty_counters i d) as (_ & _ & _ & _ & -> & -> & _) end.
  done.
Qed.

Lemma destination_effect_MAC mac ip n now o :
  MAC (destination_effect mac ip n now o) =
    MAC (default (new_DeviceStats mac ip) o) ∧
  Hostname (destination_effect mac ip n now o) =
    Hostname (default (new_DeviceStats mac ip) o).
Proof.
  unfold destination_effect.
  match goal with |- context [set_IP_if_empty ?i ?d] =>
    destruct (set_IP_if_empty_counters i d) as (_ & _ & _ & _ & -> & -> & _) end.
  done.
Qed.

Lemma registry_entry_step m calls c o :
  registry_entry m calls o →
  registry_entry m (calls ++ [c]) (device_step c m o).
Proof.
  unfold registry_entry, device_step. intros Ho.
  destruct (attributable m) eqn:Hm.
  - (* the guards of the two halves decide on the identity alone *)
    assert (∀ x, attributable x && bool_decide (m = x) = bool_decide (x = m)) as Hg.
    { intros x. case_bool_decide as Hx.
      - subst x. by rewrite Hm, bool_decide_eq_true_2.
      - rewrite bool_decide_eq_false_2 by congruence. apply andb_false_r. }
    rewrite !Hg.
    split_on_identity c m.
    + rewrite Hs, Hd.
      destruct (destination_effect_MAC m (dstIP c) (packetSize c) (call_time c)
                  (Some (source_effect m (srcIP c) (packetSize c) (call_time c) o)))
        as [-> ->]. simpl.
      destruct (source_effect_MAC m (srcIP c) (packetSize c) (call_time c) o)
        as [-> ->].
      split; [done|]. split; [apply involved_snoc; tauto|].
      destruct o as [d|].
      * destruct Ho as (_ & _ & Hc & HM & HH). simpl.
        split; [|done]. by apply counted_both.
      * rewrite effect_None_source. simpl. split; [|done].
        apply counted_both; [|done..]. apply counted_new. tauto.
    + rewrite Hs.
      destruct (source_effect_MAC m (srcIP c) (packetSize c) (call_time c) o)
        as [-> ->].
      split; [done|]. split; [apply involved_snoc; tauto|].
      destruct o as [d|].
      * destruct Ho as (_ & _ & Hc & HM & HH). simpl.
        split; [|done]. by apply counted_source.
      * rewrite effect_None_source. simpl. split; [|done].
        apply counted_source; [|done..]. apply counted_new. tauto.
    + rewrite Hd.
      destruct (destination_effect_MAC m (dstIP c) (packetSize c) (call_time c) o)
        as [-> ->].
      split; [done|]. split; [apply involved_snoc; tauto|].
      destruct o as [d|].
      * destruct Ho as (_ & _ & Hc & HM & HH). simpl.
        split; [|done]. by apply counted_destination.
      * rewrite effect_None_destination. simpl. split; [|done].
        apply counted_destination; [|done..]. apply counted_new. tauto.
    + destruct o as [d|].
      * destruct Ho as (_ & Hi & Hc & HM & HH).
        split; [done|]. split; [apply involved_snoc; tauto|].
        split; [|done]. by apply counted_neither.
      * rewrite involved_snoc. tauto.
  - (* an identity that is not attributable never gets a record *)
    destruct o as [d|]; [by destruct Ho|].
    assert (∀ x, attributable x && bool_decide (m = x) = false) as Hg.
    { intros x. case_bool_decide as Hx; [|apply andb_false_r].
      subst x. by rewrite Hm. }
    rewrite !Hg. by intros [? _].
Qed.

Lemma registry_entry_run ip t0 calls m :
  registry_entry m calls (device (run calls (NewBandwidthMonitor ip t0)) m).
Proof.
  induction calls as [|c calls IH] using rev_ind.
  - simpl. rewrite device_new. simpl. intros [_ H]. by apply Exists_nil in H.
  - rewrite device_run_snoc by auto with monitor. by apply registry_entry_step.
Qed.

(** ** The counters after a sequence of calls *)

(** The end-to-end scenario A of the specification. *)
Example scenario_A_devices :
  let bm := run scenario_A empty_monitor in
  device bm mac_A = Some (mkDeviceStats mac_A "10.0.0.1" 192 1500 2 1 3 "") ∧
  device bm mac_B = Some (mkDeviceStats mac_B "10.0.0.2" 1500 64 1 1 2 "") ∧
  devices bm !! broadcast_MAC = None ∧
  (map_to_list (devices bm)).*1 = [mac_A; mac_B].
Proof. split; [|split; [|split]]; vm_compute; reflexivity. Qed.

(** C1, as amended: after any sequence of [UpdateStats] calls on a new
    monitor, the record of a device is there only for a non-empty,
    non-broadcast identity that some call named, and its [BytesSent] is the
    sum, modulo [2 ^ 64], of the frame sizes of exactly the calls whose
    source identity it was, its [PacketsSent] the number of those calls
    modulo [2 ^ 64]; [BytesRecv] and [PacketsRecv] likewise for the calls
    whose destination identity it was. *)
Theorem UpdateStats_counters ip t0 calls m d :
  device (run calls (NewBandwidthMonitor ip t0)) m = Some d →
  (m ≠ "" ∧ m ≠ broadcast_MAC ∧ involved m calls) ∧
  BytesSent d = sum_Z (sent_sizes m calls) mod 2 ^ 64 ∧
  PacketsSent d = Z.of_nat (length (sent_sizes m calls)) mod 2 ^ 64 ∧
  BytesRecv d = sum_Z (recv_sizes m calls) mod 2 ^ 64 ∧
  PacketsRecv d = Z.of_nat (length (recv_sizes m calls)) mod 2 ^ 64.
Proof.
  intros Hd. pose proof (registry_entry_run ip t0 calls m) as He.
  rewrite Hd in He. destruct He as (Ha & Hi & [Hbs Hps Hbr Hpr] & _).
  unfold attributable in Ha. apply andb_prop in Ha as [H1 H2].
  apply bool_decide_eq_true in H1, H2. done.
Qed.

Lemma UpdateStats_counters_witness :
  device (run scenario_A (NewBandwidthMonitor "" 0)) mac_A =
    Some (mkDeviceStats mac_A "10.0.0.1" 192 1500 2 1 3 "") ∧
  192 = sum_Z (sent_sizes mac_A scenario_A) mod 2 ^ 64 ∧
  1500 = sum_Z (recv_sizes mac_A scenario_A) mod 2 ^ 64.
Proof.
  assert (device (run scenario_A (NewBandwidthMonitor "" 0)) mac_A =
          Some (mkDeviceStats mac_A "10.0.0.1" 192 1500 2 1 3 "")) as H
    by (vm_compute; reflexivity).
  split; [exact H|].
  destruct (UpdateStats_counters "" 0 scenario_A mac_A _ H)
    as (_ & Hbs & _ & Hbr & _).
  split; [exact Hbs|exact Hbr].
Defined.

(** The counters are exact as long as the sums stay below [2 ^ 64]. *)
Corollary counters_exact_below_wrap ip t0 calls m d :
  device (run calls (NewBandwidthMonitor ip t0)) m = Some d →
  0 <= sum_Z (sent_sizes m calls) < 2 ^ 64 →
  0 <= sum_Z (recv_sizes m calls) < 2 ^ 64 →
  BytesSent d = sum_Z (sent_sizes m calls) ∧
  BytesRecv d = sum_Z (recv_sizes m calls).
Proof.
  intros Hd Hs Hr.
  pose proof (registry_entry_run ip t0 calls m) as He.
  rewrite Hd in He. destruct He as (_ & _ & [Hbs _ Hbr _] & _).
  unfold u64_modulus in *. by rewrite Hbs, Hbr, !Z.mod_small.
Qed.

(** C1 as stated fails: two frames of [2 ^ 63] bytes from the same source
    leave [BytesSent = 0], not the sum [2 ^ 64]. *)
Lemma counters_wrap_counterexample :
  Forall (λ c, is_u64 (packetSize c)) overflow_calls ∧
  device (run overflow_calls empty_monitor) mac_A =
    Some (mkDeviceStats mac_A "" 0 0 2 0 2 "") ∧
  sum_Z (sent_sizes mac_A overflow_calls) = 18446744073709551616 ∧
  ¬ (∀ d, device (run overflow_calls empty_monitor) mac_A = Some d →
          BytesSent d = sum_Z (sent_sizes mac_A overflow_calls)).
Proof.
  split; [|split; [|split]].
  - repeat constructor; vm_compute; done.
  - vm_compute. reflexivity.
  - vm_compute. reflexivity.
  - intros H. specialize (H _ eq_refl). vm_compute in H. discriminate H.
Qed.

(** ** The broadcast address *)

Lemma devices_None_of_device bm m :
  wf bm → device bm m = None → devices bm !! m = None.
Proof.
  intros [Hobj _]. unfold device.
  destruct (devices bm !! m) as [l|] eqn:Hl; [|done]. simpl.
  destruct (Hobj _ _ Hl) as [d ->]. done.
Qed.

Lemma update_source_broadcast ip n now bm :
  update_source broadcast_MAC ip n now bm = bm.
Proof. reflexivity. Qed.

Lemma update_destination_broadcast ip n now bm :
  update_destination broadcast_MAC ip n now bm = bm.
Proof. reflexivity. Qed.

(** C3: after any sequence of [UpdateStats] calls on a new monitor the
    broadcast address is not a key of the device map; and in any state a
    call whose source is the broadcast address does what its destination
    half alone does, a call whose destination is the broadcast address what
    its source half alone does, and a call with both changes nothing. *)
Theorem broadcast_never_registered ip t0 calls :
  devices (run calls (NewBandwidthMonitor ip t0)) !! broadcast_MAC = None ∧
  (∀ bm dst sip dip n now,
     UpdateStats broadcast_MAC dst sip dip n now bm =
       update_destination dst dip n now bm) ∧
  (∀ bm src sip dip n now,
     UpdateStats src broadcast_MAC sip dip n now bm =
       update_source src sip n now bm) ∧
  (∀ bm sip dip n now,
     UpdateStats broadcast_MAC broadcast_MAC sip dip n now bm = bm).
Proof.
  split; [|by repeat split].
  apply devices_None_of_device; [auto with monitor|].
  pose proof (registry_entry_run ip t0 calls broadcast_MAC) as He.
  destruct (device _ broadcast_MAC); [|done].
  by destruct He as [Ha _].
Qed.

(** ** The address of a record *)

Lemma first_nonempty_app l l' :
  first_nonempty (l ++ l') =
    if decide (first_nonempty l = "") then first_nonempty l' else first_nonempty l.
Proof.
  induction l as [|x l IH]; simpl; [done|].
  destruct (decide (x = "")) as [->|Hx]; [done|]. by rewrite decide_False.
Qed.

Lemma supplied_addresses_app m calls calls' :
  supplied_addresses m (calls ++ calls') =
    supplied_addresses m calls ++ supplied_addresses m calls'.
Proof. unfold supplied_addresses. by rewrite bind_app. Qed.

Lemma supplied_addresses_snoc m calls c :
  supplied_addresses m (calls ++ [c]) =
    supplied_addresses m calls ++
    (if decide (srcMAC c = m) then [srcIP c] else []) ++
    (if decide (dstMAC c = m) then [dstIP c] else []).
Proof.
  rewrite supplied_addresses_app. f_equal.
  unfold supplied_addresses. simpl. by rewrite app_nil_r.
Qed.

Lemma supplied_addresses_cons m c calls :
  supplied_addresses m (c :: calls) =
    ((if decide (srcMAC c = m) then [srcIP c] else []) ++
     (if decide (dstMAC c = m) then [dstIP c] else [])) ++
    supplied_addresses m calls.
Proof. reflexivity. Qed.

Lemma supplied_addresses_not_involved m calls :
  ¬ involved m calls → supplied_addresses m calls = [].
Proof.
  unfold involved. rewrite <-Forall_Exists_neg.
  induction 1 as [|c calls Hc _ IH]; [done|].
  rewrite supplied_addresses_cons, IH.
  rewrite !decide_False by tauto. done.
Qed.

Lemma set_IP_if_empty_IP ip d :
  IP (set_IP_if_empty ip d) = if decide (IP d = "") then ip else IP d.
Proof.
  unfold set_IP_if_empty.
  destruct (decide (ip = "")) as [->|Hip], (decide (IP d = "")) as [Hd|Hd];
    rewrite ?(bool_decide_eq_true_2 _ Hip), ?(bool_decide_eq_true_2 _ Hd),
      ?(bool_decide_eq_false_2 _ Hd); simpl; try done.
Qed.

Lemma source_effect_IP m ip n now o :
  IP (source_effect m ip n now o) =
    first_nonempty (default ip (IP <$> o) :: [ip]).
Proof.
  unfold source_effect. rewrite set_IP_if_empty_IP. simpl.
  destruct o as [d|]; simpl; repeat case_decide; congruence.
Qed.

Lemma destination_effect_IP m ip n now o :
  IP (destination_effect m ip n now o) =
    first_nonempty (default ip (IP <$> o) :: [ip]).
Proof.
  unfold destination_effect. rewrite set_IP_if_empty_IP. simpl.
  destruct o as [d|]; simpl; repeat case_decide; congruence.
Qed.

Lemma guard_attributable m x :
  attributable m = true →
  attributable x && bool_decide (m = x) = bool_decide (x = m).
Proof.
  intros Hm. case_bool_decide as Hx.
  - subst x. by rewrite Hm, bool_decide_eq_true_2.
  - rewrite bool_decide_eq_false_2 by congruence. apply andb_false_r.
Qed.

Lemma guard_not_attributable m x :
  attributable m = false → attributable x && bool_decide (m = x) = false.
Proof.
  intros Hm. case_bool_decide as Hx; [|apply andb_false_r].
  subst x. by rewrite Hm.
Qed.

Lemma first_nonempty_all_empty l :
  Forall (λ a, a = "") l → first_nonempty l = "".
Proof. induction 1 as [|x l -> _ IH]; simpl; done. Qed.

Lemma address_run ip t0 calls m d :
  device (run calls (NewBandwidthMonitor ip t0)) m = Some d →
  IP d = first_nonempty (supplied_addresses m calls).
Proof.
  revert d. induction calls as [|c calls IH] using rev_ind; intros d.
  { simpl. by rewrite device_new. }
  rewrite device_run_snoc by auto with monitor.
  pose proof (registry_entry_run ip t0 calls m) as He.
  destruct (device (run calls (NewBandwidthMonitor ip t0)) m) as [d0|] eqn:Ho;
    unfold device_step.
  - destruct He as (Hm & _). specialize (IH _ eq_refl).
    rewrite !(guard_attributable m) by done.
    rewrite supplied_addresses_snoc, first_nonempty_app, <-IH.
    split_on_identity c m;
      intros [= <-];
      rewrite ?destination_effect_IP, ?source_effect_IP; simpl;
      rewrite ?source_effect_IP; simpl;
      repeat case_decide; congruence.
  - destruct (attributable m) eqn:Hm.
    + rewrite !(guard_attributable m) by done.
      rewrite supplied_addresses_snoc.
      rewrite (supplied_addresses_not_involved m calls) by (simpl in He; tauto).
      split_on_identity c m;
        intros [= <-];
        rewrite ?destination_effect_IP, ?source_effect_IP; simpl;
        rewrite ?source_effect_IP; simpl;
        repeat case_decide; congruence.
    + by rewrite !(guard_not_attributable m) by done.
Qed.

(** C6: the address of a record is the first non-empty address supplied
    for its identity; once it is non-empty no later call changes it; and
    calls that supply only empty addresses for the identity leave it as it
    is. *)
Theorem address_first_write_wins ip t0 calls m d :
  device (run calls (NewBandwidthMonitor ip t0)) m = Some d →
  IP d = first_nonempty (supplied_addresses m calls) ∧
  (∀ more d',
     device (run (calls ++ more) (NewBandwidthMonitor ip t0)) m = Some d' →
     IP d ≠ "" → IP d' = IP d) ∧
  (∀ more d',
     device (run (calls ++ more) (NewBandwidthMonitor ip t0)) m = Some d' →
     Forall (λ a, a = "") (supplied_addresses m more) → IP d' = IP d).
Proof.
  intros Hd. pose proof (address_run _ _ _ _ _ Hd) as HIP.
  split; [done|]. split; intros more d' Hd' Hmore;
    apply address_run in Hd';
    rewrite Hd', supplied_addresses_app, first_nonempty_app, <-HIP.
  - by rewrite decide_False.
  - rewrite first_nonempty_all_empty by done. by case_decide.
Qed.

Lemma address_first_write_wins_witness :
  device (run (take 2 address_calls) (NewBandwidthMonitor "" 0)) mac_A =
    Some (mkDeviceStats mac_A "10.0.0.1" 60 70 1 1 2 "") ∧
  device (run address_calls (NewBandwidthMonitor "" 0)) mac_A =
    Some (mkDeviceStats mac_A "10.0.0.1" 140 70 2 1 3 "") ∧
  "10.0.0.1" = first_nonempty (supplied_addresses mac_A (take 2 address_calls)).
Proof.
  assert (device (run (take 2 address_calls) (NewBandwidthMonitor "" 0)) mac_A =
          Some (mkDeviceStats mac_A "10.0.0.1" 60 70 1 1 2 "")) as H
    by (vm_compute; reflexivity).
  split; [exact H|]. split; [vm_compute; reflexivity|].
  exact (proj1 (address_first_write_wins "" 0 _ mac_A _ H)).
Defined.

(** ** The loop of [GetNetworkStats] *)

Lemma sum_Z_app l l' : sum_Z (l ++ l') = sum_Z l + sum_Z l'.
Proof. unfold sum_Z. induction l as [|y l IH]; simpl; lia. Qed.

Lemma sum_Z_Permutation l l' : l ≡ₚ l' → sum_Z l = sum_Z l'.
Proof. unfold sum_Z. induction 1; simpl; lia. Qed.

Lemma sum_field_Permutation f o ls ls' :
  ls ≡ₚ ls' → sum_field f o ls = sum_field f o ls'.
Proof. intros H. unfold sum_field. apply sum_Z_Permutation. by rewrite H. Qed.

Lemma sum_field_snoc f o ls l :
  sum_field f o (ls ++ [l]) = sum_field f o ls + entry_field f o l.
Proof.
  unfold sum_field. rewrite fmap_app.
  change (entry_field f o <$> [l]) with [entry_field f o l].
  by rewrite sum_Z_snoc.
Qed.

Lemma sum_field_insert_fresh f o ls l d :
  l ∉ ls → sum_field f (<[l := d]> o) ls = sum_field f o ls.
Proof.
  intros Hl. unfold sum_field. f_equal. apply list_fmap_ext.
  intros i x Hx. unfold entry_field. rewrite lookup_insert_ne; [done|].
  intros ->. apply Hl. by eapply list_elem_of_lookup_2.
Qed.

Lemma GetNetworkStats_eq sort_Slice order since now bm :
  GetNetworkStats sort_Slice order since now bm =
    let st := snapshot_loop order (objs bm) in
    let devs := sort_Slice (less_bandwidth (loop_objs st)) (loop_devices st) in
    (set_snaps
       (<[fresh (dom (snaps bm)) :=
            mkNetworkStats devs (totalSent st) (totalRecv st) (totalPackets st)
                           (length devs) (since - startTime bm) now]> (snaps bm))
       (set_objs (loop_objs st) bm),
     fresh (dom (snaps bm))).
Proof. reflexivity. Qed.

Lemma loop_inv_start o : loop_inv o (mkTotals o [] 0 0 0).
Proof.
  split; simpl; try done.
  - constructor.
  - intros l Hl. by apply elem_of_nil in Hl.
  - auto.
  - eauto.
Qed.

Lemma loop_inv_body o0 st dev : loop_inv o0 st → loop_inv o0 (range_body st dev).
Proof.
  intros [Hold Hnd Hnew Hdom Hcp HS HR HP]. unfold range_body.
  destruct (loop_objs st !! dev) as [d|] eqn:Hdev; [|by split].
  set (l := fresh (dom (loop_objs st))).
  assert (loop_objs st !! l = None) as Hl by apply not_elem_of_dom, is_fresh.
  assert (l ∉ loop_devices st) as Hnotin.
  { intros Hin. destruct (Hnew _ Hin) as [_ [x Hx]]. congruence. }
  assert (∀ f, sum_field f (<[l:=d]> (loop_objs st)) (loop_devices st ++ [l]) =
               sum_field f (loop_objs st) (loop_devices st) + f d) as Hsum.
  { intros f. rewrite sum_field_snoc, sum_field_insert_fresh by done.
    unfold entry_field. by rewrite lookup_insert_eq. }
  split; simpl.
  - apply insert_subseteq_r; [|done]. by eapply lookup_weaken_None.
  - apply NoDup_app. split; [done|]. split; [|apply NoDup_singleton].
    intros x Hx ->%list_elem_of_singleton. done.
  - intros x [Hx| ->%list_elem_of_singleton]%elem_of_app.
    + destruct (Hnew _ Hx) as [H0 [y Hy]]. split; [done|].
      rewrite lookup_insert_ne by congruence. eauto.
    + split; [by eapply lookup_weaken_None|]. rewrite lookup_insert_eq. eauto.
  - intros x. rewrite lookup_insert_is_Some, elem_of_app, list_elem_of_singleton.
    intros [->|[_ Hx]]; [tauto|]. destruct (Hdom _ Hx); tauto.
  - intros x y. rewrite lookup_insert. case_decide; [|by apply Hcp].
    intros [= <-]. by eapply Hcp.
  - by rewrite Hsum, HS, add64_mod.
  - by rewrite Hsum, HR, add64_mod.
  - rewrite Hsum, HP, add64_mod. unfold add64.
    by rewrite Zplus_mod_idemp_r, Z.add_assoc.
Qed.

Lemma loop_inv_fold o0 (order : list (string * loc)) st :
  loop_inv o0 st →
  loop_inv o0 (fold_left (λ st kv, range_body st kv.2) order st).
Proof.
  revert st. induction order as [|kv order IH]; intros st Hst; [done|].
  simpl. apply IH. by apply loop_inv_body.
Qed.

Lemma snapshot_loop_inv order o : loop_inv o (snapshot_loop order o).
Proof. apply loop_inv_fold, loop_inv_start. Qed.

(** ** Sorting *)

Lemma StronglySorted_lookup {A} (R : relation A) (l : list A) i j a b :
  StronglySorted R l → (i < j)%nat → l !! i = Some a → l !! j = Some b → R a b.
Proof.
  intros Hl. revert i j. induction Hl as [|x l Hl IH Hx]; intros i j Hij Ha Hb.
  { by rewrite lookup_nil in Ha. }
  destruct j as [|j]; [lia|]. simpl in Hb. destruct i as [|i]; simpl in Ha.
  - simplify_eq. rewrite Forall_forall in Hx. apply Hx.
    by eapply list_elem_of_lookup_2.
  - apply (IH i j); [lia|done..].
Qed.

Lemma merge_sort_Slice_spec : sort_Slice_spec merge_sort_Slice.
Proof.
  intros less l. unfold merge_sort_Slice. split.
  { apply merge_sort_Permutation. }
  intros (Hirr & Htr & Hntr) i j a b Hij Ha Hb.
  set (R := λ a b : loc, less b a = false).
  assert (Transitive R) as HT.
  { intros x y z Hxy Hyz. unfold R in *. by apply (Hntr z y x). }
  assert (Total R) as HTot.
  { intros x y. unfold R.
    destruct (less y x) eqn:Hyx; [|by left]. right.
    destruct (less x y) eqn:Hxy; [|done].
    by rewrite <-(Hirr x), (Htr x y x). }
  pose proof (@StronglySorted_merge_sort loc R
                (λ a b, decide (less b a = false)) HT HTot l) as HS.
  by apply (StronglySorted_lookup R _ i j a b HS).
Qed.

Lemma less_bandwidth_swo o : strict_weak_order (less_bandwidth o).
Proof.
  unfold less_bandwidth. split; [|split].
  - intros a. apply Z.ltb_irrefl.
  - intros a b c. rewrite !Z.ltb_lt. lia.
  - intros a b c. rewrite !Z.ltb_ge. lia.
Qed.

(** ** The totals of a snapshot *)

(** C2, as amended: in the snapshot [GetNetworkStats] returns, [TotalSent]
    is the sum, modulo [2 ^ 64], of [BytesSent] over the devices the
    snapshot lists, [TotalRecv] the same for [BytesRecv], and
    [TotalPackets] the sum, modulo [2 ^ 64], of
    [PacketsSent + PacketsRecv]. *)
Theorem GetNetworkStats_totals sort_Slice order since now bm :
  sort_Slice_spec sort_Slice →
  let r := GetNetworkStats sort_Slice order since now bm in
  ∃ stats, snaps r.1 !! r.2 = Some stats ∧
    Forall (λ l, is_Some (objs r.1 !! l)) (Devices stats) ∧
    TotalSent stats = sum_field BytesSent (objs r.1) (Devices stats) mod 2 ^ 64 ∧
    TotalRecv stats = sum_field BytesRecv (objs r.1) (Devices stats) mod 2 ^ 64 ∧
    TotalPackets stats =
      sum_field (λ d, PacketsSent d + PacketsRecv d) (objs r.1) (Devices stats)
        mod 2 ^ 64.
Proof.
  intros Hsort r. subst r. rewrite GetNetworkStats_eq. simpl.
  destruct (snapshot_loop_inv order (objs bm)) as [_ _ Hnew _ _ HS HR HP].
  set (st := snapshot_loop order (objs bm)) in *.
  destruct (Hsort (less_bandwidth (loop_objs st)) (loop_devices st)) as [Hperm _].
  eexists. split; [apply lookup_insert_eq|]. simpl.
  rewrite !(sum_field_Permutation _ _ _ _ Hperm). repeat split; try done.
  apply Forall_forall. intros l Hl. rewrite Hperm in Hl. by apply Hnew.
Qed.

Lemma GetNetworkStats_totals_witness :
  let r := snapshot_of merge_sort_Slice (run scenario_A empty_monitor) in
  snapshot_entries r.1 r.2 =
    Some [ Some (mkDeviceStats mac_A "10.0.0.1" 192 1500 2 1 3 "");
           Some (mkDeviceStats mac_B "10.0.0.2" 1500 64 1 1 2 "") ] ∧
  ∃ stats, snaps r.1 !! r.2 = Some stats ∧
    Forall (λ l, is_Some (objs r.1 !! l)) (Devices stats) ∧
    TotalSent stats = sum_field BytesSent (objs r.1) (Devices stats) mod 2 ^ 64 ∧
    TotalRecv stats = sum_field BytesRecv (objs r.1) (Devices stats) mod 2 ^ 64 ∧
    TotalPackets stats =
      sum_field (λ d, PacketsSent d + PacketsRecv d) (objs r.1) (Devices stats)
        mod 2 ^ 64.
Proof.
  split; [vm_compute; reflexivity|].
  exact (GetNetworkStats_totals merge_sort_Slice _ 10 10
           (run scenario_A empty_monitor) merge_sort_Slice_spec).
Defined.

(** C2 as stated fails: with two devices that sent [2 ^ 63] bytes each the
    snapshot has [TotalSent = 0], while the [BytesSent] of its devices add
    up to [2 ^ 64]. *)
Lemma totals_wrap_counterexample :
  let r := snapshot_of merge_sort_Slice (run overflow_total_calls empty_monitor) in
  snapshot_entries r.1 r.2 =
    Some [ Some (mkDeviceStats mac_A "" (2 ^ 63) 0 1 0 1 "");
           Some (mkDeviceStats mac_B "" (2 ^ 63) 0 1 0 2 "") ] ∧
  ∃ stats, snaps r.1 !! r.2 = Some stats ∧
    TotalSent stats = 0 ∧
    sum_field BytesSent (objs r.1) (Devices stats) = 18446744073709551616 ∧
    TotalSent stats ≠ sum_field BytesSent (objs r.1) (Devices stats).
Proof.
  intros r. split; [vm_compute; reflexivity|].
  eexists. split; [vm_compute; reflexivity|].
  split; [vm_compute; reflexivity|]. split; [vm_compute; reflexivity|].
  vm_compute. discriminate.
Qed.

(** ** The order of a snapshot *)

(** C4, as amended: the devices of a snapshot are in non-increasing order
    of [BytesSent + BytesRecv] computed in [uint64], that is modulo
    [2 ^ 64]; nothing is said about devices with equal sums. *)
Theorem GetNetworkStats_sorted sort_Slice order since now bm :
  sort_Slice_spec sort_Slice →
  let r := GetNetworkStats sort_Slice order since now bm in
  ∃ stats, snaps r.1 !! r.2 = Some stats ∧
    ∀ i j a b, (i < j)%nat →
      Devices stats !! i = Some a → Devices stats !! j = Some b →
      ∃ da db, objs r.1 !! a = Some da ∧ objs r.1 !! b = Some db ∧
        (BytesSent db + BytesRecv db) mod 2 ^ 64 <=
        (BytesSent da + BytesRecv da) mod 2 ^ 64.
Proof.
  intros Hsort r. subst r. rewrite GetNetworkStats_eq. simpl.
  destruct (snapshot_loop_inv order (objs bm)) as [_ _ Hnew _ _ _ _ _].
  set (st := snapshot_loop order (objs bm)) in *.
  destruct (Hsort (less_bandwidth (loop_objs st)) (loop_devices st))
    as [Hperm Hsorted].
  eexists. split; [apply lookup_insert_eq|]. simpl.
  intros i j a b Hij Ha Hb.
  pose proof (Hsorted (less_bandwidth_swo _) i j a b Hij Ha Hb) as Hle.
  apply list_elem_of_lookup_2 in Ha, Hb. rewrite Hperm in Ha, Hb.
  destruct (Hnew _ Ha) as [_ [da Hda]], (Hnew _ Hb) as [_ [db Hdb]].
  exists da, db. split; [done|]. split; [done|].
  unfold less_bandwidth, bandwidth in Hle. rewrite Hda, Hdb in Hle.
  apply Z.ltb_ge in Hle. done.
Qed.

Lemma GetNetworkStats_sorted_witness :
  let r := snapshot_of merge_sort_Slice (run scenario_A empty_monitor) in
  ∃ stats, snaps r.1 !! r.2 = Some stats ∧
    ∀ i j a b, (i < j)%nat →
      Devices stats !! i = Some a → Devices stats !! j = Some b →
      ∃ da db, objs r.1 !! a = Some da ∧ objs r.1 !! b = Some db ∧
        (BytesSent db + BytesRecv db) mod 2 ^ 64 <=
        (BytesSent da + BytesRecv da) mod 2 ^ 64.
Proof.
  exact (GetNetworkStats_sorted merge_sort_Slice _ 10 10
           (run scenario_A empty_monitor) merge_sort_Slice_spec).
Defined.

(** C4 as stated fails: a device that sent and received [2 ^ 63] bytes has
    the sum [2 ^ 64], which is [0] in [uint64], and is placed after a device
    that sent a single byte. *)
Lemma order_wrap_counterexample :
  let r := snapshot_of merge_sort_Slice (run overflow_order_calls empty_monitor) in
  snapshot_entries r.1 r.2 =
    Some [ Some (mkDeviceStats mac_B "" 1 0 1 0 2 "");
           Some (mkDeviceStats mac_A "" (2 ^ 63) (2 ^ 63) 1 1 1 "") ] ∧
  ∃ stats, snaps r.1 !! r.2 = Some stats ∧ ¬ sorted_by_sum r.1 stats.
Proof.
  intros r. split; [vm_compute; reflexivity|].
  eexists. split; [vm_compute; reflexivity|].
  intros H.
  specialize (H 0%nat 1%nat 4%positive 3%positive
                (mkDeviceStats mac_B "" 1 0 1 0 2 "")
                (mkDeviceStats mac_A "" (2 ^ 63) (2 ^ 63) 1 1 1 "")).
  assert (9223372036854775808 + 9223372036854775808 <= 1 + 0) as Hle.
  { apply H; [lia|vm_compute; reflexivity..]. }
  lia.
Qed.

(** The same placement results from every sorting function that meets the
    contract of [sort.Slice]. *)
Lemma order_wrap_for_every_sort sort_Slice :
  sort_Slice_spec sort_Slice →
  let r := snapshot_of sort_Slice (run overflow_order_calls empty_monitor) in
  snapshot_entries r.1 r.2 =
    Some [ Some (mkDeviceStats mac_B "" 1 0 1 0 2 "");
           Some (mkDeviceStats mac_A "" (2 ^ 63) (2 ^ 63) 1 1 1 "") ].
Proof.
  intros Hsort r. subst r. unfold snapshot_of, snapshot_entries.
  rewrite GetNetworkStats_eq. cbv zeta. unfold set_snaps, set_objs.
  cbn [fst snd snaps objs]. rewrite lookup_insert_eq.
  cbn [fmap option_fmap option_map]. unfold snapshot_devices. cbn [Devices].
  set (st := snapshot_loop _ _).
  assert (loop_devices st = [3; 4]%positive) as Hdevs by (vm_compute; reflexivity).
  assert (less_bandwidth (loop_objs st) 4 3 = true) as Hless
    by (vm_compute; reflexivity).
  assert (loop_objs st !! 3%positive =
          Some (mkDeviceStats mac_A "" (2 ^ 63) (2 ^ 63) 1 1 1 "")) as H3
    by (vm_compute; reflexivity).
  assert (loop_objs st !! 4%positive = Some (mkDeviceStats mac_B "" 1 0 1 0 2 ""))
    as H4 by (vm_compute; reflexivity).
  destruct (Hsort (less_bandwidth (loop_objs st)) (loop_devices st))
    as [Hperm Hsorted].
  specialize (Hsorted (less_bandwidth_swo _) 0%nat 1%nat).
  set (res := sort_Slice (less_bandwidth (loop_objs st)) (loop_devices st)) in *.
  clearbody res. rewrite Hdevs in Hperm. symmetry in Hperm.
  apply Permutation_length_2_inv in Hperm as [->| ->].
  - specialize (Hsorted 3%positive 4%positive ltac:(lia) eq_refl eq_refl).
    congruence.
  - cbn [fmap list_fmap objs]. by rewrite H3, H4.
Qed.

(** ** Which objects an operation writes *)

Lemma writes_only_refl key bm : writes_only key bm bm.
Proof. repeat split; auto. Qed.

Lemma writes_only_trans key bm1 bm2 bm3 :
  writes_only key bm1 bm2 → writes_only key bm2 bm3 → writes_only key bm1 bm3.
Proof.
  intros (Hd1 & Hs1 & Hb1 & Ho1) (Hd2 & Hs2 & Hb2 & Ho2).
  repeat split; try congruence.
  intros l. destruct (Ho2 l) as [->|H2]; [apply Ho1|]. right. by rewrite <-Hd1.
Qed.

Lemma writes_only_with_device key f bm :
  writes_only key bm (with_device key f bm).
Proof.
  unfold with_device. destruct (devices bm !! key) as [l'|] eqn:Hk;
    [|apply writes_only_refl].
  repeat split; simpl. intros l. rewrite lookup_alter.
  case_decide; [subst; by right|by left].
Qed.

Lemma writes_only_block_tail key ip now f g bm1 :
  writes_only key bm1 (block_tail key ip now f g bm1).
Proof.
  unfold block_tail.
  assert (writes_only key bm1
            (with_device key (set_LastSeen now)
               (with_device key g (with_device key f bm1)))) as H4.
  { eapply writes_only_trans; [|apply writes_only_with_device].
    eapply writes_only_trans; [|apply writes_only_with_device].
    apply writes_only_with_device. }
  destruct (_ && _); [|done].
  eapply writes_only_trans; [exact H4|apply writes_only_with_device].
Qed.

Lemma ensure_device_frame key ip bm :
  snaps (ensure_device key ip bm) = snaps bm ∧
  broadcast (ensure_device key ip bm) = broadcast bm ∧
  ∀ l, unshared bm l →
       objs (ensure_device key ip bm) !! l = objs bm !! l ∧
       unshared (ensure_device key ip bm) l.
Proof.
  unfold ensure_device. destruct (devices bm !! key) as [l'|] eqn:Hk; [done|].
  split; [done|]. split; [done|]. intros l [[x Hx] Hno].
  assert (fresh (dom (objs bm)) ≠ l) as Hne.
  { intros <-. by rewrite fresh_objs_None in Hx. }
  unfold unshared. simpl. rewrite lookup_insert_ne by done.
  split; [done|]. split; [eauto|].
  intros k. rewrite lookup_insert. case_decide; [congruence|apply Hno].
Qed.

(** A block leaves the snapshots and the channel alone, and an object that
    the device map does not point to stays as it is and stays unshared. *)
Lemma block_frame key ip now f g bm :
  snaps (block key ip now f g bm) = snaps bm ∧
  broadcast (block key ip now f g bm) = broadcast bm ∧
  ∀ l, unshared bm l →
       objs (block key ip now f g bm) !! l = objs bm !! l ∧
       unshared (block key ip now f g bm) l.
Proof.
  unfold block.
  destruct (ensure_device_frame key ip bm) as (Hs1 & Hb1 & H1).
  destruct (writes_only_block_tail key ip now f g (ensure_device key ip bm))
    as (Hd & Hs & Hb & Ho).
  split; [congruence|]. split; [congruence|]. intros l Hl.
  destruct (H1 l Hl) as [Ho1 [Hsome Hno1]].
  assert (objs (block_tail key ip now f g (ensure_device key ip bm)) !! l =
          objs bm !! l) as Heq.
  { destruct (Ho l) as [->|Hk]; [done|]. by apply Hno1 in Hk. }
  split; [done|]. split.
  - rewrite Heq. by destruct Hl.
  - intros k. rewrite Hd. apply Hno1.
Qed.

Lemma attribute_frame c bm :
  wf bm →
  snaps (attribute c bm) = snaps bm ∧
  broadcast (attribute c bm) = broadcast bm ∧
  ∀ l, unshared bm l →
       objs (attribute c bm) !! l = objs bm !! l ∧ unshared (attribute c bm) l.
Proof.
  intros Hwf. unfold attribute, UpdateStats.
  assert (∀ m ip n now b, wf b →
            snaps (update_source m ip n now b) = snaps b ∧
            broadcast (update_source m ip n now b) = broadcast b ∧
            ∀ l, unshared b l →
                 objs (update_source m ip n now b) !! l = objs b !! l ∧
                 unshared (update_source m ip n now b) l) as Hsrc.
  { intros m ip n now b Hb. rewrite update_source_block.
    destruct (attributable m); [apply block_frame|done]. }
  assert (∀ m ip n now b, wf b →
            snaps (update_destination m ip n now b) = snaps b ∧
            broadcast (update_destination m ip n now b) = broadcast b ∧
            ∀ l, unshared b l →
                 objs (update_destination m ip n now b) !! l = objs b !! l ∧
                 unshared (update_destination m ip n now b) l) as Hdst.
  { intros m ip n now b Hb. rewrite update_destination_block.
    destruct (attributable m); [apply block_frame|done]. }
  destruct (Hsrc (srcMAC c) (srcIP c) (packetSize c) (call_time c) bm Hwf)
    as (Hs1 & Hb1 & H1).
  destruct (Hdst (dstMAC c) (dstIP c) (packetSize c) (call_time c)
              (update_source (srcMAC c) (srcIP c) (packetSize c) (call_time c) bm)
              (wf_update_source _ _ _ _ _ Hwf)) as (Hs2 & Hb2 & H2).
  split; [congruence|]. split; [congruence|].
  intros l Hl. destruct (H1 l Hl) as [E1 U1]. destruct (H2 l U1) as [E2 U2].
  split; [congruence|done].
Qed.

Lemma GetNetworkStats_frame sort_Slice order since now bm :
  let r := GetNetworkStats sort_Slice order since now bm in
  devices r.1 = devices bm ∧ broadcast r.1 = broadcast bm ∧
  objs bm ⊆ objs r.1 ∧ snaps bm ⊆ snaps r.1 ∧
  (∀ l x, objs r.1 !! l = Some x → ∃ l0, objs bm !! l0 = Some x).
Proof.
  intros r. subst r. rewrite GetNetworkStats_eq. cbv zeta. simpl.
  destruct (snapshot_loop_inv order (objs bm)) as [Hold _ _ _ Hcp _ _ _].
  repeat split; try done.
  apply insert_subseteq, not_elem_of_dom, is_fresh.
Qed.

Lemma ticker_tick_eq sort_Slice order since now bm :
  (ticker_tick sort_Slice order since now bm).1 =
    set_broadcast
      (try_send (GetNetworkStats sort_Slice order since now bm).2
                (broadcast bm)).1
      (GetNetworkStats sort_Slice order since now bm).1.
Proof.
  unfold ticker_tick. rewrite GetNetworkStats_eq. cbv zeta. simpl.
  by destruct (try_send _ _).
Qed.

Lemma unshared_weaken bm bm' l :
  devices bm' = devices bm → objs bm ⊆ objs bm' → unshared bm l →
  objs bm' !! l = objs bm !! l ∧ unshared bm' l.
Proof.
  intros Hd Ho [[x Hx] Hno].
  assert (objs bm' !! l = Some x) as Hx' by by eapply lookup_weaken.
  split; [congruence|]. split; [eauto|]. by rewrite Hd.
Qed.

Lemma wf_weaken bm bm' :
  devices bm' = devices bm → objs bm ⊆ objs bm' → wf bm → wf bm'.
Proof.
  intros Hd Ho [Hobj Hinj]. split; rewrite Hd; [|done].
  intros k l Hk. destruct (Hobj _ _ Hk) as [x Hx].
  exists x. by eapply lookup_weaken.
Qed.

Lemma block_no_hostname key ip now f g bm :
  (∀ d, Hostname (f d) = Hostname d) → (∀ d, Hostname (g d) = Hostname d) →
  wf bm → no_hostname bm → no_hostname (block key ip now f g bm).
Proof.
  intros Hf Hg Hwf Hno l d' Hl.
  pose proof (device_block key ip now f g bm key Hwf) as Hdev.
  rewrite decide_True in Hdev by done.
  unfold block in *.
  destruct (writes_only_block_tail key ip now f g (ensure_device key ip bm))
    as (Hd & _ & _ & Ho).
  destruct (Ho l) as [Heq|Hk].
  - rewrite Heq in Hl. unfold ensure_device in Hl.
    destruct (devices bm !! key); [by eapply Hno|].
    simpl in Hl. apply lookup_insert_Some in Hl as [[_ <-]|[_ Hl]]; [done|].
    by eapply Hno.
  - assert (Hostname (default (new_DeviceStats key ip) (device bm key)) = "")
      as Hd0.
    { destruct (device bm key) as [d0|] eqn:Hd0; [|done]. simpl.
      unfold device in Hd0. destruct (devices bm !! key); [|done].
      by eapply Hno. }
    set (d0 := default (new_DeviceStats key ip) (device bm key)) in *.
    clearbody d0.
    unfold device in Hdev. rewrite Hd, Hk in Hdev. simpl in Hdev.
    rewrite Hl in Hdev. injection Hdev as ->.
    destruct (set_IP_if_empty_counters ip (set_LastSeen now (g (f d0))))
      as (_ & _ & _ & _ & _ & -> & _).
    simpl. by rewrite Hg, Hf.
Qed.

Lemma attribute_no_hostname c bm :
  wf bm → no_hostname bm → no_hostname (attribute c bm).
Proof.
  intros Hwf Hno. unfold attribute, UpdateStats.
  rewrite update_destination_block, update_source_block.
  assert (no_hostname
            (if attributable (srcMAC c)
             then block (srcMAC c) (srcIP c) (call_time c)
                    (λ d, set_BytesSent (add64 (BytesSent d) (packetSize c)) d)
                    (λ d, set_PacketsSent (add64 (PacketsSent d) 1) d) bm
             else bm)) as Hno1.
  { destruct (attributable (srcMAC c)); [|done]. by apply block_no_hostname. }
  assert (wf (if attributable (srcMAC c)
              then block (srcMAC c) (srcIP c) (call_time c)
                     (λ d, set_BytesSent (add64 (BytesSent d) (packetSize c)) d)
                     (λ d, set_PacketsSent (add64 (PacketsSent d) 1) d) bm
              else bm)) as Hwf1.
  { destruct (attributable (srcMAC c)); [|done]. by apply wf_block. }
  destruct (attributable (dstMAC c)); [|done]. by apply block_no_hostname.
Qed.

(** What every operation preserves. *)
Lemma exec_op_frame sort_Slice op bm :
  wf bm →
  wf (exec_op sort_Slice bm op) ∧
  (no_hostname bm → no_hostname (exec_op sort_Slice bm op)) ∧
  snaps bm ⊆ snaps (exec_op sort_Slice bm op) ∧
  ∀ l, unshared bm l →
       objs (exec_op sort_Slice bm op) !! l = objs bm !! l ∧
       unshared (exec_op sort_Slice bm op) l.
Proof.
  intros Hwf. destruct op as [c|order since now|order since now];
    unfold exec_op.
  - destruct (attribute_frame c bm Hwf) as (Hs & _ & Hfr).
    split; [by apply wf_attribute|]. split; [by apply attribute_no_hostname|].
    split; [by rewrite Hs|done].
  - destruct (GetNetworkStats_frame sort_Slice order since now bm)
      as (Hd & _ & Ho & Hs & Hcp).
    split; [by eapply wf_weaken|]. split; [|split; [done|]].
    + intros Hno l x Hx. destruct (Hcp _ _ Hx) as [l0 Hl0]. by eapply Hno.
    + intros l Hl. by apply unshared_weaken.
  - rewrite ticker_tick_eq.
    destruct (GetNetworkStats_frame sort_Slice order since now bm)
      as (Hd & _ & Ho & Hs & Hcp).
    split; [by eapply wf_weaken|]. split; [|split; [done|]].
    + intros Hno l x Hx. destruct (Hcp _ _ Hx) as [l0 Hl0]. by eapply Hno.
    + intros l Hl. by apply unshared_weaken.
Qed.

Lemma exec_frame sort_Slice ops bm :
  wf bm →
  wf (exec sort_Slice ops bm) ∧
  (no_hostname bm → no_hostname (exec sort_Slice ops bm)) ∧
  snaps bm ⊆ snaps (exec sort_Slice ops bm) ∧
  ∀ l, unshared bm l →
       objs (exec sort_Slice ops bm) !! l = objs bm !! l ∧
       unshared (exec sort_Slice ops bm) l.
Proof.
  revert bm. induction ops as [|op ops IH]; intros bm Hwf; [done|].
  change (exec sort_Slice (op :: ops) bm)
    with (exec sort_Slice ops (exec_op sort_Slice bm op)).
  destruct (exec_op_frame sort_Slice op bm Hwf) as (Hwf1 & Hn1 & Hs1 & H1).
  destruct (IH _ Hwf1) as (Hwf2 & Hn2 & Hs2 & H2).
  split; [done|]. split; [auto|]. split; [by etrans|].
  intros l Hl. destruct (H1 l Hl) as [E1 U1]. destruct (H2 l U1) as [E2 U2].
  split; [congruence|done].
Qed.

Lemma no_hostname_new ip t0 : no_hostname (NewBandwidthMonitor ip t0).
Proof. intros l d. simpl. by rewrite lookup_empty. Qed.

(** ** A snapshot shares nothing with the registry *)

Lemma snapshot_entries_unshared sort_Slice order since now bm :
  sort_Slice_spec sort_Slice → wf bm →
  let r := GetNetworkStats sort_Slice order since now bm in
  ∃ stats, snaps r.1 !! r.2 = Some stats ∧
           Forall (unshared r.1) (Devices stats).
Proof.
  intros Hsort Hwf r. subst r. rewrite GetNetworkStats_eq. cbv zeta.
  unfold set_snaps, set_objs, unshared. cbn [fst snd snaps objs devices].
  destruct (snapshot_loop_inv order (objs bm)) as [_ _ Hnew _ _ _ _ _].
  set (st := snapshot_loop order (objs bm)) in *.
  destruct (Hsort (less_bandwidth (loop_objs st)) (loop_devices st)) as [Hperm _].
  eexists. split; [apply lookup_insert_eq|]. cbn [Devices].
  apply Forall_forall. intros l Hl. rewrite Hperm in Hl.
  destruct (Hnew _ Hl) as [Hnone Hsome]. split; [done|].
  intros k Hk. destruct Hwf as [Hobj _]. destruct (Hobj _ _ Hk) as [x Hx].
  congruence.
Qed.

(** C8: a snapshot taken in any state the monitor can reach is not
    affected by anything done afterwards: the [NetworkStats] object, with
    its totals and its list of devices, and every [DeviceStats] object the
    list points to stay as they were when [GetNetworkStats] returned,
    whatever calls of [UpdateStats] and further snapshots follow. *)
Theorem snapshot_is_owned sort_Slice ops0 ip t0 order since now ops :
  sort_Slice_spec sort_Slice →
  let bm := exec sort_Slice ops0 (NewBandwidthMonitor ip t0) in
  let r := GetNetworkStats sort_Slice order since now bm in
  let bm' := exec sort_Slice ops r.1 in
  ∃ stats, snaps r.1 !! r.2 = Some stats ∧ snaps bm' !! r.2 = Some stats ∧
    Forall (λ l, is_Some (objs r.1 !! l) ∧ objs bm' !! l = objs r.1 !! l)
           (Devices stats).
Proof.
  intros Hsort bm r bm'.
  assert (wf bm) as Hwf by apply exec_frame, wf_new.
  destruct (snapshot_entries_unshared sort_Slice order since now bm Hsort Hwf)
    as (stats & Hstats & Hun).
  fold r in Hstats, Hun.
  assert (wf r.1) as Hwf1.
  { destruct (GetNetworkStats_frame sort_Slice order since now bm)
      as (Hd & _ & Ho & _). by eapply wf_weaken. }
  destruct (exec_frame sort_Slice ops r.1 Hwf1) as (_ & _ & Hs & Hfr).
  exists stats. split; [done|]. split; [by eapply lookup_weaken|].
  eapply Forall_impl; [exact Hun|]. intros l Hl. simpl.
  split; [by destruct Hl|]. by apply Hfr.
Qed.

Lemma snapshot_is_owned_witness :
  let bm := exec merge_sort_Slice before_snapshot (NewBandwidthMonitor "" 0) in
  let r := GetNetworkStats merge_sort_Slice (map_to_list (devices bm)) 10 10 bm in
  let bm' := exec merge_sort_Slice after_snapshot r.1 in
  (snapshot_entries r.1 r.2 =
     Some [ Some (mkDeviceStats mac_A "10.0.0.1" 64 1500 1 1 2 "");
            Some (mkDeviceStats mac_B "10.0.0.2" 1500 64 1 1 2 "") ] ∧
   snapshot_entries bm' r.2 = snapshot_entries r.1 r.2 ∧
   device bm' mac_A = Some (mkDeviceStats mac_A "10.0.0.1" 192 1500 2 1 3 "")) ∧
  ∃ stats, snaps r.1 !! r.2 = Some stats ∧ snaps bm' !! r.2 = Some stats ∧
    Forall (λ l, is_Some (objs r.1 !! l) ∧ objs bm' !! l = objs r.1 !! l)
           (Devices stats).
Proof.
  split; [split; [|split]; vm_compute; reflexivity|].
  exact (snapshot_is_owned merge_sort_Slice before_snapshot "" 0 _ 10 10
           after_snapshot merge_sort_Slice_spec).
Defined.

(** ** The host name *)

(** C10: in every state the monitor can reach, no [DeviceStats] object has
    a host name: not the records of the device map, not the entries of any
    snapshot, and not the body of an answer of [handleGetDevice]. *)
Theorem hostname_always_empty sort_Slice ops ip t0 :
  let bm := exec sort_Slice ops (NewBandwidthMonitor ip t0) in
  (∀ l d, objs bm !! l = Some d → Hostname d = "") ∧
  (∀ mac d, device bm mac = Some d → Hostname d = "") ∧
  (∀ p stats, snaps bm !! p = Some stats →
     Forall (λ o, ∀ d, o = Some d → Hostname d = "") (snapshot_devices bm stats)) ∧
  (∀ mac d, handleGetDevice bm mac = EncodedDevice (Some d) → Hostname d = "").
Proof.
  intros bm.
  assert (no_hostname bm) as Hno.
  { by apply exec_frame; [apply wf_new|apply no_hostname_new]. }
  split; [exact Hno|]. split; [|split].
  - intros mac d. unfold device. destruct (devices bm !! mac); [|done]. apply Hno.
  - intros p stats _. unfold snapshot_devices. apply Forall_fmap, Forall_forall.
    intros l _ d. apply Hno.
  - intros mac d. unfold handleGetDevice, handleGetDevice_respond,
      handleGetDevice_lookup.
    destruct (devices bm !! mac); [|done]. intros [= H]. by eapply Hno.
Qed.

(** ** Looking up one device *)

Lemma handleGetDevice_device bm mac :
  wf bm →
  handleGetDevice bm mac =
    match device bm mac with
    | Some d => EncodedDevice (Some d)
    | None => NotFound
    end.
Proof.
  intros [Hobj _].
  unfold handleGetDevice, handleGetDevice_respond, handleGetDevice_lookup, device.
  destruct (devices bm !! mac) as [l|] eqn:Hl; [|done]. simpl.
  by destruct (Hobj _ _ Hl) as [d ->].
Qed.

(** When no call of [UpdateStats] runs between the lookup and the
    encoding, [handleGetDevice] answers, in every state the monitor can
    reach, with the record the identity has at that moment when the device
    map has the identity, and with "not found" when it has not; it never
    fails. *)
Lemma handleGetDevice_uninterrupted sort_Slice ops ip t0 mac :
  let bm := exec sort_Slice ops (NewBandwidthMonitor ip t0) in
  (devices bm !! mac = None → handleGetDevice bm mac = NotFound) ∧
  (∀ l, devices bm !! mac = Some l →
     ∃ d, device bm mac = Some d ∧
          handleGetDevice bm mac = EncodedDevice (Some d)) ∧
  (∀ calls,
     handleGetDevice (run calls bm) mac =
       match device (run calls bm) mac with
       | Some d' => EncodedDevice (Some d')
       | None => NotFound
       end).
Proof.
  intros bm.
  assert (wf bm) as Hwf by apply exec_frame, wf_new.
  split; [|split].
  - intros Hk. unfold handleGetDevice, handleGetDevice_lookup. by rewrite Hk.
  - intros l Hl. rewrite handleGetDevice_device by done.
    destruct Hwf as [Hobj _]. destruct (Hobj _ _ Hl) as [d Hd].
    exists d. unfold device. rewrite Hl. simpl. by rewrite Hd.
  - intros calls. apply handleGetDevice_device. by apply wf_run.
Qed.

(** An entry of the device map, once made, stays and keeps its object. *)
Lemma devices_block_mono key ip now f g bm k l :
  devices bm !! k = Some l → devices (block key ip now f g bm) !! k = Some l.
Proof.
  intros Hk. unfold block.
  destruct (writes_only_block_tail key ip now f g (ensure_device key ip bm))
    as (-> & _).
  unfold ensure_device. destruct (devices bm !! key) eqn:Hkey; [done|].
  simpl. rewrite lookup_insert_ne; [done|]. congruence.
Qed.

Lemma devices_attribute_mono c bm k l :
  devices bm !! k = Some l → devices (attribute c bm) !! k = Some l.
Proof.
  intros Hk. unfold attribute, UpdateStats.
  rewrite update_destination_block, update_source_block.
  destruct (attributable (srcMAC c)), (attributable (dstMAC c));
    auto using devices_block_mono.
Qed.

(** The handler looks the pointer up while it holds the read lock and
    encodes the record after it has released it. When a call of
    [UpdateStats] runs in between, the answer shows the record as that call
    left it. *)
Remark handleGetDevice_respond_later c bm mac :
  is_Some (devices bm !! mac) →
  handleGetDevice_respond (attribute c bm) (handleGetDevice_lookup bm mac) =
    handleGetDevice (attribute c bm) mac.
Proof.
  intros [l Hl]. unfold handleGetDevice, handleGetDevice_lookup.
  by rewrite Hl, (devices_attribute_mono _ _ _ _ Hl).
Qed.

Example handleGetDevice_scenario_A :
  let bm := run (take 2 scenario_A) empty_monitor in
  let bm' := run (drop 2 scenario_A) bm in
  handleGetDevice bm mac_A =
    EncodedDevice (Some (mkDeviceStats mac_A "10.0.0.1" 64 1500 1 1 2 "")) ∧
  handleGetDevice bm' mac_A =
    EncodedDevice (Some (mkDeviceStats mac_A "10.0.0.1" 192 1500 2 1 3 "")) ∧
  handleGetDevice bm' broadcast_MAC = NotFound ∧
  handleGetDevice_respond bm' (handleGetDevice_lookup bm mac_A) =
    EncodedDevice (Some (mkDeviceStats mac_A "10.0.0.1" 192 1500 2 1 3 "")).
Proof. split; [|split; [|split]]; vm_compute; reflexivity. Qed.

(** The state [source_bytes_added] is one the call passes through: the
    source block of [UpdateStats] goes on from it. *)
Lemma update_source_from_bytes_added c now bm :
  attributable (srcMAC c) = true →
  update_source (srcMAC c) (srcIP c) (packetSize c) now bm =
    let key := srcMAC c in
    let bm3 := with_device key
                 (λ d, set_PacketsSent (add64 (PacketsSent d) 1) d)
                 (source_bytes_added c bm) in
    let bm4 := with_device key (set_LastSeen now) bm3 in
    if bool_decide (srcIP c ≠ "") &&
       bool_decide ((IP <$> device bm4 key) = Some "")
    then with_device key (set_IP (srcIP c)) bm4
    else bm4.
Proof. intros Hsrc. unfold update_source, source_bytes_added. by rewrite Hsrc. Qed.

(** C9: the answer of [handleGetDevice] is not a copy of the record as it
    is at the lookup. The handler reads the pointer under the read lock
    (lines 214-216) and encodes the record it points to after it has
    released the lock (line 224), where [GetNetworkStats] copies each
    record while it holds the lock. With the registry of scenario A after
    two frames and a request for A, the answer is the record at the lookup
    only when nothing runs in between. When the third frame is attributed
    between the lookup and the encoding, the answer shows the counters as
    that call left them; and when the encoding reads the record while the
    call is between its statements, the answer counts the bytes of two
    frames sent and one frame only, a record the registry holds after
    none of the calls. *)
Theorem handleGetDevice_encodes_live_record :
  let bm := run (take 2 scenario_A) empty_monitor in
  let c := mkCall mac_A broadcast_MAC "10.0.0.1" "10.0.0.255" 128 3 in
  let found := handleGetDevice_lookup bm mac_A in
  device bm mac_A = Some (mkDeviceStats mac_A "10.0.0.1" 64 1500 1 1 2 "") ∧
  handleGetDevice_respond bm found =
    EncodedDevice (Some (mkDeviceStats mac_A "10.0.0.1" 64 1500 1 1 2 "")) ∧
  handleGetDevice_respond (attribute c bm) found =
    EncodedDevice (Some (mkDeviceStats mac_A "10.0.0.1" 192 1500 2 1 3 "")) ∧
  handleGetDevice_respond (source_bytes_added c bm) found =
    EncodedDevice (Some (mkDeviceStats mac_A "10.0.0.1" 192 1500 1 1 2 "")) ∧
  (∀ k, device (run (take k scenario_A) empty_monitor) mac_A ≠
          Some (mkDeviceStats mac_A "10.0.0.1" 192 1500 1 1 2 "")).
Proof.
  split; [vm_compute; reflexivity|].
  split; [vm_compute; reflexivity|].
  split; [vm_compute; reflexivity|].
  split; [vm_compute; reflexivity|].
  intros k.
  assert (take k scenario_A = [] ∨ take k scenario_A = take 1 scenario_A ∨
          take k scenario_A = take 2 scenario_A ∨
          take k scenario_A = scenario_A) as Hk.
  { destruct k as [|[|[|k]]]; [by left|by right; left|by right; right; left|].
    right; right; right. apply take_ge. unfold scenario_A. cbn [length]. lia. }
  destruct Hk as [->|[->|[->| ->]]]; vm_compute; discriminate.
Qed.

(** ** The producer and the full channel *)

Lemma try_send_full x ch :
  (chan_cap ch <= length (chan_buf ch))%nat → try_send x ch = (ch, false).
Proof. intros H. unfold try_send. case_decide; [lia|done]. Qed.

Lemma try_send_cap x ch : chan_cap (try_send x ch).1 = chan_cap ch.
Proof. unfold try_send. by case_decide. Qed.

Lemma exec_chan_cap sort_Slice ops bm :
  wf bm →
  chan_cap (broadcast (exec sort_Slice ops bm)) = chan_cap (broadcast bm).
Proof.
  revert bm. induction ops as [|op ops IH]; intros bm Hwf; [done|].
  change (exec sort_Slice (op :: ops) bm)
    with (exec sort_Slice ops (exec_op sort_Slice bm op)).
  rewrite IH by by apply exec_op_frame.
  destruct op as [c|order since now|order since now]; unfold exec_op.
  - by destruct (attribute_frame c bm Hwf) as (_ & -> & _).
  - by destruct (GetNetworkStats_frame sort_Slice order since now bm)
      as (_ & -> & _).
  - rewrite ticker_tick_eq. simpl. apply try_send_cap.
Qed.

(** C5: the channel of a monitor has the capacity 256 in every state the
    monitor can reach, and when it holds 256 snapshots a tick of the
    producer takes the default branch at once: the new snapshot is not
    accepted, and the content of the channel, oldest to newest, is what it
    was, nothing evicted and nothing inserted. The devices are untouched as
    well. *)
Theorem ticker_tick_full_channel sort_Slice ops ip t0 order since now :
  let bm := exec sort_Slice ops (NewBandwidthMonitor ip t0) in
  length (chan_buf (broadcast bm)) = 256%nat →
  let r := ticker_tick sort_Slice order since now bm in
  chan_cap (broadcast bm) = 256%nat ∧
  r.2 = false ∧
  broadcast r.1 = broadcast bm ∧
  devices r.1 = devices bm ∧
  (∀ stats, try_send stats (broadcast bm) = (broadcast bm, false)).
Proof.
  intros bm Hfull r.
  assert (chan_cap (broadcast bm) = 256%nat) as Hcap.
  { subst bm. by rewrite exec_chan_cap by apply wf_new. }
  assert (∀ stats, try_send stats (broadcast bm) = (broadcast bm, false)) as Hdrop.
  { intros stats. apply try_send_full. lia. }
  split; [done|].
  destruct (GetNetworkStats_frame sort_Slice order since now bm)
    as (Hd & Hb & _).
  subst r. unfold ticker_tick.
  destruct (GetNetworkStats sort_Slice order since now bm) as [bm1 stats].
  simpl in Hd, Hb. rewrite Hb, Hdrop. simpl.
  split; [done|]. split; [done|]. split; [done|]. done.
Qed.

Lemma ticker_tick_full_channel_witness :
  let bm := exec merge_sort_Slice (replicate 256 (OpTick [] 5 5))
                 (NewBandwidthMonitor "" 0) in
  length (chan_buf (broadcast bm)) = 256%nat ∧
  let r := ticker_tick merge_sort_Slice [] 6 6 bm in
  chan_cap (broadcast bm) = 256%nat ∧
  r.2 = false ∧
  broadcast r.1 = broadcast bm ∧
  devices r.1 = devices bm ∧
  (∀ stats, try_send stats (broadcast bm) = (broadcast bm, false)).
Proof.
  intros bm.
  assert (length (chan_buf (broadcast bm)) = 256%nat) as H
    by (vm_compute; reflexivity).
  split; [exact H|].
  exact (ticker_tick_full_channel merge_sort_Slice
           (replicate 256 (OpTick [] 5 5)) "" 0 [] 6 6 H).
Defined.

(** ** The fan-out *)

Lemma Lock_while_read g g' m : g ∈ readers m → Lock g' m = None.
Proof. unfold Lock. destruct (readers m); [by intros ?%elem_of_nil|done]. Qed.

Lemma remove_hold_other g g' l : g' ≠ g → g ∈ l → g ∈ remove_hold g' l.
Proof.
  intros Hne. induction l as [|x l IH]; [done|]. simpl.
  intros [->|Hin]%elem_of_cons.
  - rewrite decide_False by done. by left.
  - case_decide; [done|]. right. by apply IH.
Qed.

Lemma other_step_keeps_hold g m m' :
  other_step g m m' → g ∈ readers m → g ∈ readers m'.
Proof.
  intros [g' m1 m2 Hne Hm|g' m1 Hne Hin|g' m1 m2 Hne Hm|g' m1 Hne Hw] Hg.
  - unfold RLock in Hm. destruct (writer m1); [done|]. simplify_eq. simpl.
    by right.
  - simpl. by apply remove_hold_other.
  - by rewrite (Lock_while_read g g' m1) in Hm.
  - done.
Qed.

(** A goroutine that asks for the write lock while it holds the read lock
    itself waits for ever: whatever the other goroutines do, its own hold
    stays, and the write lock is not granted while there is a hold. *)
Lemma parked_forever g m m' :
  g ∈ readers m → rtc (other_step g) m m' → Lock g m' = None.
Proof.
  intros Hg Hsteps. apply (Lock_while_read g).
  induction Hsteps as [|m1 m2 m3 Hstep _ IH]; [done|].
  apply IH. by eapply other_step_keeps_hold.
Qed.

Lemma WriteJSON_frame client stats s :
  clients (WriteJSON client stats s).1 = clients s ∧
  clientsMu (WriteJSON client stats s).1 = clientsMu s ∧
  (∀ x, x ≠ client → conns (WriteJSON client stats s).1 !! x = conns s !! x) ∧
  (∀ x st, delivered s x st → delivered (WriteJSON client stats s).1 x st) ∧
  ((WriteJSON client stats s).2 = true →
     delivered (WriteJSON client stats s).1 client stats) ∧
  ((WriteJSON client stats s).2 = false →
     (WriteJSON client stats s).1 = s).
Proof.
  unfold WriteJSON. destruct (conns s !! client) as [c|] eqn:Hc; [|done].
  destruct (conn_closed c || conn_broken c); [done|]. simpl.
  split; [done|]. split; [done|]. split; [|split; [|split; [|done]]].
  - intros x Hx. by rewrite lookup_insert_ne.
  - intros x st (c' & Hc' & Hin). unfold delivered. simpl.
    destruct (decide (x = client)) as [->|Hne].
    + rewrite lookup_insert_eq. eexists. split; [done|]. simpl.
      simplify_eq. apply elem_of_app. by left.
    + rewrite lookup_insert_ne by done. eauto.
  - intros _. unfold delivered. simpl. rewrite lookup_insert_eq.
    eexists. split; [done|]. simpl. apply elem_of_app. right. by left.
Qed.

Lemma Close_frame client s :
  clients (Close client s) = clients s ∧
  clientsMu (Close client s) = clientsMu s ∧
  (∀ x, x ≠ client → conns (Close client s) !! x = conns s !! x) ∧
  (∀ x st, delivered s x st → delivered (Close client s) x st) ∧
  (conn_closed <$> conns (Close client s) !! client) ≠ Some false.
Proof.
  unfold Close. simpl. split; [done|]. split; [done|]. split; [|split].
  - intros x Hx. by rewrite lookup_alter_ne.
  - intros x st (c' & Hc' & Hin). unfold delivered. simpl.
    rewrite lookup_alter. case_decide; [subst|eauto].
    rewrite Hc'. simpl. eauto.
  - rewrite lookup_alter_eq. by destruct (conns s !! client).
Qed.

Lemma range_clients_delivered_mono g stats order s x st :
  delivered s x st →
  delivered (outcome_state (range_clients g stats order s)) x st.
Proof.
  revert s. induction order as [|client rest IH]; intros s Hd; [done|].
  cbn [range_clients].
  destruct (WriteJSON_frame client stats s) as (_ & _ & _ & Hmono & _).
  destruct (WriteJSON client stats s) as [s1 ok]. cbn [fst] in Hmono.
  destruct ok; [by apply IH, Hmono|].
  destruct (Close_frame client s1) as (_ & _ & _ & Hmono' & _).
  destruct (Lock g (clientsMu (Close client s1))); [|cbn [outcome_state]; auto].
  apply IH. destruct (Hmono' x st (Hmono x st Hd)) as (c & Hc & Hin).
  exists c. done.
Qed.

(** While it holds the read lock, the loop removes no client; a failed
    write ends it, parked, before the remaining clients are served. *)
Lemma range_clients_holding_read_lock g stats order s :
  g ∈ readers (clientsMu s) →
  fanout_result g stats order s (range_clients g stats order s).
Proof.
  revert s. induction order as [|client rest IH]; intros s Hg.
  { simpl. split; [done|]. split; [done|]. constructor. }
  cbn [range_clients].
  destruct (WriteJSON_frame client stats s)
    as (Hcl & Hmu & Hother & Hmono & Hok & Hfail).
  destruct (WriteJSON client stats s) as [s1 ok]. cbn [fst snd] in *.
  destruct ok.
  - assert (g ∈ readers (clientsMu s1)) as Hg1 by by rewrite Hmu.
    specialize (IH s1 Hg1).
    pose proof (range_clients_delivered_mono g stats rest s1 client stats
                  (Hok eq_refl)) as Hdel.
    destruct (range_clients g stats rest s1) as [s'|s'|s']; simpl in *.
    + destruct IH as (-> & -> & Hall). split; [done|]. split; [done|].
      by constructor.
    + done.
    + destruct IH as (-> & -> & pre & c & post & -> & Hpre & Hclosed & Hrest).
      split; [done|]. split; [done|].
      exists (client :: pre), c, post. split; [done|].
      split; [by constructor|]. split; [done|].
      intros x Hx Hxc. rewrite Hrest; [|set_solver|done].
      apply Hother. set_solver.
  - rewrite (Hfail eq_refl) in *.
    destruct (Close_frame client s) as (Hcl' & Hmu' & Hother' & _ & Hclosed).
    rewrite (Lock_while_read g g) by by rewrite Hmu'.
    simpl. split; [done|]. split; [done|].
    exists [], client, rest. split; [done|]. split; [constructor|].
    split; [done|]. intros x _ Hx. by apply Hother'.
Qed.

(** One round of the broadcaster, started while nobody holds the write
    lock, removes no client: it serves every client, or it is parked in
    [clientsMu.Lock()] at the first failed write, holding the read lock,
    with the failing client closed but still registered and the clients
    after it not served. *)
Lemma broadcast_snapshot_never_removes g stats order s :
  writer (clientsMu s) = None →
  match broadcast_snapshot g stats order s with
  | Finished s' =>
      clients s' = clients s ∧ Forall (λ c, delivered s' c stats) order
  | ParkedLock s' =>
      clients s' = clients s ∧ g ∈ readers (clientsMu s') ∧
      ∃ pre c post, order = pre ++ c :: post ∧
        Forall (λ x, delivered s' x stats) pre ∧
        (conn_closed <$> conns s' !! c) ≠ Some false ∧
        ∀ x, x ∉ pre → x ≠ c → conns s' !! x = conns s !! x
  | ParkedRLock _ => False
  end.
Proof.
  intros Hw. unfold broadcast_snapshot, RLock. rewrite Hw.
  set (s0 := set_clientsMu (mkRWMutex (g :: readers (clientsMu s)) None) s).
  assert (g ∈ readers (clientsMu s0)) as Hg by (simpl; by left).
  pose proof (range_clients_holding_read_lock g stats order s0 Hg) as H.
  destruct (range_clients g stats order s0) as [s'|s'|s']; simpl in H.
  - destruct H as (Hcl & Hmu & Hall). split; [done|].
    eapply Forall_impl; [exact Hall|]. intros c (x & Hx & Hin). by exists x.
  - done.
  - destruct H as (Hcl & Hmu & Hrest). split; [done|]. split; [|done].
    rewrite Hmu. by left.
Qed.

(** C7 fails on the code. Three subscribers, the connection of the second
    one broken, two snapshots [7] and [8] to send: the first subscriber
    gets the first snapshot, the write to the second fails and its
    connection is closed, and then the broadcaster asks for the write lock
    of [clientsMu] while it holds the read lock and is parked. The second
    subscriber stays registered, the third gets nothing, and the second
    snapshot reaches nobody. *)
Theorem broadcastStats_failure_parks :
  ∃ s', broadcastStats 0 [(7, [1; 2; 3]); (8, [1; 2; 3])]%positive
          three_subscribers = ParkedLock s' ∧
    clients s' !! 2%positive = Some true ∧
    conns s' !! 1%positive = Some (mkConn false false [7%positive]) ∧
    conns s' !! 2%positive = Some (mkConn true true []) ∧
    conns s' !! 3%positive = Some (mkConn false false []) ∧
    clientsMu s' = mkRWMutex [0%nat] None ∧
    Lock 0 (clientsMu s') = None.
Proof.
  eexists. split; [vm_compute; reflexivity|].
  repeat (split; [vm_compute; reflexivity|]). vm_compute. reflexivity.
Qed.

(** With a client whose write fails last in the order, the others are
    served, but the failing client still stays registered and the
    broadcaster is parked all the same. *)
Example broadcastStats_failure_last :
  ∃ s', broadcastStats 0 [(7, [1; 3; 2]); (8, [1; 3; 2])]%positive
          three_subscribers = ParkedLock s' ∧
    clients s' !! 2%positive = Some true ∧
    conns s' !! 1%positive = Some (mkConn false false [7%positive]) ∧
    conns s' !! 3%positive = Some (mkConn false false [7%positive]) ∧
    conns s' !! 2%positive = Some (mkConn true true []).
Proof.
  eexists. split; [vm_compute; reflexivity|].
  repeat (split; [vm_compute; reflexivity|]). vm_compute. reflexivity.
Qed.

(** Without a failing write every client gets every snapshot. *)
Lemma range_clients_all_healthy g stats order s :
  Forall (λ c, ∃ x, conns s !! c = Some x ∧
                    conn_closed x = false ∧ conn_broken x = false) order →
  ∃ s', range_clients g stats order s = Finished s' ∧
        clients s' = clients s ∧ clientsMu s' = clientsMu s ∧
        Forall (λ c, delivered s' c stats) order.
Proof.
  revert s. induction order as [|client rest IH]; intros s Hall.
  { exists s. by repeat split. }
  apply Forall_cons in Hall as [(x & Hx & Hcl & Hbr) Hrest].
  cbn [range_clients].
  destruct (WriteJSON_frame client stats s)
    as (Hc & Hmu & Hother & Hmono & Hok & _).
  assert ((WriteJSON client stats s).2 = true) as Hw.
  { unfold WriteJSON. by rewrite Hx, Hcl, Hbr. }
  assert (conns (WriteJSON client stats s).1 !! client =
          Some (mkConn false false (conn_written x ++ [stats]))) as Hnew.
  { unfold WriteJSON. rewrite Hx, Hcl, Hbr. simpl. apply lookup_insert_eq. }
  destruct (WriteJSON client stats s) as [s1 ok]. cbn [fst snd] in *. subst ok.
  destruct (IH s1) as (s' & Hrun & Hc' & Hmu' & Hdel).
  { eapply Forall_impl; [exact Hrest|]. intros c (y & Hy & Hcy & Hby).
    destruct (decide (c = client)) as [->|Hne].
    - rewrite Hnew. eauto.
    - rewrite Hother by done. eauto. }
  exists s'. split; [done|]. split; [congruence|]. split; [congruence|].
  constructor; [|done].
  pose proof (range_clients_delivered_mono g stats rest s1 client stats
                (Hok eq_refl)) as Hd.
  by rewrite Hrun in Hd.
Qed.

(** ** Further facts about the registry and its snapshots *)

(** A record exists exactly for the non-empty, non-broadcast identities
    that some call named, as source or as destination. *)
Lemma device_present_iff ip t0 calls m :
  is_Some (device (run calls (NewBandwidthMonitor ip t0)) m) ↔
  attributable m = true ∧ involved m calls.
Proof.
  pose proof (registry_entry_run ip t0 calls m) as He.
  destruct (device (run calls (NewBandwidthMonitor ip t0)) m) as [d|].
  - destruct He as (Ha & Hi & _). split; [done|eauto].
  - simpl in He. split; [by intros [? ?]|done].
Qed.

(** The broadcast address stays out of the device map whatever operations
    are run, snapshots and ticks included. *)
Lemma broadcast_never_registered_exec sort_Slice ops ip t0 :
  devices (exec sort_Slice ops (NewBandwidthMonitor ip t0)) !! broadcast_MAC = None.
Proof.
  assert (∀ bm, wf bm → devices bm !! broadcast_MAC = None →
            wf (exec sort_Slice ops bm) ∧
            devices (exec sort_Slice ops bm) !! broadcast_MAC = None) as H.
  { induction ops as [|op ops IH]; intros bm Hwf Hb; [done|].
    change (exec sort_Slice (op :: ops) bm)
      with (exec sort_Slice ops (exec_op sort_Slice bm op)).
    apply IH; [by apply exec_op_frame|].
    destruct op as [c|order since now|order since now]; unfold exec_op.
    - apply devices_None_of_device; [by apply wf_attribute|].
      rewrite device_attribute by done. unfold device_step.
      rewrite !(guard_not_attributable broadcast_MAC) by done.
      unfold device. by rewrite Hb.
    - by destruct (GetNetworkStats_frame sort_Slice order since now bm) as (-> & _).
    - rewrite ticker_tick_eq. unfold set_broadcast. cbn [devices].
      by destruct (GetNetworkStats_frame sort_Slice order since now bm) as (-> & _). }
  apply H; [apply wf_new|]. simpl. apply lookup_empty.
Qed.

(** The loop copies the objects it visits, in the order it visits them. *)
Lemma loop_entries_fold o0 (order : list (string * loc)) st :
  loop_inv o0 st →
  Forall (λ kv, is_Some (o0 !! kv.2)) order →
  let st' := fold_left (λ st kv, range_body st kv.2) order st in
  (λ l, loop_objs st' !! l) <$> loop_devices st' =
    ((λ l, loop_objs st !! l) <$> loop_devices st) ++
    ((λ kv, o0 !! kv.2) <$> order).
Proof.
  revert st. induction order as [|kv order IH]; intros st Hinv Hall.
  { simpl. by rewrite app_nil_r. }
  apply Forall_cons in Hall as [[d Hd] Hall].
  cbn [fold_left]. cbv zeta.
  rewrite (IH (range_body st kv.2)) by (by try apply loop_inv_body).
  rewrite fmap_cons, cons_middle, app_assoc. f_equal.
  destruct Hinv as [Hold _ Hnew _ _ _ _ _].
  assert (loop_objs st !! kv.2 = Some d) as Hd' by by eapply lookup_weaken.
  unfold range_body. rewrite Hd'. cbn [loop_objs loop_devices].
  rewrite fmap_app. cbn [fmap list_fmap]. rewrite lookup_insert_eq, Hd.
  f_equal. apply list_fmap_ext. intros i l Hl.
  rewrite lookup_insert_ne; [done|]. intros <-.
  apply list_elem_of_lookup_2, Hnew in Hl as [_ [x Hx]].
  by rewrite fresh_objs_None_map in Hx.
Qed.

(** When the loop visits the entries of the device map, as [range] does,
    the snapshot lists one copy of each record of the registry and no
    other device, and [ActiveDevices] is the number of records. *)
Lemma GetNetworkStats_copies_registry sort_Slice order since now bm :
  sort_Slice_spec sort_Slice → wf bm → range_order (devices bm) order →
  let r := GetNetworkStats sort_Slice order since now bm in
  ∃ stats, snaps r.1 !! r.2 = Some stats ∧
    snapshot_devices r.1 stats ≡ₚ
      (λ kv, device bm kv.1) <$> map_to_list (devices bm) ∧
    ActiveDevices stats = size (devices bm).
Proof.
  intros Hsort Hwf Horder r. subst r. rewrite GetNetworkStats_eq. cbv zeta.
  unfold set_snaps, set_objs, snapshot_devices. cbn [fst snd snaps objs].
  assert (Forall (λ kv : string * loc, is_Some (objs bm !! kv.2)) order) as Hall.
  { apply Forall_forall. intros [k l] Hkl. rewrite Horder in Hkl.
    apply elem_of_map_to_list in Hkl. destruct Hwf as [Hobj _]. by eapply Hobj. }
  pose proof (loop_entries_fold (objs bm) order _ (loop_inv_start (objs bm)) Hall)
    as Hentries.
  cbv zeta in Hentries. fold (snapshot_loop order (objs bm)) in Hentries.
  set (st := snapshot_loop order (objs bm)) in *.
  destruct (Hsort (less_bandwidth (loop_objs st)) (loop_devices st)) as [Hperm _].
  eexists. split; [apply lookup_insert_eq|]. cbn [Devices ActiveDevices]. split.
  - rewrite Hperm, Hentries. cbn [loop_devices fmap list_fmap app].
    rewrite Horder.
    assert ((λ kv : string * loc, objs bm !! kv.2) <$> map_to_list (devices bm) =
            (λ kv, device bm kv.1) <$> map_to_list (devices bm)) as ->; [|done].
    apply Forall_fmap_ext, Forall_forall.
    intros [k l] Hkl%elem_of_map_to_list. unfold device. simpl. by rewrite Hkl.
  - rewrite Hperm. rewrite <-length_map_to_list, <-Horder.
    rewrite <-(length_fmap (λ l, loop_objs st !! l)), Hentries.
    cbn [loop_devices fmap list_fmap app]. by rewrite length_fmap.
Qed.

(** * Further properties of the code *)

(** ** The registry across all operations *)

Lemma device_weaken bm bm' m :
  wf bm → devices bm' = devices bm → objs bm ⊆ objs bm' →
  device bm' m = device bm m.
Proof.
  intros [Hobj _] Hd Ho. unfold device. rewrite Hd.
  destruct (devices bm !! m) as [l|] eqn:Hl; [|done]. simpl.
  destruct (Hobj _ _ Hl) as [d Hd']. rewrite Hd'. by eapply lookup_weaken.
Qed.

Lemma device_exec_op sort_Slice op bm m :
  wf bm →
  device (exec_op sort_Slice bm op) m =
    match op with
    | OpUpdateStats c => device_step c m (device bm m)
    | _ => device bm m
    end.
Proof.
  intros Hwf. destruct op as [c|order since now|order since now]; unfold exec_op.
  - by apply device_attribute.
  - destruct (GetNetworkStats_frame sort_Slice order since now bm)
      as (Hd & _ & Ho & _). by apply device_weaken.
  - rewrite ticker_tick_eq.
    destruct (GetNetworkStats_frame sort_Slice order since now bm)
      as (Hd & _ & Ho & _).
    rewrite <-(device_weaken bm (GetNetworkStats sort_Slice order since now bm).1 m)
      by done.
    done.
Qed.

(** Snapshots and ticks of the producer are invisible in the registry:
    what the device map holds after any operations is what the calls of
    [UpdateStats] among them alone would have left. *)
Lemma device_exec_run sort_Slice ops bm1 bm2 m :
  wf bm1 → wf bm2 → (∀ k, device bm1 k = device bm2 k) →
  device (exec sort_Slice ops bm1) m = device (run (calls_of ops) bm2) m.
Proof.
  revert bm1 bm2. induction ops as [|op ops IH]; intros bm1 bm2 Hwf1 Hwf2 Heq.
  { apply Heq. }
  change (exec sort_Slice (op :: ops) bm1)
    with (exec sort_Slice ops (exec_op sort_Slice bm1 op)).
  assert (wf (exec_op sort_Slice bm1 op)) as Hwf1' by by apply exec_op_frame.
  destruct op as [c|order since now|order since now].
  - change (calls_of (OpUpdateStats c :: ops)) with (c :: calls_of ops).
    change (run (c :: calls_of ops) bm2) with (run (calls_of ops) (attribute c bm2)).
    apply IH; [done|auto with monitor|]. intros k.
    rewrite (device_exec_op sort_Slice (OpUpdateStats c)) by done.
    rewrite device_attribute by done. by rewrite Heq.
  - change (calls_of (OpGetNetworkStats order since now :: ops)) with (calls_of ops).
    apply IH; [done..|]. intros k.
    by rewrite (device_exec_op sort_Slice (OpGetNetworkStats order since now)).
  - change (calls_of (OpTick order since now :: ops)) with (calls_of ops).
    apply IH; [done..|]. intros k.
    by rewrite (device_exec_op sort_Slice (OpTick order since now)).
Qed.

Lemma device_reachable sort_Slice ops ip t0 m :
  device (exec sort_Slice ops (NewBandwidthMonitor ip t0)) m =
  device (run (calls_of ops) (NewBandwidthMonitor ip t0)) m.
Proof. apply device_exec_run; auto with monitor. Qed.

Lemma wf_reachable sort_Slice ops ip t0 :
  wf (exec sort_Slice ops (NewBandwidthMonitor ip t0)).
Proof. apply exec_frame, wf_new. Qed.

Lemma devices_block_other key ip now f g bm k :
  k ≠ key → devices (block key ip now f g bm) !! k = devices bm !! k.
Proof.
  intros Hk. unfold block.
  destruct (writes_only_block_tail key ip now f g (ensure_device key ip bm))
    as (-> & _).
  unfold ensure_device. destruct (devices bm !! key); [done|].
  simpl. by rewrite lookup_insert_ne.
Qed.

Lemma devices_attribute_other c bm k :
  k ≠ srcMAC c → k ≠ dstMAC c →
  devices (attribute c bm) !! k = devices bm !! k.
Proof.
  intros Hs Hd. unfold attribute, UpdateStats.
  rewrite update_destination_block, update_source_block.
  destruct (attributable (srcMAC c)), (attributable (dstMAC c));
    rewrite ?devices_block_other by done; done.
Qed.

(** X1: a call of [UpdateStats] touches the records of the two identities
    it names and no other: for every other identity the entry of the device
    map, the object it points to and so the record are what they were. *)
Theorem UpdateStats_touches_two sort_Slice ops ip t0 c m :
  m ≠ srcMAC c → m ≠ dstMAC c →
  let bm := exec sort_Slice ops (NewBandwidthMonitor ip t0) in
  devices (attribute c bm) !! m = devices bm !! m ∧
  device (attribute c bm) m = device bm m.
Proof.
  intros Hs Hd bm. split; [by apply devices_attribute_other|].
  rewrite device_attribute by apply wf_reachable. unfold device_step.
  rewrite !bool_decide_eq_false_2 by done. by rewrite !andb_false_r.
Qed.

Lemma UpdateStats_touches_two_witness :
  let c := mkCall mac_A broadcast_MAC "10.0.0.1" "10.0.0.255" 128 3 in
  let bm := exec merge_sort_Slice before_snapshot (NewBandwidthMonitor "" 0) in
  (mac_B ≠ srcMAC c ∧ mac_B ≠ dstMAC c) ∧
  devices (attribute c bm) !! mac_B = devices bm !! mac_B ∧
  device (attribute c bm) mac_B = device bm mac_B.
Proof.
  intros c bm.
  assert (mac_B ≠ srcMAC c) as Hs by (vm_compute; discriminate).
  assert (mac_B ≠ dstMAC c) as Hd by (vm_compute; discriminate).
  split; [done|].
  exact (UpdateStats_touches_two merge_sort_Slice before_snapshot "" 0 c mac_B
           Hs Hd).
Defined.

(** X2: in every state the monitor can reach, a record is stored under its
    own [MAC]: the key of an entry of the device map and the [MAC] field of
    the object it points to are the same string, which is neither empty nor
    the broadcast address. *)
Theorem registry_key_is_MAC sort_Slice ops ip t0 m d :
  device (exec sort_Slice ops (NewBandwidthMonitor ip t0)) m = Some d →
  MAC d = m ∧ m ≠ "" ∧ m ≠ broadcast_MAC.
Proof.
  rewrite device_reachable. intros Hd.
  pose proof (registry_entry_run ip t0 (calls_of ops) m) as He.
  rewrite Hd in He. destruct He as (Ha & _ & _ & HM & _).
  apply andb_prop in Ha as [H1%bool_decide_eq_true H2%bool_decide_eq_true].
  done.
Qed.

Lemma registry_key_is_MAC_witness :
  device (exec merge_sort_Slice after_snapshot
            (NewBandwidthMonitor "" 0)) mac_A =
    Some (mkDeviceStats mac_A "10.0.0.1" 128 0 1 0 3 "") ∧
  MAC (mkDeviceStats mac_A "10.0.0.1" 128 0 1 0 3 "") = mac_A.
Proof.
  assert (device (exec merge_sort_Slice after_snapshot
                    (NewBandwidthMonitor "" 0)) mac_A =
          Some (mkDeviceStats mac_A "10.0.0.1" 128 0 1 0 3 "")) as H
    by (vm_compute; reflexivity).
  split; [exact H|].
  exact (proj1 (registry_key_is_MAC merge_sort_Slice after_snapshot "" 0
                  mac_A _ H)).
Defined.

Lemma devices_exec_mono sort_Slice ops bm k l :
  devices bm !! k = Some l → devices (exec sort_Slice ops bm) !! k = Some l.
Proof.
  revert bm. induction ops as [|op ops IH]; intros bm Hk; [done|].
  change (exec sort_Slice (op :: ops) bm)
    with (exec sort_Slice ops (exec_op sort_Slice bm op)).
  apply IH. destruct op as [c|order since now|order since now]; unfold exec_op.
  - by apply devices_attribute_mono.
  - by destruct (GetNetworkStats_frame sort_Slice order since now bm) as (-> & _).
  - rewrite ticker_tick_eq. unfold set_broadcast. cbn [devices].
    by destruct (GetNetworkStats_frame sort_Slice order since now bm) as (-> & _).
Qed.

Lemma exec_app sort_Slice ops ops' bm :
  exec sort_Slice (ops ++ ops') bm = exec sort_Slice ops' (exec sort_Slice ops bm).
Proof. unfold exec. apply fold_left_app. Qed.

(** X3: the registry only grows. An identity that has an entry in the
    device map keeps it, with the same object, whatever operations follow:
    no record is ever deleted or replaced. *)
Theorem registry_only_grows sort_Slice ops more ip t0 m l :
  devices (exec sort_Slice ops (NewBandwidthMonitor ip t0)) !! m = Some l →
  devices (exec sort_Slice (ops ++ more) (NewBandwidthMonitor ip t0)) !! m =
    Some l ∧
  is_Some (device (exec sort_Slice (ops ++ more) (NewBandwidthMonitor ip t0)) m).
Proof.
  intros Hl. rewrite exec_app.
  pose proof (devices_exec_mono sort_Slice more _ _ _ Hl) as Hl'.
  split; [done|]. unfold device. rewrite Hl'. simpl.
  rewrite <-exec_app. destruct (wf_reachable sort_Slice (ops ++ more) ip t0)
    as [Hobj _].
  rewrite <-exec_app in Hl'. by eapply Hobj.
Qed.

Lemma registry_only_grows_witness :
  devices (exec merge_sort_Slice before_snapshot (NewBandwidthMonitor "" 0))
    !! mac_B = Some 2%positive ∧
  devices (exec merge_sort_Slice (before_snapshot ++ after_snapshot)
             (NewBandwidthMonitor "" 0)) !! mac_B = Some 2%positive.
Proof.
  assert (devices (exec merge_sort_Slice before_snapshot
                     (NewBandwidthMonitor "" 0)) !! mac_B = Some 2%positive)
    as H by (vm_compute; reflexivity).
  split; [exact H|].
  exact (proj1 (registry_only_grows merge_sort_Slice before_snapshot
                  after_snapshot "" 0 mac_B _ H)).
Defined.

(** ** The time a device was last seen *)

Lemma effect_LastSeen mac ip n now o :
  LastSeen (source_effect mac ip n now o) = now ∧
  LastSeen (destination_effect mac ip n now o) = now.
Proof.
  unfold source_effect, destination_effect. split;
    match goal with |- context [set_IP_if_empty ?i ?d] =>
      destruct (set_IP_if_empty_counters i d) as (_ & _ & _ & _ & _ & _ & ->)
    end; done.
Qed.

Lemma last_call_time_snoc m calls c :
  last_call_time m (calls ++ [c]) =
    if decide (srcMAC c = m ∨ dstMAC c = m) then Some (call_time c)
    else last_call_time m calls.
Proof.
  unfold last_call_time. rewrite filter_app, filter_cons, filter_nil.
  case_decide.
  - rewrite fmap_app. change (call_time <$> [c]) with [call_time c].
    by rewrite last_snoc.
  - by rewrite app_nil_r.
Qed.

Lemma LastSeen_run ip t0 calls m d :
  device (run calls (NewBandwidthMonitor ip t0)) m = Some d →
  last_call_time m calls = Some (LastSeen d).
Proof.
  revert d. induction calls as [|c calls IH] using rev_ind; intros d.
  { simpl. by rewrite device_new. }
  rewrite device_run_snoc by auto with monitor.
  pose proof (registry_entry_run ip t0 (calls ++ [c]) m) as He.
  rewrite device_run_snoc in He by auto with monitor.
  rewrite last_call_time_snoc. unfold device_step in *. intros Hd.
  rewrite Hd in He. destruct He as (Hm & _).
  rewrite !(guard_attributable m) in Hd by done.
  destruct (decide (srcMAC c = m)) as [Hs|Hs], (decide (dstMAC c = m)) as [Hdst|Hdst];
    rewrite ?(bool_decide_eq_true_2 _ Hs), ?(bool_decide_eq_true_2 _ Hdst),
      ?(bool_decide_eq_false_2 _ Hs), ?(bool_decide_eq_false_2 _ Hdst) in Hd.
  - rewrite decide_True by tauto. injection Hd as <-.
    by rewrite (proj2 (effect_LastSeen _ _ _ _ _)).
  - rewrite decide_True by tauto. injection Hd as <-.
    by rewrite (proj1 (effect_LastSeen _ _ _ _ _)).
  - rewrite decide_True by tauto. injection Hd as <-.
    by rewrite (proj2 (effect_LastSeen _ _ _ _ _)).
  - rewrite decide_False by tauto. by apply IH.
Qed.

(** X4: [LastSeen] of a record is the clock reading of the last call of
    [UpdateStats] that named its identity, as source or as destination;
    snapshots and calls for other identities do not change it. *)
Theorem LastSeen_is_last_call sort_Slice ops ip t0 m d :
  device (exec sort_Slice ops (NewBandwidthMonitor ip t0)) m = Some d →
  last_call_time m (calls_of ops) = Some (LastSeen d).
Proof. rewrite device_reachable. apply LastSeen_run. Qed.

Lemma LastSeen_is_last_call_witness :
  device (exec merge_sort_Slice (before_snapshot ++ after_snapshot)
            (NewBandwidthMonitor "" 0)) mac_B =
    Some (mkDeviceStats mac_B "10.0.0.2" 1500 64 1 1 2 "") ∧
  last_call_time mac_B (calls_of (before_snapshot ++ after_snapshot)) = Some 2.
Proof.
  assert (device (exec merge_sort_Slice (before_snapshot ++ after_snapshot)
                    (NewBandwidthMonitor "" 0)) mac_B =
          Some (mkDeviceStats mac_B "10.0.0.2" 1500 64 1 1 2 "")) as H
    by (vm_compute; reflexivity).
  split; [exact H|].
  exact (LastSeen_is_last_call merge_sort_Slice _ "" 0 mac_B _ H).
Defined.

(** ** Counters and the order of the calls *)

Lemma sent_sizes_Permutation m calls calls' :
  calls ≡ₚ calls' → sent_sizes m calls ≡ₚ sent_sizes m calls'.
Proof. intros H. unfold sent_sizes. by rewrite H. Qed.

Lemma recv_sizes_Permutation m calls calls' :
  calls ≡ₚ calls' → recv_sizes m calls ≡ₚ recv_sizes m calls'.
Proof. intros H. unfold recv_sizes. by rewrite H. Qed.

Lemma involved_Permutation m calls calls' :
  calls ≡ₚ calls' → involved m calls → involved m calls'.
Proof. intros H. unfold involved. by rewrite H. Qed.

(** X5: the counters do not depend on the order in which the calls of
    [UpdateStats] arrive: two sequences with the same calls leave records
    for the same identities, with the same four counters. *)
Theorem counters_order_independent ip t0 calls calls' m :
  calls ≡ₚ calls' →
  counters <$> device (run calls (NewBandwidthMonitor ip t0)) m =
  counters <$> device (run calls' (NewBandwidthMonitor ip t0)) m.
Proof.
  intros Hp.
  pose proof (registry_entry_run ip t0 calls m) as He.
  pose proof (registry_entry_run ip t0 calls' m) as He'.
  destruct (device (run calls (NewBandwidthMonitor ip t0)) m) as [d|],
    (device (run calls' (NewBandwidthMonitor ip t0)) m) as [d'|]; simpl in *.
  - destruct He as (_ & _ & [Hbs Hps Hbr Hpr] & _).
    destruct He' as (_ & _ & [Hbs' Hps' Hbr' Hpr'] & _).
    unfold counters. rewrite Hbs, Hps, Hbr, Hpr, Hbs', Hps', Hbr', Hpr'.
    pose proof (sent_sizes_Permutation m _ _ Hp) as Hs.
    pose proof (recv_sizes_Permutation m _ _ Hp) as Hr.
    by rewrite (sum_Z_Permutation _ _ Hs), (sum_Z_Permutation _ _ Hr),
      (Permutation_length Hs), (Permutation_length Hr).
  - destruct He as (Ha & Hi & _). exfalso. apply He'. split; [done|].
    by eapply involved_Permutation.
  - destruct He' as (Ha & Hi & _). exfalso. apply He. split; [done|].
    eapply involved_Permutation; [|done]. by symmetry.
  - done.
Qed.

Lemma counters_order_independent_witness :
  scenario_A ≡ₚ reverse scenario_A ∧
  counters <$> device (run scenario_A (NewBandwidthMonitor "" 0)) mac_A =
  counters <$> device (run (reverse scenario_A) (NewBandwidthMonitor "" 0)) mac_A.
Proof.
  assert (scenario_A ≡ₚ reverse scenario_A) as H
    by (symmetry; apply reverse_Permutation).
  split; [exact H|].
  exact (counters_order_independent "" 0 _ _ mac_A H).
Defined.

(** ** Counters without wrap-around *)

Lemma sum_Z_bounds (B : Z) (l : list Z) :
  Forall (λ x, 0 <= x <= B) l → 0 <= sum_Z l <= Z.of_nat (length l) * B.
Proof.
  unfold sum_Z. induction 1 as [|x l Hx _ IH]; simpl; [lia|].
  rewrite Nat2Z.inj_succ. lia.
Qed.

Lemma sizes_bounded (B : Z) (P : Call → Prop) `{∀ c, Decision (P c)}
    (calls : list Call) :
  Forall (λ c, 0 <= packetSize c <= B) calls →
  Forall (λ x, 0 <= x <= B) (packetSize <$> filter P calls) ∧
  (length (packetSize <$> filter P calls) <= length calls)%nat.
Proof.
  intros Hall. split.
  - apply Forall_fmap, Forall_forall. intros c Hc%list_elem_of_filter.
    rewrite Forall_forall in Hall. apply Hall. tauto.
  - rewrite length_fmap. apply length_filter.
Qed.

(** X6: the counters are exact as long as the capture cannot have
    produced [2 ^ 64] bytes: when every frame has at most [B] bytes ([main]
    opens the device with a snapshot length of 1600) and the number of calls
    times [B] is below [2 ^ 64], [BytesSent] and [BytesRecv] are the plain
    sums of the frame sizes and [PacketsSent] and [PacketsRecv] the plain
    numbers of calls. *)
Theorem counters_exact_within_capture ip t0 (B : Z) calls m d :
  0 < B →
  Forall (λ c, 0 <= packetSize c <= B) calls →
  Z.of_nat (length calls) * B < 2 ^ 64 →
  device (run calls (NewBandwidthMonitor ip t0)) m = Some d →
  BytesSent d = sum_Z (sent_sizes m calls) ∧
  PacketsSent d = Z.of_nat (length (sent_sizes m calls)) ∧
  BytesRecv d = sum_Z (recv_sizes m calls) ∧
  PacketsRecv d = Z.of_nat (length (recv_sizes m calls)).
Proof.
  intros HB Hall Hlen Hd.
  pose proof (registry_entry_run ip t0 calls m) as He.
  rewrite Hd in He. destruct He as (_ & _ & [Hbs Hps Hbr Hpr] & _).
  destruct (sizes_bounded B (λ c, srcMAC c = m) calls Hall) as [Hs Hsl].
  destruct (sizes_bounded B (λ c, dstMAC c = m) calls Hall) as [Hr Hrl].
  apply sum_Z_bounds in Hs, Hr. fold (sent_sizes m calls) in *.
  fold (recv_sizes m calls) in *. unfold u64_modulus in *.
  rewrite Hbs, Hps, Hbr, Hpr, !Z.mod_small; [done|nia..].
Qed.

Lemma counters_exact_within_capture_witness :
  (0 < 1600 ∧ Forall (λ c, 0 <= packetSize c <= 1600) scenario_A ∧
   Z.of_nat (length scenario_A) * 1600 < 2 ^ 64) ∧
  device (run scenario_A (NewBandwidthMonitor "" 0)) mac_A =
    Some (mkDeviceStats mac_A "10.0.0.1" 192 1500 2 1 3 "") ∧
  192 = sum_Z (sent_sizes mac_A scenario_A) ∧
  2 = Z.of_nat (length (sent_sizes mac_A scenario_A)).
Proof.
  assert (0 < 1600) as HB by lia.
  assert (Forall (λ c, 0 <= packetSize c <= 1600) scenario_A) as Hall
    by (repeat constructor; vm_compute; discriminate).
  assert (Z.of_nat (length scenario_A) * 1600 < 2 ^ 64) as Hlen
    by (vm_compute; reflexivity).
  assert (device (run scenario_A (NewBandwidthMonitor "" 0)) mac_A =
          Some (mkDeviceStats mac_A "10.0.0.1" 192 1500 2 1 3 "")) as H
    by (vm_compute; reflexivity).
  split; [split; [exact HB|split; [exact Hall|exact Hlen]]|].
  split; [exact H|].
  destruct (counters_exact_within_capture "" 0 1600 scenario_A mac_A _
              HB Hall Hlen H) as (Hbs & Hps & _).
  split; [exact Hbs|exact Hps].
Defined.

(** ** What a snapshot shows and what it leaves alone *)

(** X7: when [range] visits the device map, the snapshot lists one copy of
    each record of the registry and nothing else, whatever the order of the
    visit and the sorting function; [ActiveDevices] is the number of
    records, which is also the length of the list. *)
Theorem snapshot_lists_registry sort_Slice ops ip t0 order since now :
  sort_Slice_spec sort_Slice →
  let bm := exec sort_Slice ops (NewBandwidthMonitor ip t0) in
  range_order (devices bm) order →
  let r := GetNetworkStats sort_Slice order since now bm in
  ∃ stats, snaps r.1 !! r.2 = Some stats ∧
    snapshot_devices r.1 stats ≡ₚ
      (λ kv, device bm kv.1) <$> map_to_list (devices bm) ∧
    ActiveDevices stats = size (devices bm) ∧
    length (Devices stats) = size (devices bm).
Proof.
  intros Hsort bm Horder r.
  destruct (GetNetworkStats_copies_registry sort_Slice order since now bm Hsort
              (wf_reachable _ _ _ _) Horder) as (stats & Hs & Hperm & Hn).
  exists stats. split; [done|]. split; [done|]. split; [done|].
  apply Permutation_length in Hperm.
  unfold snapshot_devices in Hperm. rewrite !length_fmap in Hperm.
  by rewrite Hperm, length_map_to_list.
Qed.

Lemma snapshot_lists_registry_witness :
  let bm := exec merge_sort_Slice before_snapshot (NewBandwidthMonitor "" 0) in
  range_order (devices bm) [(mac_B, 2%positive); (mac_A, 1%positive)] ∧
  let r := GetNetworkStats merge_sort_Slice
             [(mac_B, 2%positive); (mac_A, 1%positive)] 10 10 bm in
  ∃ stats, snaps r.1 !! r.2 = Some stats ∧
    snapshot_devices r.1 stats ≡ₚ
      (λ kv, device bm kv.1) <$> map_to_list (devices bm) ∧
    ActiveDevices stats = size (devices bm) ∧
    length (Devices stats) = size (devices bm).
Proof.
  intros bm.
  assert (range_order (devices bm) [(mac_B, 2%positive); (mac_A, 1%positive)])
    as Horder.
  { unfold range_order.
    assert (map_to_list (devices bm) = [(mac_A, 1%positive); (mac_B, 2%positive)])
      as -> by (vm_compute; reflexivity).
    apply Permutation_swap. }
  split; [exact Horder|].
  exact (snapshot_lists_registry merge_sort_Slice before_snapshot "" 0 _ 10 10
           merge_sort_Slice_spec Horder).
Defined.

(** X8: [GetNetworkStats] only reads the registry. In every state the
    monitor can reach it leaves the device map, every record, every answer
    of [handleGetDevice], the channel and the snapshots issued before as
    they were; all it adds are the objects of the new snapshot. *)
Theorem GetNetworkStats_reads_only sort_Slice ops ip t0 order since now :
  let bm := exec sort_Slice ops (NewBandwidthMonitor ip t0) in
  let r := GetNetworkStats sort_Slice order since now bm in
  devices r.1 = devices bm ∧
  broadcast r.1 = broadcast bm ∧
  (∀ m, device r.1 m = device bm m) ∧
  (∀ m, handleGetDevice r.1 m = handleGetDevice bm m) ∧
  objs bm ⊆ objs r.1 ∧
  snaps bm ⊆ snaps r.1 ∧
  snaps bm !! r.2 = None.
Proof.
  intros bm r.
  pose proof (wf_reachable sort_Slice ops ip t0) as Hwf. fold bm in Hwf.
  destruct (GetNetworkStats_frame sort_Slice order since now bm)
    as (Hd & Hb & Ho & Hs & _). fold r in Hd, Hb, Ho, Hs.
  assert (∀ m, device r.1 m = device bm m) as Hdev
    by (intros m; by apply device_weaken).
  split; [done|]. split; [done|]. split; [done|]. split; [|split; [done|]].
  - intros m. rewrite !handleGetDevice_device; [by rewrite Hdev|done|].
    by eapply wf_weaken.
  - split; [done|]. subst r. rewrite GetNetworkStats_eq. cbv zeta. cbn [snd].
    apply not_elem_of_dom, is_fresh.
Qed.

(** X9: before the first record exists the snapshot is empty: the list of
    devices is the empty list, the three totals are zero and
    [ActiveDevices] is zero. *)
Theorem snapshot_of_empty_registry sort_Slice ops ip t0 order since now :
  sort_Slice_spec sort_Slice →
  let bm := exec sort_Slice ops (NewBandwidthMonitor ip t0) in
  devices bm = ∅ →
  range_order (devices bm) order →
  let r := GetNetworkStats sort_Slice order since now bm in
  snaps r.1 !! r.2 =
    Some (mkNetworkStats [] 0 0 0 0 (since - startTime bm) now).
Proof.
  intros Hsort bm Hempty Horder r. subst r.
  unfold range_order in Horder. rewrite Hempty, map_to_list_empty in Horder.
  apply Permutation_nil_r in Horder. subst order.
  rewrite GetNetworkStats_eq. cbv zeta. unfold set_snaps, set_objs.
  cbn [fst snd snaps]. rewrite lookup_insert_eq.
  change (snapshot_loop [] (objs bm)) with (mkTotals (objs bm) [] 0 0 0).
  cbn [loop_devices loop_objs totalSent totalRecv totalPackets].
  destruct (Hsort (less_bandwidth (objs bm)) []) as [Hperm _].
  apply Permutation_nil_r in Hperm. by rewrite Hperm.
Qed.

Lemma snapshot_of_empty_registry_witness :
  let bm := exec merge_sort_Slice [OpTick [] 5 5; OpTick [] 7 7]
                 (NewBandwidthMonitor "" 0) in
  (devices bm = ∅ ∧ range_order (devices bm) []) ∧
  let r := GetNetworkStats merge_sort_Slice [] 9 9 bm in
  snaps r.1 !! r.2 = Some (mkNetworkStats [] 0 0 0 0 (9 - startTime bm) 9).
Proof.
  intros bm.
  assert (devices bm = ∅) as He by (vm_compute; reflexivity).
  assert (range_order (devices bm) []) as Ho
    by (unfold range_order; by rewrite He, map_to_list_empty).
  split; [split; [exact He|exact Ho]|].
  exact (snapshot_of_empty_registry merge_sort_Slice _ "" 0 [] 9 9
           merge_sort_Slice_spec He Ho).
Defined.

(** ** The channel *)

Lemma ticker_tick_pair sort_Slice order since now bm :
  ticker_tick sort_Slice order since now bm =
    (set_broadcast
       (try_send (GetNetworkStats sort_Slice order since now bm).2
                 (broadcast bm)).1
       (GetNetworkStats sort_Slice order since now bm).1,
     (try_send (GetNetworkStats sort_Slice order since now bm).2
               (broadcast bm)).2).
Proof.
  unfold ticker_tick. rewrite GetNetworkStats_eq. cbv zeta. simpl.
  by destruct (try_send _ _).
Qed.

Lemma chan_ok_weaken bm bm' :
  broadcast bm' = broadcast bm → snaps bm ⊆ snaps bm' → chan_ok bm → chan_ok bm'.
Proof.
  intros Hb Hs (Hcap & Hlen & Hnd & Hall). unfold chan_ok. rewrite Hb.
  split; [done|]. split; [done|]. split; [done|].
  eapply Forall_impl; [exact Hall|]. intros p [x Hx].
  exists x. by eapply lookup_weaken.
Qed.

Lemma chan_ok_exec_op sort_Slice op bm :
  wf bm → chan_ok bm → chan_ok (exec_op sort_Slice bm op).
Proof.
  intros Hwf Hok. destruct op as [c|order since now|order since now];
    unfold exec_op.
  - destruct (attribute_frame c bm Hwf) as (Hs & Hb & _).
    eapply chan_ok_weaken; [done| |done]. by rewrite Hs.
  - destruct (GetNetworkStats_frame sort_Slice order since now bm)
      as (_ & Hb & _ & Hs & _).
    by eapply chan_ok_weaken.
  - rewrite ticker_tick_pair. cbn [fst].
    destruct (GetNetworkStats_frame sort_Slice order since now bm)
      as (_ & Hb & _ & Hs & _).
    assert (snaps bm !! (GetNetworkStats sort_Slice order since now bm).2 = None)
      as Hfresh.
    { rewrite GetNetworkStats_eq. cbv zeta. cbn [snd].
      apply not_elem_of_dom, is_fresh. }
    assert (is_Some (snaps (GetNetworkStats sort_Slice order since now bm).1
                       !! (GetNetworkStats sort_Slice order since now bm).2))
      as Hnew.
    { rewrite GetNetworkStats_eq. cbv zeta. unfold set_snaps, set_objs.
      cbn [fst snd snaps]. rewrite lookup_insert_eq. eauto. }
    pose proof (chan_ok_weaken bm _ Hb Hs Hok) as (Hcap & Hlen & Hnd & Hall).
    destruct Hok as (Hcap0 & _ & _ & Hall0).
    set (g := GetNetworkStats sort_Slice order since now bm) in *.
    unfold chan_ok, set_broadcast, try_send. cbn [broadcast snaps].
    rewrite <-Hb. case_decide as Hroom; cbn [fst chan_buf chan_cap].
    + split; [done|].
      split; [rewrite length_app; cbn [length]; rewrite Hcap in Hroom; lia|].
      split.
      * apply NoDup_app. split; [done|]. split; [|apply NoDup_singleton].
        intros p Hp ->%list_elem_of_singleton.
        rewrite Hb in Hp. rewrite Forall_forall in Hall0.
        destruct (Hall0 _ Hp) as [x Hx]. congruence.
      * apply Forall_app. split; [done|]. by constructor.
    + done.
Qed.

Lemma chan_ok_new ip t0 : chan_ok (NewBandwidthMonitor ip t0).
Proof. repeat split; simpl; [lia|constructor|constructor]. Qed.

Lemma chan_ok_reachable sort_Slice ops ip t0 :
  chan_ok (exec sort_Slice ops (NewBandwidthMonitor ip t0)).
Proof.
  assert (∀ b, wf b → chan_ok b →
            wf (exec sort_Slice ops b) ∧ chan_ok (exec sort_Slice ops b)) as H.
  { induction ops as [|op ops IH]; intros b Hwf Hok; [done|].
    change (exec sort_Slice (op :: ops) b)
      with (exec sort_Slice ops (exec_op sort_Slice b op)).
    apply IH; [by apply exec_op_frame|by apply chan_ok_exec_op]. }
  apply H; [apply wf_new|apply chan_ok_new].
Qed.

(** X10: the channel stays within its bound. In every state the monitor
    can reach its capacity is 256, it holds at most 256 snapshots, no
    snapshot twice, and every pointer in it refers to a snapshot that
    exists. *)
Theorem channel_within_capacity sort_Slice ops ip t0 :
  let bm := exec sort_Slice ops (NewBandwidthMonitor ip t0) in
  chan_cap (broadcast bm) = 256%nat ∧
  (length (chan_buf (broadcast bm)) <= 256)%nat ∧
  NoDup (chan_buf (broadcast bm)) ∧
  Forall (λ p, is_Some (snaps bm !! p)) (chan_buf (broadcast bm)).
Proof. intros bm. apply chan_ok_reachable. Qed.

(** X11: a tick that finds room in the channel puts its snapshot there:
    the send is taken, the pointer of the snapshot just made is appended
    after the ones already waiting, which stay in their order, and it is a
    new pointer, that of no snapshot issued before. *)
Theorem ticker_tick_enqueues sort_Slice ops ip t0 order since now :
  let bm := exec sort_Slice ops (NewBandwidthMonitor ip t0) in
  (length (chan_buf (broadcast bm)) < 256)%nat →
  let g := GetNetworkStats sort_Slice order since now bm in
  let r := ticker_tick sort_Slice order since now bm in
  r.2 = true ∧
  chan_buf (broadcast r.1) = chan_buf (broadcast bm) ++ [g.2] ∧
  snaps bm !! g.2 = None ∧
  snaps r.1 !! g.2 = snaps g.1 !! g.2 ∧
  is_Some (snaps r.1 !! g.2) ∧
  devices r.1 = devices bm.
Proof.
  intros bm Hroom g r.
  destruct (chan_ok_reachable sort_Slice ops ip t0) as (Hcap & _).
  fold bm in Hcap.
  destruct (GetNetworkStats_frame sort_Slice order since now bm)
    as (Hd & Hb & _). fold g in Hd, Hb.
  subst r. rewrite ticker_tick_pair. fold g. cbn [fst snd].
  unfold try_send. rewrite decide_True by lia.
  cbn [fst snd]. unfold set_broadcast. cbn [broadcast snaps devices chan_buf].
  split; [done|]. split; [done|].
  assert (snaps bm !! g.2 = None) as Hfresh.
  { subst g. rewrite GetNetworkStats_eq. cbv zeta. cbn [snd].
    apply not_elem_of_dom, is_fresh. }
  split; [done|]. split; [done|]. split; [|done].
  subst g. rewrite GetNetworkStats_eq. cbv zeta. unfold set_snaps, set_objs.
  cbn [fst snd snaps]. rewrite lookup_insert_eq. eauto.
Qed.

Lemma ticker_tick_enqueues_witness :
  let bm := exec merge_sort_Slice (replicate 3 (OpTick [] 5 5))
                 (NewBandwidthMonitor "" 0) in
  (length (chan_buf (broadcast bm)) < 256)%nat ∧
  let g := GetNetworkStats merge_sort_Slice [] 6 6 bm in
  let r := ticker_tick merge_sort_Slice [] 6 6 bm in
  r.2 = true ∧
  chan_buf (broadcast r.1) = chan_buf (broadcast bm) ++ [g.2] ∧
  snaps bm !! g.2 = None ∧
  snaps r.1 !! g.2 = snaps g.1 !! g.2 ∧
  is_Some (snaps r.1 !! g.2) ∧
  devices r.1 = devices bm.
Proof.
  intros bm.
  assert (length (chan_buf (broadcast bm)) = 3%nat) as Hlen
    by (vm_compute; reflexivity).
  assert (length (chan_buf (broadcast bm)) < 256)%nat as H
    by (rewrite Hlen; lia).
  split; [exact H|].
  exact (ticker_tick_enqueues merge_sort_Slice (replicate 3 (OpTick [] 5 5))
           "" 0 [] 6 6 H).
Defined.

(** ** Fan-out to healthy subscribers *)

Lemma range_clients_healthy g stats order s :
  NoDup order → Forall (healthy s) order →
  ∃ s', range_clients g stats order s = Finished s' ∧
    clients s' = clients s ∧ clientsMu s' = clientsMu s ∧
    (∀ c, c ∈ order →
       ∃ x, conns s !! c = Some x ∧
            conns s' !! c = Some (mkConn false false (conn_written x ++ [stats]))) ∧
    (∀ c, c ∉ order → conns s' !! c = conns s !! c).
Proof.
  revert s. induction order as [|client rest IH]; intros s Hnd Hall.
  { exists s. split; [done|]. split; [done|]. split; [done|].
    split; [by intros c ?%elem_of_nil|done]. }
  apply NoDup_cons in Hnd as [Hnotin Hnd].
  apply Forall_cons in Hall as [(x & Hx & Hcl & Hbr) Hrest].
  cbn [range_clients].
  assert (WriteJSON client stats s =
          (mkSubscribers (clients s)
             (<[client := mkConn false false (conn_written x ++ [stats])]>
                (conns s)) (clientsMu s), true)) as ->.
  { unfold WriteJSON. by rewrite Hx, Hcl, Hbr. }
  set (s1 := mkSubscribers _ _ _).
  destruct (IH s1 Hnd) as (s' & Hrun & Hc & Hmu & Hin & Hout).
  { apply Forall_forall. intros c Hcin. rewrite Forall_forall in Hrest.
    destruct (Hrest _ Hcin) as (y & Hy & Hcy & Hby).
    exists y. subst s1. cbn [conns]. rewrite lookup_insert_ne; [done|].
    intros <-. done. }
  exists s'. split; [done|]. split; [done|]. split; [done|]. split.
  - intros c [->|Hcin]%elem_of_cons.
    + exists x. split; [done|]. rewrite (Hout _ Hnotin). subst s1. cbn [conns].
      apply lookup_insert_eq.
    + destruct (Hin _ Hcin) as (y & Hy & Hy'). exists y. split; [|done].
      subst s1. cbn [conns] in Hy. rewrite lookup_insert_ne in Hy; [done|].
      intros <-. done.
  - intros c Hc'. apply not_elem_of_cons in Hc' as [Hne Hnin].
    rewrite (Hout _ Hnin). subst s1. cbn [conns]. by rewrite lookup_insert_ne.
Qed.

Lemma remove_hold_head g l : remove_hold g (g :: l) = l.
Proof. simpl. by rewrite decide_True. Qed.

Lemma broadcast_snapshot_healthy g stats order s :
  writer (clientsMu s) = None → NoDup order → Forall (healthy s) order →
  ∃ s', broadcast_snapshot g stats order s = Finished s' ∧
    clients s' = clients s ∧ clientsMu s' = clientsMu s ∧
    (∀ c, c ∈ order →
       ∃ x, conns s !! c = Some x ∧
            conns s' !! c = Some (mkConn false false (conn_written x ++ [stats]))) ∧
    (∀ c, c ∉ order → conns s' !! c = conns s !! c).
Proof.
  intros Hw Hnd Hall. unfold broadcast_snapshot, RLock. rewrite Hw.
  set (s0 := set_clientsMu _ s).
  destruct (range_clients_healthy g stats order s0 Hnd) as
    (s' & -> & Hc & Hmu & Hin & Hout); [done|].
  eexists. split; [done|]. cbn [clients conns clientsMu set_clientsMu].
  split; [done|]. split; [|done].
  rewrite Hmu. subst s0. cbn [clientsMu set_clientsMu]. unfold RUnlock.
  cbn [readers writer]. rewrite remove_hold_head.
  destruct (clientsMu s) as [rd wr]. simpl in Hw. by subst wr.
Qed.

Lemma clients_order_NoDup s order : clients_order s order → NoDup order.
Proof.
  unfold clients_order. intros ->. apply NoDup_fst_map_to_list.
Qed.

Lemma clients_order_elem s order c :
  clients_order s order → c ∈ order ↔ is_Some (clients s !! c).
Proof.
  unfold clients_order. intros ->. rewrite list_elem_of_fmap. split.
  - intros ([k v] & -> & Hkv%elem_of_map_to_list). eauto.
  - intros [v Hv]. exists (c, v). split; [done|]. by apply elem_of_map_to_list.
Qed.

(** X12: as long as every registered connection is open and its peer is
    there, [broadcastStats] delivers every snapshot it receives from the
    channel to every subscriber, in the order in which it receives them,
    each exactly once, whatever the order in which each round visits the
    clients; the set of clients and the mutex are afterwards as before. *)
Theorem broadcastStats_delivers_in_order g received s :
  writer (clientsMu s) = None →
  (∀ c, is_Some (clients s !! c) → healthy s c) →
  Forall (λ so, clients_order s so.2) received →
  ∃ s', broadcastStats g received s = Finished s' ∧
    clients s' = clients s ∧ clientsMu s' = clientsMu s ∧
    (∀ c, is_Some (clients s !! c) →
       ∃ x, conns s !! c = Some x ∧
            conns s' !! c =
              Some (mkConn false false (conn_written x ++ received.*1))) ∧
    (∀ c, clients s !! c = None → conns s' !! c = conns s !! c).
Proof.
  revert s. induction received as [|[stats order] rest IH];
    intros s Hw Hhealthy Hall.
  { exists s. split; [done|]. split; [done|]. split; [done|]. split; [|done].
    intros c Hc. destruct (Hhealthy c Hc) as (x & Hx & Hcl & Hbr).
    exists x. split; [done|]. rewrite Hx. simpl. rewrite app_nil_r.
    destruct x as [cl br wr]. simpl in *. by subst. }
  apply Forall_cons in Hall as [Horder Hall]. cbn [snd] in Horder.
  cbn [broadcastStats].
  destruct (broadcast_snapshot_healthy g stats order s Hw
              (clients_order_NoDup _ _ Horder)) as
    (s1 & -> & Hc1 & Hmu1 & Hin1 & Hout1).
  { apply Forall_forall. intros c Hc. apply Hhealthy.
    by apply (clients_order_elem s order). }
  destruct (IH s1) as (s' & Hrun & Hc & Hmu & Hin & Hout).
  - by rewrite Hmu1.
  - intros c Hcs. rewrite Hc1 in Hcs.
    destruct (Hin1 c) as (x & Hx & Hx'); [by apply (clients_order_elem s order)|].
    exists (mkConn false false (conn_written x ++ [stats])). done.
  - eapply Forall_impl; [exact Hall|]. intros so Hso.
    unfold clients_order in *. by rewrite Hc1.
  - exists s'. split; [done|]. split; [congruence|]. split; [congruence|]. split.
    + intros c Hcs.
      destruct (Hin1 c) as (x & Hx & Hx'); [by apply (clients_order_elem s order)|].
      destruct (Hin c) as (y & Hy & Hy'); [by rewrite Hc1|].
      exists x. split; [done|]. rewrite Hy'. rewrite Hx' in Hy.
      injection Hy as <-. simpl. by rewrite <-app_assoc.
    + intros c Hcs. rewrite Hout by by rewrite Hc1. apply Hout1.
      rewrite (clients_order_elem s order) by done. rewrite Hcs. by intros [? ?].
Qed.

Lemma two_subscribers_healthy c :
  is_Some (clients two_subscribers !! c) → healthy two_subscribers c.
Proof.
  unfold two_subscribers, healthy. cbn [clients conns]. intros [v Hv].
  apply lookup_insert_Some in Hv as [[<- _]|[_ Hv]].
  { eexists. by rewrite lookup_insert_eq. }
  apply lookup_insert_Some in Hv as [[<- _]|[_ Hv]].
  { eexists. rewrite lookup_insert_ne by done. by rewrite lookup_insert_eq. }
  by rewrite lookup_empty in Hv.
Qed.

Lemma two_subscribers_orders :
  Forall (λ so : loc * list loc, clients_order two_subscribers so.2)
    [(7, [1; 2]); (8, [2; 1])]%positive.
Proof.
  assert ((map_to_list (clients two_subscribers)).*1 = [2; 1]%positive) as H
    by (vm_compute; reflexivity).
  apply Forall_cons. split.
  { cbv beta. unfold clients_order. cbn [snd]. rewrite H.
    apply Permutation_swap. }
  apply Forall_cons. split; [|by apply Forall_nil].
  cbv beta. unfold clients_order. cbn [snd]. by rewrite H.
Qed.

Lemma broadcastStats_delivers_in_order_witness :
  (writer (clientsMu two_subscribers) = None ∧
   (∀ c, is_Some (clients two_subscribers !! c) → healthy two_subscribers c) ∧
   Forall (λ so : loc * list loc, clients_order two_subscribers so.2)
     [(7, [1; 2]); (8, [2; 1])]%positive) ∧
  ∃ s', broadcastStats 0 [(7, [1; 2]); (8, [2; 1])]%positive two_subscribers =
          Finished s' ∧
    clients s' = clients two_subscribers ∧
    clientsMu s' = clientsMu two_subscribers ∧
    (∀ c, is_Some (clients two_subscribers !! c) →
       ∃ x, conns two_subscribers !! c = Some x ∧
            conns s' !! c =
              Some (mkConn false false
                      (conn_written x ++ [(7, [1; 2]); (8, [2; 1])]%positive.*1))) ∧
    (∀ c, clients two_subscribers !! c = None →
          conns s' !! c = conns two_subscribers !! c).
Proof.
  split; [split; [reflexivity|split;
            [exact two_subscribers_healthy|exact two_subscribers_orders]]|].
  exact (broadcastStats_delivers_in_order 0 _ two_subscribers eq_refl
           two_subscribers_healthy two_subscribers_orders).
Defined.

(** ** handleWebSocket *)

Lemma Lock_unlocked g m :
  unlocked m → Lock g m = Some (mkRWMutex [] (Some g)).
Proof. intros [Hr Hw]. unfold Lock. by rewrite Hr, Hw. Qed.

Lemma unlocked_eq m : unlocked m → m = mkRWMutex [] None.
Proof. destruct m as [r w]. intros [Hr Hw]. simpl in *. by subst. Qed.



Lemma unregister_unlocked g conn s :
  unlocked (clientsMu s) →
  unregister g conn s =
    Finished (mkSubscribers (delete conn (clients s)) (conns s) (clientsMu s)).
Proof.
  intros Hfree. unfold unregister. rewrite (Lock_unlocked g) by done.
  unfold Unlock. cbn [readers]. by rewrite <-(unlocked_eq _ Hfree).
Qed.

(** X14: when a subscriber goes away while [clientsMu] is free, exactly
    that subscriber is removed and its connection closed: the other
    clients, their connections and the monitor are untouched. For a
    connection that is not registered the set of clients stays as it is,
    so that removing twice is the same as removing once; and a client that
    was new when it connected leaves the set as it was before. *)
Theorem handleWebSocket_close_removes_one g conn srv :
  unlocked (clientsMu (subscribers srv)) →
  ∃ srv', handleWebSocket_close g conn srv = Ran srv' ∧
    monitor srv' = monitor srv ∧
    clients (subscribers srv') = delete conn (clients (subscribers srv)) ∧
    clients (subscribers srv') !! conn = None ∧
    (∀ c, c ≠ conn →
          clients (subscribers srv') !! c = clients (subscribers srv) !! c ∧
          conns (subscribers srv') !! c = conns (subscribers srv) !! c) ∧
    (conn_closed <$> conns (subscribers srv') !! conn) ≠ Some false ∧
    clientsMu (subscribers srv') = clientsMu (subscribers srv) ∧
    (clients (subscribers srv) !! conn = None →
       clients (subscribers srv') = clients (subscribers srv)) ∧
    handleWebSocket_close g conn srv' = Ran srv' ∧
    (∀ before, clients (subscribers srv) = <[conn := true]> before →
               before !! conn = None →
               clients (subscribers srv') = before).
Proof.
  intros Hfree. unfold handleWebSocket_close.
  rewrite unregister_unlocked by done.
  eexists. split; [reflexivity|]. cbn [monitor subscribers].
  destruct (Close_frame conn
              (mkSubscribers (delete conn (clients (subscribers srv)))
                             (conns (subscribers srv))
                             (clientsMu (subscribers srv))))
    as (Hc & Hmu & Hother & _ & Hclosed).
  cbn [clients conns clientsMu] in *.
  split; [done|]. split; [done|]. rewrite Hc.
  split; [apply lookup_delete_eq|]. split.
  { intros c Hne. split; [by apply lookup_delete_ne|by apply Hother]. }
  split; [done|]. split; [done|]. split; [by apply delete_id|]. split.
  - rewrite unregister_unlocked by (by rewrite Hmu).
    rewrite Hc, Hmu. f_equal. f_equal.
    unfold Close. cbn [clients conns clientsMu]. f_equal.
    + apply delete_id, lookup_delete_eq.
    + apply map_eq. intros c. rewrite !lookup_alter.
      destruct (decide (conn = c)) as [<-|]; [|done].
      rewrite decide_True by done.
      by destruct (conns (subscribers srv) !! conn).
  - intros before -> Hnew. by rewrite delete_insert_eq, delete_id.
Qed.

Lemma handleWebSocket_close_removes_one_witness :
  let srv := mkServer (NewBandwidthMonitor "" 0) two_subscribers in
  unlocked (clientsMu (subscribers srv)) ∧
  ∃ srv', handleWebSocket_close 4 2%positive srv = Ran srv' ∧
    monitor srv' = monitor srv ∧
    clients (subscribers srv') = delete 2%positive (clients (subscribers srv)).
Proof.
  intros srv.
  assert (unlocked (clientsMu (subscribers srv))) as Hfree by (by split).
  split; [exact Hfree|].
  destruct (handleWebSocket_close_removes_one 4 2%positive srv Hfree)
    as (srv' & H1 & H2 & H3 & _).
  exists srv'. split; [exact H1|]. split; [exact H2|exact H3].
Defined.

Lemma broadcast_snapshot_parked_holds g stats order s s' :
  broadcast_snapshot g stats order s = ParkedLock s' →
  g ∈ readers (clientsMu s').
Proof.
  unfold broadcast_snapshot, RLock. destruct (writer (clientsMu s)); [done|].
  set (s0 := set_clientsMu _ s).
  assert (g ∈ readers (clientsMu s0)) as Hg by (simpl; by left).
  pose proof (range_clients_holding_read_lock g stats order s0 Hg) as H.
  destruct (range_clients g stats order s0) as [s1|s1|s1]; [done|done|].
  intros [= <-]. destruct H as (_ & -> & _). done.
Qed.

(** X15: a failed write stops the whole subscription service. Once the
    broadcaster is parked in [clientsMu.Lock()] it keeps its read lock
    whatever the other goroutines do, and so every [handleWebSocket] is
    parked too: a new subscriber is never registered and never gets its
    first snapshot, and a subscriber that goes away is never removed. *)
Theorem failed_write_blocks_handlers g stats order s s' m' :
  broadcast_snapshot g stats order s = ParkedLock s' →
  rtc (other_step g) (clientsMu s') m' →
  let s1 := set_clientsMu m' s' in
  g ∈ readers m' ∧
  (∀ g' conn, register g' conn s1 = ParkedLock s1) ∧
  (∀ g' conn, unregister g' conn s1 = ParkedLock s1) ∧
  (∀ g' conn bm,
     handleWebSocket_close g' conn (mkServer bm s1) = Parked (mkServer bm s1)) ∧
  (∀ g' broken sort_Slice ord since now bm,
     ∃ srv', handleWebSocket_open g' (Some broken) sort_Slice ord since now
               (mkServer bm s1) =
               (Some (fresh (dom (conns s1))), Parked srv') ∧
             monitor srv' = bm ∧
             clients (subscribers srv') = clients s').
Proof.
  intros Hpark Hsteps s1.
  pose proof (broadcast_snapshot_parked_holds _ _ _ _ _ Hpark) as Hg.
  assert (g ∈ readers m') as Hg'.
  { clear Hpark s1. induction Hsteps as [|m1 m2 m3 Hstep _ IH]; [done|].
    apply IH. by eapply other_step_keeps_hold. }
  assert (∀ g', Lock g' (clientsMu s1) = None) as Hlock.
  { intros g'. by apply (Lock_while_read g). }
  split; [done|]. split; [|split; [|split]].
  - intros g' conn. unfold register. by rewrite Hlock.
  - intros g' conn. unfold unregister. by rewrite Hlock.
  - intros g' conn bm. unfold handleWebSocket_close, unregister.
    cbn [subscribers]. by rewrite Hlock.
  - intros g' broken sort_Slice ord since now bm.
    unfold handleWebSocket_open, Upgrade, register.
    cbn [subscribers monitor clientsMu]. rewrite Hlock.
    eexists. split; [reflexivity|]. done.
Qed.

Lemma failed_write_blocks_handlers_witness :
  let s' := outcome_state
              (broadcast_snapshot 0 7%positive [1; 2; 3]%positive
                 three_subscribers) in
  (broadcast_snapshot 0 7%positive [1; 2; 3]%positive three_subscribers =
     ParkedLock s' ∧
   rtc (other_step 0) (clientsMu s') (clientsMu s')) ∧
  ∀ g' conn, register g' conn (set_clientsMu (clientsMu s') s') =
             ParkedLock (set_clientsMu (clientsMu s') s').
Proof.
  intros s'.
  assert (broadcast_snapshot 0 7%positive [1; 2; 3]%positive three_subscribers =
          ParkedLock s') as H by (vm_compute; reflexivity).
  assert (rtc (other_step 0) (clientsMu s') (clientsMu s')) as Hsteps
    by apply rtc_refl.
  split; [split; [exact H|exact Hsteps]|].
  exact (proj1 (proj2 (failed_write_blocks_handlers 0 _ _ _ s' _ H Hsteps))).
Defined.

(** ** main: the local address and the choice of the device *)

Lemma first_IPv4_head To4 IP_String addrs :
  first_IPv4 To4 IP_String addrs =
    head (omap (λ addr, IP_String <$> To4 (addr_IP addr)) addrs).
Proof.
  induction addrs as [|addr rest IH]; [done|]. simpl.
  destruct (To4 (addr_IP addr)); simpl; [done|apply IH].
Qed.

(** X16: [getLocalIP] returns the first IPv4 address, in the order of the
    lists, among the addresses of the interfaces named [deviceName]:
    addresses without an IPv4 form and interfaces with another name are
    passed over, and the result is the empty string exactly when there is
    no such address to return, or the one found prints as the empty
    string. *)
Theorem getLocalIP_first_IPv4 To4 IP_String deviceName devices :
  getLocalIP To4 IP_String deviceName devices =
    default "" (head (IPv4_addresses To4 IP_String deviceName devices)) ∧
  (getLocalIP To4 IP_String deviceName devices ≠ "" →
   ∃ dev addr ipv4, dev ∈ devices ∧ Name dev = deviceName ∧
     addr ∈ Addresses dev ∧ To4 (addr_IP addr) = Some ipv4 ∧
     getLocalIP To4 IP_String deviceName devices = IP_String ipv4) ∧
  ((∀ dev, dev ∈ devices → Name dev ≠ deviceName) →
   getLocalIP To4 IP_String deviceName devices = "").
Proof.
  assert (getLocalIP To4 IP_String deviceName devices =
          default "" (head (IPv4_addresses To4 IP_String deviceName devices)))
    as Heq.
  { unfold IPv4_addresses. induction devices as [|dev rest IH]; [done|].
    cbn [getLocalIP mbind list_bind]. fold (@mbind list _).
    case_bool_decide as Hn; [|apply IH].
    rewrite first_IPv4_head.
    destruct (omap _ (Addresses dev)) as [|s l]; [apply IH|done]. }
  split; [exact Heq|]. split.
  - rewrite Heq. clear Heq. unfold IPv4_addresses.
    destruct (head _) as [s|] eqn:Hhead; [|done]. simpl. intros _.
    apply head_Some_elem_of in Hhead.
    apply list_elem_of_bind in Hhead as (dev & Hs & Hdev).
    case_bool_decide as Hn; [|by apply elem_of_nil in Hs].
    apply list_elem_of_omap in Hs as (addr & Haddr & Hs).
    destruct (To4 (addr_IP addr)) as [ipv4|] eqn:H4; [|done].
    injection Hs as <-. by exists dev, addr, ipv4.
  - intros Hnone. clear Heq. induction devices as [|dev rest IH]; [done|].
    cbn [getLocalIP]. rewrite bool_decide_eq_false_2.
    + apply IH. intros d Hd. apply Hnone. by right.
    + apply Hnone. by left.
Qed.

Lemma getLocalIP_first_IPv4_witness :
  getLocalIP example_To4 example_IP_String "wlan0" example_interfaces = "10.0.0.7" ∧
  getLocalIP example_To4 example_IP_String "eth1" example_interfaces = "".
Proof.
  pose proof (getLocalIP_first_IPv4 example_To4 example_IP_String "wlan0"
                example_interfaces) as (Heq & _ & _).
  pose proof (getLocalIP_first_IPv4 example_To4 example_IP_String "eth1"
                example_interfaces) as (_ & _ & Hnone).
  split.
  - rewrite Heq. vm_compute. reflexivity.
  - apply Hnone. intros dev Hdev Hname.
    unfold example_interfaces in Hdev.
    repeat (apply elem_of_cons in Hdev as [->|Hdev]; [discriminate Hname|]).
    by apply elem_of_nil in Hdev.
Defined.

Lemma first_usable_skip IP_String pre rest :
  Forall unusable pre →
  first_usable IP_String (pre ++ rest) = first_usable IP_String rest.
Proof.
  induction 1 as [|dev pre Hdev _ IH]; [done|].
  cbn [app first_usable]. rewrite <- IH.
  destruct Hdev as [Hlo|Hno].
  - rewrite (bool_decide_eq_false_2 (Name dev ≠ "lo")); [done|]. by intros [].
  - rewrite Hno. cbn [length]. rewrite (bool_decide_eq_false_2 (0 < 0)%nat) by lia.
    by rewrite andb_false_r.
Qed.

Lemma first_usable_none IP_String devices :
  Forall unusable devices → first_usable IP_String devices = ("", "").
Proof.
  intros Hall. rewrite <- (app_nil_r devices).
  by rewrite first_usable_skip.
Qed.

(** X17: without the flag [-device], [main] looks for the first interface
    that is not named [lo] and has an address. It monitors that interface,
    or, when the name of that interface is empty, the first interface of
    the list, whatever that one is. The local address is in both cases the
    printed form of the first address of the interface found, whether IPv4
    or not; [getLocalIP] is asked, for the name chosen, only when that
    form is empty. When every interface is named [lo] or has no address it
    falls back to the first interface of the list, which may be [lo], with
    the address [getLocalIP] finds. *)
Theorem select_device_auto To4 IP_String devices :
  (∀ pre dev addr addrs post,
     devices = pre ++ dev :: post →
     Forall unusable pre →
     Name dev ≠ "lo" → Addresses dev = addr :: addrs →
     let deviceName :=
       if bool_decide (Name dev = "") then Name (default dev (head pre))
       else Name dev in
     select_device To4 IP_String "" devices =
       Some (deviceName,
             if bool_decide (IP_String (addr_IP addr) = "")
             then getLocalIP To4 IP_String deviceName devices
             else IP_String (addr_IP addr))) ∧
  (∀ dev0 rest,
     devices = dev0 :: rest →
     Forall unusable devices →
     select_device To4 IP_String "" devices =
       Some (Name dev0, getLocalIP To4 IP_String (Name dev0) devices)).
Proof.
  split.
  - intros pre dev addr addrs post -> Hpre Hlo Haddrs deviceName.
    assert (first_usable IP_String (pre ++ dev :: post) =
            (Name dev, IP_String (addr_IP addr))) as Hfirst.
    { rewrite first_usable_skip by done. cbn [first_usable].
      rewrite Haddrs. cbn [length].
      rewrite (bool_decide_eq_true_2 (Name dev ≠ "lo")) by done.
      by rewrite (bool_decide_eq_true_2 (0 < S _)%nat) by lia. }
    assert (∃ l, pre ++ dev :: post = default dev (head pre) :: l) as [l Hl]
      by (destruct pre; simpl; eauto).
    unfold select_device. rewrite Hfirst, Hl.
    rewrite (bool_decide_eq_false_2 ("" ≠ "")) by (by intros []).
    cbv beta iota. reflexivity.
  - intros dev0 rest -> Hall. unfold select_device.
    rewrite (bool_decide_eq_false_2 ("" ≠ "")) by (by intros []).
    rewrite first_usable_none by done. cbv beta iota.
    by rewrite !(bool_decide_eq_true_2 ("" = "")) by done.
Qed.

Lemma select_device_auto_witness :
  select_device example_To4 example_IP_String "" example_interfaces =
    Some ("wlan0", "fe80::1") ∧
  select_device example_To4 example_IP_String ""
      [mkInterface "lo" "" [mkInterfaceAddress [127; 0; 0; 1]];
       mkInterface "" "" [mkInterfaceAddress [10; 0; 0; 7]];
       mkInterface "eth0" "" [mkInterfaceAddress [127; 0; 0; 1]]] =
    Some ("lo", "10.0.0.7") ∧
  select_device example_To4 example_IP_String ""
      [mkInterface "lo" "" [mkInterfaceAddress [127; 0; 0; 1]]] =
    Some ("lo", "127.0.0.1").
Proof.
  split; [|split].
  - pose proof (select_device_auto example_To4 example_IP_String
                  example_interfaces) as [Hfirst _].
    rewrite (Hfirst
      [mkInterface "lo" "" [mkInterfaceAddress [127; 0; 0; 1]];
       mkInterface "eth0" "" []]
      (mkInterface "wlan0" ""
        [ mkInterfaceAddress [254; 128; 0; 0; 0; 0; 0; 0; 0; 0; 0; 0; 0; 0; 0; 1];
          mkInterfaceAddress [10; 0; 0; 7] ])
      (mkInterfaceAddress [254; 128; 0; 0; 0; 0; 0; 0; 0; 0; 0; 0; 0; 0; 0; 1])
      [mkInterfaceAddress [10; 0; 0; 7]] []).
    + vm_compute. reflexivity.
    + reflexivity.
    + apply Forall_cons. split; [by left|].
      apply Forall_cons. split; [by right|]. by apply Forall_nil.
    + discriminate.
    + reflexivity.
  - pose proof (select_device_auto example_To4 example_IP_String
      [mkInterface "lo" "" [mkInterfaceAddress [127; 0; 0; 1]];
       mkInterface "" "" [mkInterfaceAddress [10; 0; 0; 7]];
       mkInterface "eth0" "" [mkInterfaceAddress [127; 0; 0; 1]]])
      as [Hfirst _].
    rewrite (Hfirst
      [mkInterface "lo" "" [mkInterfaceAddress [127; 0; 0; 1]]]
      (mkInterface "" "" [mkInterfaceAddress [10; 0; 0; 7]])
      (mkInterfaceAddress [10; 0; 0; 7]) []
      [mkInterface "eth0" "" [mkInterfaceAddress [127; 0; 0; 1]]]).
    + vm_compute. reflexivity.
    + reflexivity.
    + apply Forall_cons. split; [by left|]. by apply Forall_nil.
    + discriminate.
    + reflexivity.
  - pose proof (select_device_auto example_To4 example_IP_String
                  [mkInterface "lo" "" [mkInterfaceAddress [127; 0; 0; 1]]])
      as [_ Hnone].
    rewrite (Hnone _ _ eq_refl).
    + vm_compute. reflexivity.
    + apply Forall_cons. split; [by left|]. by apply Forall_nil.
Defined.

(** X18: whatever is passed with the flag [-device] is taken as the device
    name without being looked up among the interfaces, so the name need
    not be one of theirs, and the local address is then whatever
    [getLocalIP] finds for it, the empty string when no interface has that
    name; with no interface at all [main] stops before any choice. *)
Theorem select_device_flag To4 IP_String device_flag devices :
  device_flag ≠ "" →
  select_device To4 IP_String device_flag [] = None ∧
  (devices ≠ [] →
   select_device To4 IP_String device_flag devices =
     Some (device_flag, getLocalIP To4 IP_String device_flag devices)) ∧
  (devices ≠ [] → device_flag ∉ Name <$> devices →
   select_device To4 IP_String device_flag devices = Some (device_flag, "")).
Proof.
  intros Hflag.
  assert (devices ≠ [] →
    select_device To4 IP_String device_flag devices =
      Some (device_flag, getLocalIP To4 IP_String device_flag devices)) as Hsel.
  { intros Hne. destruct devices as [|dev0 rest]; [done|].
    unfold select_device.
    rewrite (bool_decide_eq_true_2 (device_flag ≠ "")) by done.
    by rewrite (bool_decide_eq_true_2 ("" = "")) by done. }
  split; [done|]. split; [exact Hsel|].
  intros Hne Hnot. rewrite Hsel by done. f_equal. f_equal.
  clear Hsel Hne. induction devices as [|dev rest IH]; [done|].
  cbn [getLocalIP]. rewrite fmap_cons in Hnot.
  apply not_elem_of_cons in Hnot as [Hd Hrest].
  rewrite bool_decide_eq_false_2 by done. by apply IH.
Qed.

Lemma select_device_flag_witness :
  select_device example_To4 example_IP_String "eth7" example_interfaces =
    Some ("eth7", "").
Proof.
  apply (select_device_flag example_To4 example_IP_String "eth7"
           example_interfaces).
  - discriminate.
  - discriminate.
  - unfold example_interfaces. rewrite !fmap_cons. cbn [Name fmap list_fmap].
    intros Hin.
    repeat (apply elem_of_cons in Hin as [Hin|Hin]; [discriminate Hin|]).
    by apply elem_of_nil in Hin.
Defined.

(** ** main: the capture loop *)

Lemma attribute_no_Ethernet p now bm :
  ethernet p = None → attribute (packet_call p now) bm = bm.
Proof.
  intros Heth. unfold attribute, packet_call, UpdateStats. rewrite Heth.
  cbn [srcMAC dstMAC srcIP dstIP packetSize call_time from_option].
  unfold update_destination, update_source, attributable.
  by rewrite !(bool_decide_eq_false_2 ("" ≠ "")) by (by intros []).
Qed.

(** X19: the capture loop calls [UpdateStats] for every packet, but a
    packet without an Ethernet layer reaches it with both hardware
    addresses empty and changes nothing, even when it has an IPv4 layer:
    the monitor after the loop is the one the packets with an Ethernet
    layer alone would have produced, and the loop is one call of
    [UpdateStats] per packet, sized by the length of the packet's data. *)
Theorem capture_needs_Ethernet packets bm :
  capture packets bm =
    capture (filter (λ pn, is_Some (ethernet pn.1)) packets) bm ∧
  capture packets bm = run ((λ pn, packet_call pn.1 pn.2) <$> packets) bm ∧
  (Forall (λ pn, ethernet pn.1 = None) packets → capture packets bm = bm).
Proof.
  assert (∀ s, capture packets s =
    capture (filter (λ pn, is_Some (ethernet pn.1)) packets) s) as Hfilter.
  { induction packets as [|[p now] rest IH]; intros s; [done|].
    rewrite filter_cons. cbn [fst].
    destruct (decide (is_Some (ethernet p))) as [Hsome|Hnone].
    - unfold capture. cbn [fold_left]. apply IH.
    - unfold capture at 1. cbn [fold_left fst snd].
      rewrite attribute_no_Ethernet; [apply IH|].
      by apply eq_None_not_Some. }
  split; [apply Hfilter|]. split.
  - clear Hfilter. unfold capture, run. generalize bm.
    induction packets as [|pn rest IH]; intros s; [done|].
    rewrite fmap_cons. cbn [fold_left]. apply IH.
  - intros Hall. rewrite Hfilter.
    replace (filter _ packets) with (@nil (Packet * Z)); [done|].
    symmetry. clear Hfilter. induction Hall as [|pn rest Hpn _ IH]; [done|].
    rewrite filter_cons, decide_False; [exact IH|].
    rewrite Hpn. by intros [? ?].
Qed.

Lemma capture_needs_Ethernet_witness :
  capture [(mkPacket None (Some ("10.0.0.1", "10.0.0.2")) 60, 5);
           (mkPacket None None 1500, 6)] empty_monitor = empty_monitor.
Proof.
  apply (capture_needs_Ethernet
           [(mkPacket None (Some ("10.0.0.1", "10.0.0.2")) 60, 5);
            (mkPacket None None 1500, 6)] empty_monitor).
  apply Forall_cons. split; [reflexivity|].
  apply Forall_cons. split; [reflexivity|]. by apply Forall_nil.
Defined.

(** * The dashboard *)

Lemma slice_last_short {A} n (l : list A) :
  (length l <= n)%nat → slice_last n l = l.
Proof.
  intros Hlen. unfold slice_last.
  by replace (length l - n)%nat with 0%nat by lia.
Qed.

Lemma slice_last_length {A} n (l : list A) :
  length (slice_last n l) = (length l `min` n)%nat.
Proof. unfold slice_last. rewrite length_drop. lia. Qed.

Lemma slice_last_app_slice {A} n (l k : list A) :
  slice_last n (slice_last n l ++ k) = slice_last n (l ++ k).
Proof.
  destruct (decide (length l <= n)%nat) as [Hle|Hgt].
  { by rewrite (slice_last_short n l). }
  unfold slice_last at 1 3.
  rewrite !length_app, slice_last_length.
  replace (length l `min` n + length k - n)%nat with (length k) by lia.
  replace (length l + length k - n)%nat
    with (length (take (length l - n) l) + length k)%nat
    by (rewrite length_take; lia).
  trans (drop (length (take (length l - n) l) + length k)
           ((take (length l - n) l ++ drop (length l - n) l) ++ k));
    [|by rewrite take_drop].
  by rewrite <- (assoc_L (++)), <- drop_drop, drop_app_length.
Qed.

Lemma receive_snoc msgs msg d :
  receive (msgs ++ [msg]) d = onmessage msg.1 msg.2 (receive msgs d).
Proof. unfold receive. by rewrite fold_left_app. Qed.

Lemma receive_previousStatsRef_points msgs : ∀ d,
  chartHistory (receive msgs d) =
    (if decide (msgs = []) then chartHistory d
     else slice_last MAX_HISTORY_POINTS
            (chartHistory d ++ points msgs (previousStatsRef d))).
Proof.
  induction msgs as [|msg rest IH]; intros d; [done|].
  rewrite decide_False by done.
  change (receive (msg :: rest) d) with (receive rest (onmessage msg.1 msg.2 d)).
  rewrite IH. cbn [points onmessage chartHistory previousStatsRef].
  destruct (decide (rest = [])) as [->|Hrest]; [done|].
  rewrite slice_last_app_slice. by rewrite <- (assoc_L (++)).
Qed.

(** X20: the history of the chart holds the points of the most recent
    messages, in the order of their arrival, and never more than 50 of
    them: after any messages it is the last 50 of the points it held
    followed by the points of the messages. *)
Theorem chartHistory_keeps_last_50 msgs d :
  (length (chartHistory d) <= MAX_HISTORY_POINTS)%nat →
  chartHistory (receive msgs d) =
    slice_last MAX_HISTORY_POINTS
      (chartHistory d ++ points msgs (previousStatsRef d)) ∧
  (length (chartHistory (receive msgs d)) <= MAX_HISTORY_POINTS)%nat ∧
  length (chartHistory (receive msgs d)) =
    ((length (chartHistory d) + length msgs) `min` MAX_HISTORY_POINTS)%nat.
Proof.
  intros Hlen.
  assert (∀ prevs, length (points msgs prevs) = length msgs) as Hpoints.
  { induction msgs as [|msg rest IH]; intros prevs; [done|].
    cbn [points length]. by rewrite IH. }
  assert (chartHistory (receive msgs d) =
    slice_last MAX_HISTORY_POINTS
      (chartHistory d ++ points msgs (previousStatsRef d))) as Heq.
  { rewrite receive_previousStatsRef_points.
    destruct (decide (msgs = [])) as [->|]; [|done].
    cbn [points]. rewrite app_nil_r. by rewrite slice_last_short. }
  split; [exact Heq|].
  rewrite Heq, slice_last_length, length_app, Hpoints. lia.
Qed.

Lemma chartHistory_keeps_last_50_witness :
  length (chartHistory
            (receive (replicate 60 ([mkDeviceStatsJSON "aa" "" 1 1], "t"))
                     new_Dashboard)) = 50%nat.
Proof.
  pose proof (chartHistory_keeps_last_50
                (replicate 60 ([mkDeviceStatsJSON "aa" "" 1 1], "t"))
                new_Dashboard) as Hthm.
  destruct Hthm as (_ & _ & Hlen).
  - unfold new_Dashboard, MAX_HISTORY_POINTS. cbn [chartHistory length]. lia.
  - rewrite Hlen. rewrite length_replicate. reflexivity.
Defined.

Lemma filter_mac_absent m (data : list DeviceStatsJSON) :
  m ∉ mac <$> data → filter (λ device, mac device = m) data = [].
Proof.
  induction data as [|device rest IH]; [done|].
  rewrite fmap_cons, not_elem_of_cons. intros [Hne Hrest].
  rewrite filter_cons, decide_False by done. by apply IH.
Qed.

(** What the loop of a message leaves for a key, when the message lists no
    address twice. *)
Lemma forEach_lookup m data : ∀ st,
  NoDup (mac <$> data) →
  match filter (λ device, mac device = m) data with
  | [] => (fold_left forEach_device data st).1 !! m = st.1 !! m ∧
          (fold_left forEach_device data st).2 !! m = st.2 !! m
  | device :: others =>
      others = [] ∧
      (fold_left forEach_device data st).1 !! m =
        Some (mkPrevious (bytesSent device) (bytesRecv device)) ∧
      (fold_left forEach_device data st).2 !! m =
        Some (device_rates (st.1 !! m) device)
  end.
Proof.
  induction data as [|device rest IH]; intros st Hnodup; [done|].
  rewrite fmap_cons in Hnodup. apply NoDup_cons in Hnodup as [Hfirst Hrest].
  cbn [fold_left]. rewrite filter_cons.
  specialize (IH (forEach_device st device) Hrest).
  destruct (decide (mac device = m)) as [Hm|Hm].
  - subst m. rewrite (filter_mac_absent _ _ Hfirst) in IH |- *.
    destruct IH as [-> ->]. unfold forEach_device. cbn [fst snd].
    by rewrite !lookup_insert_eq.
  - destruct (filter _ rest) as [|device' others].
    + destruct IH as [-> ->]. unfold forEach_device. cbn [fst snd].
      by rewrite !lookup_insert_ne.
    + destruct IH as (-> & -> & ->). unfold forEach_device. cbn [fst].
      by rewrite lookup_insert_ne.
Qed.

Lemma device_rates_safe prev device :
  from_option safe_previous True prev → safe_counters device →
  safe_rates (device_rates prev device).
Proof.
  unfold safe_previous, safe_counters, safe_rates, safe_integer.
  intros Hprev [Hs Hr]. destruct prev as [prev|]; simpl in *; lia.
Qed.

Lemma forEach_safe data : ∀ st,
  Forall safe_counters data →
  map_Forall (λ _, safe_previous) st.1 →
  map_Forall (λ _, safe_rates) st.2 →
  map_Forall (λ _, safe_previous) (fold_left forEach_device data st).1 ∧
  map_Forall (λ _, safe_rates) (fold_left forEach_device data st).2.
Proof.
  induction data as [|device rest IH]; intros st Hdata Hprevs Hrates; [done|].
  apply Forall_cons in Hdata as [Hdevice Hrest].
  cbn [fold_left]. apply IH; [done|..]; unfold forEach_device; cbn [fst snd].
  - apply map_Forall_insert_2; [exact Hdevice|done].
  - apply map_Forall_insert_2; [|done].
    apply device_rates_safe; [|done].
    destruct (st.1 !! mac device) as [prev|] eqn:Hprev; [|done].
    exact (Hprevs _ _ Hprev).
Qed.

(** X21: as long as the counters of the messages are safe integers, a rate
    the dashboard records is never negative and is a safe integer itself.
    In a message that lists no address twice a device gets the rates 0 and
    0 when the dashboard has not seen it before, and otherwise the growth
    of its counters since the last message that listed it, or 0 when a
    counter is lower than it was then, as after a restart of the
    monitor. *)
Theorem rates_never_negative msgs prevs :
  map_Forall (λ _, safe_previous) prevs →
  Forall (λ msg, Forall safe_counters msg.1) msgs →
  Forall (λ pt, map_Forall (λ _ r, safe_rates r ∧ 0 ≤ upload r ∧ 0 ≤ download r)
                  (point_devices pt)) (points msgs prevs) ∧
  (∀ data time device,
     Forall safe_counters data →
     NoDup (mac <$> data) → device ∈ data →
     point_devices (message_point data time prevs).2 !! mac device =
       Some (match prevs !! mac device with
             | None => mkRates 0 0
             | Some prev =>
                 mkRates (if decide (bytesSent device < sent prev) then 0
                          else bytesSent device - sent prev)
                         (if decide (bytesRecv device < recv prev) then 0
                          else bytesRecv device - recv prev)
             end) ∧
     (message_point data time prevs).1 !! mac device =
       Some (mkPrevious (bytesSent device) (bytesRecv device))).
Proof.
  intros Hprevs Hmsgs. split.
  - revert prevs Hprevs.
    induction Hmsgs as [|msg rest Hmsg _ IH]; intros prevs Hprevs.
    + by apply Forall_nil.
    + destruct (forEach_safe msg.1 (prevs, (∅ : gmap string Rates)) Hmsg Hprevs)
        as [Hp Hr];
        [apply map_Forall_empty|].
      cbn [points]. apply Forall_cons. split; [|by apply IH].
      unfold message_point. cbn [snd point_devices].
      intros key r Hkey. pose proof (Hr key r Hkey) as Hsafe.
      split; [exact Hsafe|].
      unfold safe_rates, safe_integer in Hsafe. lia.
  - intros data time device _ Hnodup Hin.
    pose proof (forEach_lookup (mac device) data (prevs, ∅) Hnodup) as Hlook.
    assert (device ∈ filter (λ d, mac d = mac device) data) as Hfilter
      by (by apply list_elem_of_filter).
    destruct (filter _ data) as [|device' others];
      [by apply elem_of_nil in Hfilter|].
    destruct Hlook as (-> & Hprev & Hrate).
    apply list_elem_of_singleton in Hfilter as <-.
    unfold message_point. cbn [fst snd point_devices].
    split; [|exact Hprev]. rewrite Hrate. cbn [fst]. f_equal.
    destruct (prevs !! mac device) as [prev|]; [|done]. simpl.
    f_equal; case_decide; lia.
Qed.

Lemma rates_never_negative_witness :
  point_devices
    (message_point [mkDeviceStatsJSON "aa" "" 40 900] "10:00:06"
       (<["aa" := mkPrevious 400 10]> ∅)).2 !! "aa" = Some (mkRates 0 890).
Proof.
  assert (map_Forall (λ _ : string, safe_previous)
            (<["aa" := mkPrevious 400 10]> (∅ : gmap string Previous)))
    as Hprevs.
  { apply map_Forall_insert_2; [|apply map_Forall_empty].
    unfold safe_previous, safe_integer. simpl. lia. }
  assert (Forall safe_counters [mkDeviceStatsJSON "aa" "" 40 900]) as Hdata.
  { apply Forall_cons. split; [|by apply Forall_nil].
    unfold safe_counters, safe_integer. simpl. lia. }
  assert (Forall (λ msg : list DeviceStatsJSON * string,
                    Forall safe_counters msg.1)
            [([mkDeviceStatsJSON "aa" "" 40 900], "10:00:06")]) as Hmsgs.
  { apply Forall_cons. split; [exact Hdata|by apply Forall_nil]. }
  pose proof (rates_never_negative
                [([mkDeviceStatsJSON "aa" "" 40 900], "10:00:06")]
                (<["aa" := mkPrevious 400 10]> ∅) Hprevs Hmsgs)
    as [_ Hrate].
  destruct (Hrate [mkDeviceStatsJSON "aa" "" 40 900] "10:00:06"
              (mkDeviceStatsJSON "aa" "" 40 900)) as [Hpoint _].
  - exact Hdata.
  - rewrite fmap_cons. apply NoDup_cons. split; [apply not_elem_of_nil|].
    apply NoDup_nil_2.
  - apply list_elem_of_singleton. reflexivity.
  - exact Hpoint.
Defined.

Lemma sent_values_cons m msg msgs :
  sent_values m (msg :: msgs) =
    (bytesSent <$> filter (λ device, mac device = m) msg.1) ++ sent_values m msgs.
Proof. reflexivity. Qed.

Lemma rates_telescope m msgs : ∀ prevs,
  Forall (λ msg, NoDup (mac <$> msg.1)) msgs →
  Sorted Z.le (option_list (sent <$> prevs !! m) ++ sent_values m msgs) →
  sum_Z (upload_in m <$> points msgs prevs) =
    default 0 (last (option_list (sent <$> prevs !! m) ++ sent_values m msgs)) -
    default 0 (head (option_list (sent <$> prevs !! m) ++ sent_values m msgs)).
Proof.
  induction msgs as [|[data time] rest IH]; intros prevs Hnodup Hsorted.
  { cbn [points fmap list_fmap sum_Z foldr]. unfold sent_values.
    cbn [mbind list_bind]. rewrite app_nil_r.
    destruct (prevs !! m) as [prev|]; simpl; lia. }
  apply Forall_cons in Hnodup as [Hdata Hrest].
  cbn [points]. rewrite fmap_cons. cbn [sum_Z foldr]. fold (sum_Z).
  rewrite sent_values_cons in Hsorted |- *. cbn [fst snd] in *.
  pose proof (forEach_lookup m data (prevs, ∅) Hdata) as Hlook.
  specialize (IH (message_point data time prevs).1 Hrest).
  unfold upload_in at 1.
  unfold message_point in IH |- *. cbn [fst snd point_devices] in IH |- *.
  change (foldr Z.add 0) with sum_Z.
  destruct (filter (λ device, mac device = m) data) as [|device others].
  - destruct Hlook as [Hprev Hrate]. cbn [fst snd] in Hprev, Hrate.
    rewrite Hrate, lookup_empty. rewrite Hprev in IH.
    cbn [fmap list_fmap app from_option] in *.
    rewrite IH by done. lia.
  - destruct Hlook as (-> & Hprev & Hrate). cbn [fst snd] in Hprev, Hrate.
    rewrite Hrate. rewrite Hprev in IH.
    cbn [fmap list_fmap option_fmap option_map option_list app sent] in IH.
    change (bytesSent <$> [device]) with [bytesSent device] in *.
    cbn [app] in *.
    destruct (prevs !! m) as [prev|] eqn:Hp;
      cbn [fmap option_fmap option_map option_list app from_option
           device_rates upload] in *.
    + change (option_list (Some (sent prev))) with [sent prev] in *.
      change (option_list (Some (bytesSent device)))
        with [bytesSent device] in *.
      cbn [app] in *.
      apply Sorted_inv in Hsorted as [Hsorted Hhd].
      apply HdRel_inv in Hhd.
      rewrite IH by done.
      rewrite (last_cons_cons (sent prev)). cbn [head default from_option id]. unfold id. lia.
    + change (option_list (Some (bytesSent device)))
        with [bytesSent device] in *.
      change (option_list None) with (@nil Z) in *.
      cbn [app] in *.
      rewrite IH by done. cbn [head default from_option id]. unfold id. lia.
Qed.

Lemma rates_safe m msgs : ∀ prevs,
  Forall (λ msg, NoDup (mac <$> msg.1)) msgs →
  Forall safe_integer (option_list (sent <$> prevs !! m) ++ sent_values m msgs) →
  Forall safe_integer (upload_in m <$> points msgs prevs).
Proof.
  induction msgs as [|[data time] rest IH]; intros prevs Hnodup Hsafe.
  { by apply Forall_nil. }
  apply Forall_cons in Hnodup as [Hdata Hrest].
  cbn [points]. rewrite fmap_cons.
  rewrite sent_values_cons in Hsafe. cbn [fst snd] in *.
  pose proof (forEach_lookup m data (prevs, ∅) Hdata) as Hlook.
  specialize (IH (message_point data time prevs).1 Hrest).
  unfold upload_in at 1.
  unfold message_point in IH |- *. cbn [fst snd point_devices] in IH |- *.
  apply Forall_app in Hsafe as [Hprevs Hsafe].
  destruct (filter (λ device, mac device = m) data) as [|device others].
  - destruct Hlook as [Hprev Hrate]. cbn [fst snd] in Hprev, Hrate.
    rewrite Hrate, lookup_empty. rewrite Hprev in IH.
    apply Forall_cons. split.
    + unfold safe_integer. simpl. lia.
    + apply IH. apply Forall_app. by split.
  - destruct Hlook as (-> & Hprev & Hrate). cbn [fst snd] in Hprev, Hrate.
    rewrite Hrate. rewrite Hprev in IH.
    change (bytesSent <$> [device]) with [bytesSent device] in Hsafe.
    cbn [app] in Hsafe. apply Forall_cons in Hsafe as [Hdevice Hsafe].
    apply Forall_cons. split.
    + destruct (prevs !! m) as [prev|].
      * change (option_list (sent <$> Some prev)) with [sent prev] in Hprevs.
        apply Forall_cons in Hprevs as [Hs _].
        unfold safe_integer in *. simpl. lia.
      * unfold safe_integer. simpl. lia.
    + apply IH.
      change (option_list (sent <$> Some (mkPrevious (bytesSent device)
                                             (bytesRecv device))))
        with [bytesSent device].
      apply Forall_cons. by split.
Qed.

(** X22: as long as the messages list no address twice and the counter of
    bytes sent of a device does not decrease from one message to the next,
    the upload rates the dashboard computes for the device add up to the
    growth of the counter between the first and the last message that
    list it: nothing is counted twice and nothing is lost, also across
    messages that do not list the device. With counters that are safe
    integers every rate is one as well. *)
Theorem upload_rates_add_up m msgs :
  Forall (λ msg, NoDup (mac <$> msg.1)) msgs →
  Forall safe_integer (sent_values m msgs) →
  Sorted Z.le (sent_values m msgs) →
  sum_Z (upload_in m <$> points msgs (previousStatsRef new_Dashboard)) =
    default 0 (last (sent_values m msgs)) -
    default 0 (head (sent_values m msgs)) ∧
  Forall safe_integer
    (upload_in m <$> points msgs (previousStatsRef new_Dashboard)).
Proof.
  intros Hnodup Hsafe Hsorted.
  pose proof (rates_telescope m msgs ∅ Hnodup) as Hsum.
  pose proof (rates_safe m msgs ∅ Hnodup) as Hrates.
  rewrite lookup_empty in Hsum, Hrates.
  change (option_list (sent <$> None)) with (@nil Z) in Hsum, Hrates.
  cbn [app] in Hsum, Hrates.
  split; [by apply Hsum|by apply Hrates].
Qed.

Lemma upload_rates_add_up_witness :
  sum_Z (upload_in "aa" <$>
           points example_messages (previousStatsRef new_Dashboard)) = 300.
Proof.
  assert (sent_values "aa" example_messages = [100; 250; 400]) as Hvalues
    by (vm_compute; reflexivity).
  destruct (upload_rates_add_up "aa" example_messages) as [Hsum _].
  - unfold example_messages.
    repeat (apply Forall_cons; split;
            [cbn [fst fmap list_fmap mac];
             repeat (apply NoDup_cons; split;
                     [rewrite ?not_elem_of_cons; repeat split;
                      try discriminate; apply not_elem_of_nil|]);
             apply NoDup_nil_2|]).
    by apply Forall_nil.
  - rewrite Hvalues. unfold safe_integer.
    repeat (apply Forall_cons; split; [lia|]). by apply Forall_nil.
  - rewrite Hvalues.
    repeat (apply Sorted_cons; [|first [apply HdRel_nil | apply HdRel_cons; lia]]).
    apply Sorted_nil.
  - rewrite Hsum, Hvalues. reflexivity.
Defined.
